(** * MikroMail: a shallow embedding of the SMTP client and its encoders

    The development follows the TypeScript sources:
    - [utils] : [encodeQuotedPrintable], [validateEmail];
    - [SMTPClient] : constructor, [sendCommand], the handshake, the
      authenticators, the message composer, [sendEmail] and [close].

    JavaScript strings are sequences of UTF-16 code units; they are modelled
    as lists of integers.  The network, the clock, the random generator and
    the console are modelled by a trace of events and an oracle that answers
    from the trace so far. *)

From Stdlib Require Import ZArith List Bool Lia String Ascii DecimalString.
Import ListNotations.
Local Open Scope Z_scope.

(** ** JavaScript strings and the built-ins the sources call *)

Module JS.

Definition jsstring := list Z.

(** A string literal of the source, given by its ASCII text. *)
Definition lit (s : string) : jsstring :=
  List.map (fun a => Z.of_N (N_of_ascii a)) (list_ascii_of_string s).

Definition CR : Z := 13.
Definition LF : Z := 10.
Definition TAB : Z := 9.
Definition CRLF : jsstring := [CR; LF].

(** [a === b] on strings. *)
Fixpoint streq (a b : jsstring) : bool :=
  match a, b with
  | [], [] => true
  | x :: a', y :: b' => (x =? y) && streq a' b'
  | _, _ => false
  end.

(** [!s] : the empty string is the only falsy string. *)
Definition falsy (s : jsstring) : bool :=
  match s with [] => true | _ :: _ => false end.

Definition len (s : jsstring) : Z := Z.of_nat (List.length s).

(** [s.startsWith(p)] *)
Fixpoint startsWith (s p : jsstring) : bool :=
  match p with
  | [] => true
  | a :: p' =>
      match s with
      | [] => false
      | b :: s' => (a =? b) && startsWith s' p'
      end
  end.

(** [s.endsWith(p)] *)
Definition endsWith (s p : jsstring) : bool := startsWith (rev s) (rev p).

(** [s.includes(p)] *)
Fixpoint includes (s p : jsstring) : bool :=
  startsWith s p ||
  match s with
  | [] => false
  | _ :: r => includes r p
  end.

(** [xs.includes(x)] on an array of strings. *)
Definition arrayIncludes (xs : list jsstring) (x : jsstring) : bool :=
  existsb (streq x) xs.

(** [s.substr(n)] and [s.charAt(n)] *)
Definition substr (n : nat) (s : jsstring) : jsstring := skipn n s.
Definition charAt (n : nat) (s : jsstring) : jsstring := firstn 1 (skipn n s).

(** [s.slice(1, -1)] *)
Definition slice_1_m1 (s : jsstring) : jsstring := removelast (tl s).

(** [s.split(sep)] for a non-empty separator: [skip] counts the code units
    of a separator occurrence still to be passed over, [cur] is the piece
    under construction, reversed. *)
Fixpoint split_from (sep : jsstring) (skip : nat) (cur s : jsstring)
  : list jsstring :=
  match s with
  | [] => [rev cur]
  | c :: r =>
      match skip with
      | S k => split_from sep k cur r
      | O =>
          if startsWith s sep
          then rev cur :: split_from sep (List.length sep - 1) [] r
          else split_from sep 0 (c :: cur) r
      end
  end.

Definition split (sep s : jsstring) : list jsstring := split_from sep 0 [] s.

(** [xs.join(sep)] *)
Fixpoint join (sep : jsstring) (xs : list jsstring) : jsstring :=
  match xs with
  | [] => []
  | [x] => x
  | x :: rest => x ++ sep ++ join sep rest
  end.

(** The class [\s] of regular expressions, which is also what [trim]
    removes: white space and line terminators. *)
Definition isWhiteSpace (c : Z) : bool :=
  (c =? 9) || (c =? 10) || (c =? 11) || (c =? 12) || (c =? 13) || (c =? 32)
  || (c =? 160) || (c =? 5760) || ((8192 <=? c) && (c <=? 8202))
  || (c =? 8232) || (c =? 8233) || (c =? 8239) || (c =? 8287)
  || (c =? 12288) || (c =? 65279).

Fixpoint dropWhile (p : Z -> bool) (s : jsstring) : jsstring :=
  match s with
  | [] => []
  | c :: r => if p c then dropWhile p r else s
  end.

(** [s.trim()] *)
Definition trim (s : jsstring) : jsstring :=
  rev (dropWhile isWhiteSpace (rev (dropWhile isWhiteSpace s))).

Definition isDigit (c : Z) : bool := (48 <=? c) && (c <=? 57).
Definition isUpper (c : Z) : bool := (65 <=? c) && (c <=? 90).
Definition isLower (c : Z) : bool := (97 <=? c) && (c <=? 122).
Definition isAlnum (c : Z) : bool := isLower c || isUpper c || isDigit c.
Definition isASCII (c : Z) : bool := (0 <=? c) && (c <=? 127).

(** Case folding of a regular expression with the [i] flag and without the
    [u] flag: only the ASCII letters have a second case that can match an
    ASCII pattern letter. *)
Definition foldCase (c : Z) : Z := if isUpper c then c + 32 else c.

(** [n.toString()] for an integer. *)
Definition numberToString (n : Z) : jsstring :=
  lit (NilZero.string_of_int (Z.to_int n)).

Definition hexDigitUpper (d : Z) : Z := if d <? 10 then 48 + d else 55 + d.

Fixpoint hexDigitsUpper (fuel : nat) (n : Z) (acc : jsstring) : jsstring :=
  match fuel with
  | O => acc
  | S f =>
      let acc' := hexDigitUpper (n mod 16) :: acc in
      if n / 16 =? 0 then acc' else hexDigitsUpper f (n / 16) acc'
  end.

(** [n.toString(16).toUpperCase()] for a non-negative integer. *)
Definition toHexUpper (n : Z) : jsstring :=
  hexDigitsUpper (S (Z.to_nat (Z.log2 n))) n [].

(** The UTF-8 bytes of a string, as [new TextEncoder().encode(s)] and
    [Buffer.from(s)] produce them: a surrogate pair is one code point of four
    bytes, an unpaired surrogate becomes U+FFFD. *)
Fixpoint utf8Encode (s : jsstring) : list Z :=
  match s with
  | [] => []
  | c :: r =>
      if c <? 128 then c :: utf8Encode r
      else if c <? 2048 then
        Z.lor 192 (Z.shiftr c 6) :: Z.lor 128 (Z.land c 63) :: utf8Encode r
      else if (55296 <=? c) && (c <=? 56319) then
        match r with
        | d :: r' =>
            if (56320 <=? d) && (d <=? 57343) then
              let cp := 65536 + Z.shiftl (c - 55296) 10 + (d - 56320) in
              Z.lor 240 (Z.shiftr cp 18)
              :: Z.lor 128 (Z.land (Z.shiftr cp 12) 63)
              :: Z.lor 128 (Z.land (Z.shiftr cp 6) 63)
              :: Z.lor 128 (Z.land cp 63)
              :: utf8Encode r'
            else 239 :: 191 :: 189 :: utf8Encode r
        | [] => [239; 191; 189]
        end
      else if (56320 <=? c) && (c <=? 57343) then
        239 :: 191 :: 189 :: utf8Encode r
      else
        Z.lor 224 (Z.shiftr c 12)
        :: Z.lor 128 (Z.land (Z.shiftr c 6) 63)
        :: Z.lor 128 (Z.land c 63)
        :: utf8Encode r
  end.

Definition base64Char (i : Z) : Z :=
  if i <? 26 then 65 + i
  else if i <? 52 then 97 + (i - 26)
  else if i <? 62 then 48 + (i - 52)
  else if i =? 62 then 43 else 47.

Fixpoint base64Bytes (bs : list Z) : jsstring :=
  match bs with
  | [] => []
  | [a] =>
      [base64Char (Z.shiftr a 2); base64Char (Z.shiftl (Z.land a 3) 4); 61; 61]
  | [a; b] =>
      [base64Char (Z.shiftr a 2);
       base64Char (Z.lor (Z.shiftl (Z.land a 3) 4) (Z.shiftr b 4));
       base64Char (Z.shiftl (Z.land b 15) 2); 61]
  | a :: b :: c :: r =>
      base64Char (Z.shiftr a 2)
      :: base64Char (Z.lor (Z.shiftl (Z.land a 3) 4) (Z.shiftr b 4))
      :: base64Char (Z.lor (Z.shiftl (Z.land b 15) 2) (Z.shiftr c 6))
      :: base64Char (Z.land c 63)
      :: base64Bytes r
  end.

(** [Buffer.from(s).toString('base64')] *)
Definition toBase64 (s : jsstring) : jsstring := base64Bytes (utf8Encode s).

End JS.

Import JS.

(** ** utils: the quoted-printable encoder and the address validator *)

Module Utils.

(** [text.replace(/\r?\n/g, '\r\n')] *)
Fixpoint normalizeLineEndings (s : jsstring) : jsstring :=
  match s with
  | [] => []
  | c :: r =>
      if c =? LF then CR :: LF :: normalizeLineEndings r
      else
        match r with
        | d :: r' =>
            if (c =? CR) && (d =? LF)
            then CR :: LF :: normalizeLineEndings r'
            else c :: normalizeLineEndings r
        | [] => [c]
        end
  end.

(** [result.replace(/=/g, '=3D')] *)
Definition replaceEquals (s : jsstring) : jsstring :=
  flat_map (fun c => if c =? 61 then lit "=3D" else [c]) s.

(** One turn of the byte loop: [encoded] and [lineLength] before and after
    the byte. *)
Definition qpStep (st : jsstring * Z) (byte : Z) : jsstring * Z :=
  let '(encoded, lineLength) := st in
  let '(chunk, lineLength) :=
    if ((33 <=? byte) && (byte <=? 126) && negb (byte =? 61)) || (byte =? 32)
    then ([byte], lineLength)
    else if (byte =? 13) || (byte =? 10)
    then ([byte], if byte =? 10 then 0 else lineLength)
    else
      let hex := toHexUpper byte in
      (61 :: (if len hex <? 2 then 48 :: hex else hex), lineLength) in
  let '(encoded, lineLength) :=
    if (lineLength + len chunk >? 75) && negb ((byte =? 13) || (byte =? 10))
    then (encoded ++ 61 :: CRLF, 0)
    else (encoded, lineLength) in
  (encoded ++ chunk, lineLength + len chunk).

Definition encodeQuotedPrintable (text : jsstring) : jsstring :=
  let result := normalizeLineEndings text in
  let result := replaceEquals result in
  let utf8Bytes := utf8Encode result in
  fst (fold_left qpStep utf8Bytes ([], 0)).

(** [/^[a-zA-Z0-9!#$%&'*+\-/=?^_`{|}~.]+$/] *)
Definition isLocalPartChar (c : Z) : bool :=
  isAlnum c || existsb (Z.eqb c) (lit "!#$%&'*+-/=?^_`{|}~.").

Definition localPartRegex (s : jsstring) : bool :=
  negb (falsy s) && forallb isLocalPartChar s.

(** [/^[0-9]{1,3}\.[0-9]{1,3}\.[0-9]{1,3}\.[0-9]{1,3}$/] *)
Definition ipv4Regex (s : jsstring) : bool :=
  let groups := split (lit ".") s in
  (List.length groups =? 4)%nat
  && forallb (fun g => negb (falsy g) && (List.length g <=? 3)%nat
                       && forallb isDigit g) groups.

(** [/^[a-zA-Z0-9]([a-zA-Z0-9\-]*[a-zA-Z0-9])?$/] *)
Definition domainPartRegex (s : jsstring) : bool :=
  match s with
  | [] => false
  | c :: r =>
      isAlnum c
      && match rev r with
         | [] => true
         | z :: mid => isAlnum z && forallb (fun x => isAlnum x || (x =? 45)) mid
         end
  end.

Definition validateEmail (email : jsstring) : bool :=
  let parts := split (lit "@") email in
  let localPart := nth 0 parts [] in
  let domain := nth_error parts 1 in
  if falsy localPart || (len localPart >? 64) then false
  else if startsWith localPart (lit ".") || endsWith localPart (lit ".")
          || includes localPart (lit "..")
  then false
  else if negb (localPartRegex localPart) then false
  else
    match domain with
    | None => false
    | Some domain =>
        if falsy domain || (len domain >? 255) then false
        else if startsWith domain (lit "[") && endsWith domain (lit "]") then
          let ipContent := slice_1_m1 domain in
          if startsWith ipContent (lit "IPv6:") then true
          else ipv4Regex ipContent
        else if startsWith domain (lit ".") || endsWith domain (lit ".")
                || includes domain (lit "..")
        then false
        else
          let domainParts := split (lit ".") domain in
          if (List.length domainParts <? 2)%nat
             || (len (last domainParts []) <? 2)
          then false
          else
            forallb (fun part =>
                       negb (falsy part || (len part >? 63))
                       && domainPartRegex part) domainParts
    end.

End Utils.

Import Utils.

(** ** interfaces *)

Module Interfaces.

(** A value typed [string | string[]]. *)
Inductive StringOrArray :=
| Str (s : jsstring)
| Arr (items : list jsstring).

(** [SMTPConfiguration]: an optional property is [None] when omitted. *)
Record SMTPConfiguration := {
  user : jsstring;
  password : jsstring;
  host : jsstring;
  port : option Z;
  secure : option bool;
  timeout : option Z;
  debug : option bool;
  clientName : option jsstring;
  maxRetries : option Z;
  retryDelay : option Z;
  skipAuthentication : option bool
}.

(** [EmailOptions].  The interface declares [to: string]; the facade and the
    README also pass an array of addresses, so the field admits both, as the
    value does at run time.  [headers] lists the entries in the order
    [Object.entries] yields them.  [attachments] is never read by the client
    and is left out. *)
Record EmailOptions := {
  from : option jsstring;
  to : StringOrArray;
  cc : option StringOrArray;
  bcc : option StringOrArray;
  replyTo : option jsstring;
  subject : jsstring;
  text : option jsstring;
  html : option jsstring;
  headers : option (list (jsstring * jsstring))
}.

Record SendResult := {
  success : bool;
  messageId : option jsstring;
  message : option jsstring;
  error : option jsstring
}.

Inductive AuthMethod := PLAIN | LOGIN | CRAM_MD5.

End Interfaces.

(** ** SMTPClient *)

Module SMTPClient.

Import Interfaces.

(** What the client does to the outside, in the order it does it. *)
Inductive Event :=
| Connect (tls : bool) (host : jsstring) (port : Z)
| StartTls
| Write (data : jsstring)
| SocketEnd
| SocketDestroy
| Sleep (ms : Z)
| ConsoleLog (line : jsstring).

(** How a connection attempt ends: the socket cannot be created, it emits
    [error], it emits [close] before the greeting, nothing arrives before
    the timeout, or a first chunk of data arrives.  A socket that emits
    [connect], which clears the timer, and then stays silent for ever is not
    among them: the promise of [connect] never settles on it, so what is
    said of [connect] and of its callers is said of the runs that settle. *)
Inductive ConnectOutcome :=
| CreateThrows (message : jsstring)
| SocketError (message : jsstring)
| ClosedEarly (hadError : bool)
| NoGreeting
| Greeting (data : jsstring).

(** How the upgrade ends: the TLS socket emits [error], or it emits
    [secureConnect], authorized or not.  The code has a branch for a
    [secureConnect] on a socket that is not authorized; with
    [rejectUnauthorized] set, as it is here, the platform reports a
    certificate that fails verification as [error].  An upgrade on which
    neither event arrives never settles and is not among the outcomes. *)
Inductive TlsOutcome :=
| TlsError (message : jsstring)
| SecureConnect (authorized : bool) (authorizationError : jsstring).

(** The platform and the peer.  Everything that depends on the moment is
    asked with the events so far. *)
Record World := {
  hostname : jsstring;
  toUpperCase : jsstring -> jsstring;
  base64ToUtf8 : jsstring -> jsstring;
  hmacMd5Hex : jsstring -> jsstring -> jsstring;
  randomHex : Z -> list Event -> jsstring;
  utcDate : list Event -> jsstring;
  connecting : list Event -> ConnectOutcome;
  upgrading : list Event -> TlsOutcome;
  serverData : list Event -> list jsstring;
  peerClose : list Event -> option bool
}.

(** [Required<SMTPConfiguration>] *)
Record RequiredConfiguration := {
  host : jsstring;
  user : jsstring;
  password : jsstring;
  port : Z;
  secure : bool;
  debug : bool;
  timeout : Z;
  clientName : jsstring;
  maxRetries : Z;
  retryDelay : Z;
  skipAuthentication : bool
}.

Inductive Socket := PlainSocket | TlsSocket.

(** The fields of the class, and [trace]: the events so far. *)
Record Client := {
  config : RequiredConfiguration;
  socket : option Socket;
  connected : bool;
  lastCommand : jsstring;
  serverCapabilities : list jsstring;
  secureMode : bool;
  retryCount : Z;
  trace : list Event
}.

Definition maxEmailSize : Z := 10485760.

Definition set_socket (v : option Socket) (c : Client) : Client :=
  {| config := config c; socket := v; connected := connected c;
     lastCommand := lastCommand c; serverCapabilities := serverCapabilities c;
     secureMode := secureMode c; retryCount := retryCount c; trace := trace c |}.

Definition set_connected (v : bool) (c : Client) : Client :=
  {| config := config c; socket := socket c; connected := v;
     lastCommand := lastCommand c; serverCapabilities := serverCapabilities c;
     secureMode := secureMode c; retryCount := retryCount c; trace := trace c |}.

Definition set_lastCommand (v : jsstring) (c : Client) : Client :=
  {| config := config c; socket := socket c; connected := connected c;
     lastCommand := v; serverCapabilities := serverCapabilities c;
     secureMode := secureMode c; retryCount := retryCount c; trace := trace c |}.

Definition set_serverCapabilities (v : list jsstring) (c : Client) : Client :=
  {| config := config c; socket := socket c; connected := connected c;
     lastCommand := lastCommand c; serverCapabilities := v;
     secureMode := secureMode c; retryCount := retryCount c; trace := trace c |}.

Definition set_secureMode (v : bool) (c : Client) : Client :=
  {| config := config c; socket := socket c; connected := connected c;
     lastCommand := lastCommand c; serverCapabilities := serverCapabilities c;
     secureMode := v; retryCount := retryCount c; trace := trace c |}.

Definition set_retryCount (v : Z) (c : Client) : Client :=
  {| config := config c; socket := socket c; connected := connected c;
     lastCommand := lastCommand c; serverCapabilities := serverCapabilities c;
     secureMode := secureMode c; retryCount := v; trace := trace c |}.

Definition record (e : Event) (c : Client) : Client :=
  {| config := config c; socket := socket c; connected := connected c;
     lastCommand := lastCommand c; serverCapabilities := serverCapabilities c;
     secureMode := secureMode c; retryCount := retryCount c;
     trace := trace c ++ [e] |}.

(** An asynchronous method: from a client state to a promise that is
    resolved with a value or rejected with [new Error(message)], and the
    client state then. *)
Inductive Settled (A : Type) :=
| Resolved (a : A)
| Rejected (message : jsstring).
Arguments Resolved {A} a.
Arguments Rejected {A} message.

Definition M (A : Type) : Type := Client -> Settled A * Client.

Definition ret {A} (a : A) : M A := fun c => (Resolved a, c).
Definition throw {A} (message : jsstring) : M A := fun c => (Rejected message, c).
Definition bind {A B} (m : M A) (k : A -> M B) : M B :=
  fun c =>
    match m c with
    | (Resolved a, c') => k a c'
    | (Rejected e, c') => (Rejected e, c')
    end.
Definition update (f : Client -> Client) : M unit := fun c => (Resolved tt, f c).

(** [try { body } catch (e) { handler }] *)
Definition tryCatch {A} (body : M A) (handler : jsstring -> M A) : M A :=
  fun c =>
    match body c with
    | (Resolved a, c') => (Resolved a, c')
    | (Rejected e, c') => handler e c'
    end.

(** [try { body } finally { finalizer }], for a finalizer that does not
    throw. *)
Definition tryFinally {A} (body : M A) (finalizer : Client -> Client) : M A :=
  fun c => let '(r, c') := body c in (r, finalizer c').

Declare Scope client_scope.
Delimit Scope client_scope with client.
Notation "x <- m ;; k" := (bind m (fun x => k))
  (at level 61, m at next level, right associativity) : client_scope.
Notation "m ;; k" := (bind m (fun _ => k))
  (at level 61, right associativity) : client_scope.
Local Open Scope client_scope.

(** [x ?? d] *)
Definition nullish {A} (x : option A) (d : A) : A :=
  match x with
  | Some v => v
  | None => d
  end.

(** An optional boolean where a truth value is wanted: [undefined] is
    falsy. *)
Definition truthyFlag (x : option bool) : bool :=
  match x with
  | Some b => b
  | None => false
  end.

(** [new SMTPClient(config)] *)
Definition new (W : World) (cfg : SMTPConfiguration) : Client :=
  let resolved :=
    {| host := Interfaces.host cfg;
       user := Interfaces.user cfg;
       password := Interfaces.password cfg;
       port := nullish (Interfaces.port cfg)
                 (if truthyFlag (Interfaces.secure cfg) then 465 else 587);
       secure := nullish (Interfaces.secure cfg) true;
       debug := nullish (Interfaces.debug cfg) false;
       timeout := nullish (Interfaces.timeout cfg) 10000;
       clientName := nullish (Interfaces.clientName cfg) (hostname W);
       maxRetries := nullish (Interfaces.maxRetries cfg) 3;
       retryDelay := nullish (Interfaces.retryDelay cfg) 1000;
       skipAuthentication :=
         truthyFlag (Interfaces.skipAuthentication cfg) || false |} in
  {| config := resolved;
     socket := None;
     connected := false;
     lastCommand := [];
     serverCapabilities := [];
     secureMode := secure resolved;
     retryCount := 0;
     trace := [] |}.

(** The line terminators, which [.] of a regular expression does not
    match. *)
Definition isLineTerminator (c : Z) : bool :=
  (c =? 10) || (c =? 13) || (c =? 8232) || (c =? 8233).

(** [/^(\d{3})(.?)/.exec(line)]: the two groups. *)
Definition execReplyLine (line : jsstring) : option (jsstring * jsstring) :=
  let code := firstn 3 line in
  if (List.length code =? 3)%nat && forallb isDigit code then
    Some (code,
          match skipn 3 line with
          | c :: _ => if isLineTerminator c then [] else [c]
          | [] => []
          end)
  else None.

(** [lines[i] || ''] *)
Definition lineOrEmpty (lines : list jsstring) (i : Z) : jsstring :=
  if i <? 0 then [] else nth (Z.to_nat i) lines [].

(** The [onData] listener of [sendCommand], run on the chunks that arrive
    before the command times out: [Some (responseData, matches)] once a
    response is complete, [None] when the chunks end first. *)
Fixpoint onData (expectedCode : Z) (responseData : jsstring)
  (chunks : list jsstring) : option (jsstring * bool) :=
  match chunks with
  | [] => None
  | chunk :: later =>
      let responseData := responseData ++ chunk in
      let lines := split CRLF responseData in
      if (0 <? List.length lines)%nat && streq (last lines []) [] then
        let lastLine := lineOrEmpty lines (Z.of_nat (List.length lines) - 2) in
        match execReplyLine lastLine with
        | Some (code, sep) =>
            if negb (streq sep (lit "-"))
            then Some (responseData, streq code (numberToString expectedCode))
            else onData expectedCode responseData later
        | None => onData expectedCode responseData later
        end
      else onData expectedCode responseData later
  end.

(** [s] starts with [p], letter case aside. *)
Fixpoint startsWithFold (s p : jsstring) : bool :=
  match p with
  | [] => true
  | a :: p' =>
      match s with
      | [] => false
      | b :: s' => (foldCase a =? foldCase b) && startsWithFold s' p'
      end
  end.

Fixpoint takeLine (s : jsstring) : jsstring :=
  match s with
  | [] => []
  | c :: r => if isLineTerminator c then [] else c :: takeLine r
  end.

(** The regular expression that finds [Message-ID: ] in any letter case and
    captures the rest of the line, run with [exec]: the group of the leftmost
    match. *)
Fixpoint execMessageId (s : jsstring) : option jsstring :=
  if startsWithFold s (lit "Message-ID: ") then Some (takeLine (skipn 12 s))
  else
    match s with
    | [] => None
    | _ :: r => execMessageId r
    end.

(** [value.replace(/[\r\n\t]+/g, ' ')] *)
Definition isBreak (c : Z) : bool := (c =? CR) || (c =? LF) || (c =? TAB).

Fixpoint replaceBreaks_from (inRun : bool) (s : jsstring) : jsstring :=
  match s with
  | [] => []
  | c :: r =>
      if isBreak c
      then (if inRun then [] else [32]) ++ replaceBreaks_from true r
      else c :: replaceBreaks_from false r
  end.

Definition replaceBreaks (s : jsstring) : jsstring := replaceBreaks_from false s.

(** [value.replace(/\s{2,}/g, ' ')] *)
Fixpoint replaceSpaces_from (inRun : bool) (s : jsstring) : jsstring :=
  match s with
  | [] => []
  | c :: r =>
      if isWhiteSpace c then
        if inRun then replaceSpaces_from true r
        else
          match r with
          | d :: _ =>
              if isWhiteSpace d then 32 :: replaceSpaces_from true r
              else c :: replaceSpaces_from false r
          | [] => [c]
          end
      else c :: replaceSpaces_from false r
  end.

Definition replaceSpaces (s : jsstring) : jsstring := replaceSpaces_from false s.

Definition encodeHeaderValue (value : jsstring) : jsstring :=
  if forallb isASCII value then value
  else
    lit "=?UTF-8?Q?"
    ++ flat_map (fun c =>
                   if isASCII c then [c]
                   else
                     let hex := toHexUpper c in
                     61 :: (if len hex <? 2 then 48 :: hex else hex)) value
    ++ lit "?=".

Definition sanitizeHeader (value : jsstring) : jsstring :=
  let sanitized := trim (replaceSpaces (replaceBreaks value)) in
  encodeHeaderValue sanitized.

(** [/^[a-zA-Z0-9-]+$/] and [/^(from|to|cc|bcc|subject|date|message-id)$/i] *)
Definition headerNameRegex (name : jsstring) : bool :=
  negb (falsy name) && forallb (fun c => isAlnum c || (c =? 45)) name.

Definition reservedNameRegex (name : jsstring) : bool :=
  existsb (streq (List.map foldCase name))
    [lit "from"; lit "to"; lit "cc"; lit "bcc"; lit "subject"; lit "date";
     lit "message-id"].

(** A string or an array inside a template literal or where a string is
    expected: an array is joined with commas. *)
Definition valueToString (v : StringOrArray) : jsstring :=
  match v with
  | Str s => s
  | Arr items => join (lit ",") items
  end.

Definition falsyValue (v : StringOrArray) : bool :=
  match v with
  | Str s => falsy s
  | Arr _ => false
  end.

(** [validateEmail] on a value that may be an array: an array has no
    [split], the call throws inside the [try] of [validateEmail] and its
    [catch] returns false. *)
Definition validateEmailValue (v : StringOrArray) : bool :=
  match v with
  | Str s => validateEmail s
  | Arr _ => false
  end.

(** [Array.isArray(v) ? v : [v]] *)
Definition asList (v : StringOrArray) : list jsstring :=
  match v with
  | Str s => [s]
  | Arr items => items
  end.

(** [x || y] on optional strings. *)
Definition orElse (x : option jsstring) (y : jsstring) : jsstring :=
  match x with
  | Some s => if falsy s then y else s
  | None => y
  end.

Definition truthy (x : option jsstring) : bool :=
  match x with
  | Some s => negb (falsy s)
  | None => false
  end.

Definition truthyValue (x : option StringOrArray) : bool :=
  match x with
  | Some v => negb (falsyValue v)
  | None => false
  end.

Definition getBestAuthMethod (serverCapabilities : list jsstring) : AuthMethod :=
  let capabilities :=
    List.map (fun cap => nth 0 (split (lit " ") cap) []) serverCapabilities in
  if arrayIncludes capabilities (lit "AUTH") then
    match find (fun cap => startsWith cap (lit "AUTH ")) serverCapabilities with
    | Some authLine =>
        let methods := tl (split (lit " ") authLine) in
        if arrayIncludes methods (lit "CRAM-MD5") then CRAM_MD5
        else if arrayIncludes methods (lit "LOGIN") then LOGIN
        else PLAIN
    | None => PLAIN
    end
  else PLAIN.

Definition isPermanentError (errorMessage : jsstring) : bool :=
  includes errorMessage (lit "5.")
  || includes errorMessage (lit "Authentication failed")
  || includes errorMessage (lit "certificate").

Definition failure (text : jsstring) : SendResult :=
  {| success := false; messageId := None; message := None; error := Some text |}.

Section Methods.

Variable W : World.

Definition log (message : jsstring) (isError : bool) : M unit :=
  fun c =>
    if debug (config c)
    then
      let prefix := if isError then lit "SMTP ERROR: " else lit "SMTP: " in
      (Resolved tt, record (ConsoleLog (prefix ++ message)) c)
    else (Resolved tt, c).

(** [connect], with [createTLSConnection], [createPlainConnection] and the
    handlers of [setupSocketEventHandlers]. *)
Definition connect : M unit :=
  fun c =>
    let cfg := config c in
    let opening := Connect (secure cfg) (host cfg) (port cfg) in
    let created :=
      update (record opening) ;;
      update (set_socket (Some (if secure cfg then TlsSocket else PlainSocket))) in
    match connecting W (trace c ++ [opening]) with
    | CreateThrows message =>
        (log (lit "Failed to create socket: " ++ message) true ;;
         throw message) c
    | SocketError message =>
        (created ;;
         log (lit "Connection error: " ++ message) true ;;
         throw (lit "SMTP connection error: " ++ message)) c
    | ClosedEarly hadError =>
        if connected c then
          (created ;;
           log (lit "Connection closed"
                ++ (if hadError then lit " with error" else [])) false ;;
           update (set_connected false) ;;
           update (record SocketDestroy) ;;
           throw (lit "Connection timeout after "
                  ++ numberToString (timeout cfg) ++ lit "ms")) c
        else
          (created ;;
           update (set_connected false) ;;
           throw (lit "Connection closed before initialization completed")) c
    | NoGreeting =>
        (created ;;
         update (record SocketDestroy) ;;
         throw (lit "Connection timeout after "
                ++ numberToString (timeout cfg) ++ lit "ms")) c
    | Greeting data =>
        (created ;;
         log (lit "Connected to SMTP server") false ;;
         let greeting := trim data in
         log (lit "Server greeting: " ++ greeting) false ;;
         if startsWith greeting (lit "220") then
           update (set_connected true) ;;
           update (set_secureMode (secure cfg))
         else
           update (record SocketDestroy) ;;
           throw (lit "Unexpected server greeting: " ++ greeting)) c
    end.

Definition upgradeToTLS : M unit :=
  fun c =>
    match socket c with
    | None => ret tt c
    | Some _ =>
        if secureMode c then ret tt c
        else
          match upgrading W (trace c ++ [StartTls]) with
          | TlsError message =>
              (update (record StartTls) ;;
               log (lit "TLS upgrade error: " ++ message) true ;;
               throw (lit "STARTTLS error: " ++ message)) c
          | SecureConnect authorized authorizationError =>
              (update (record StartTls) ;;
               log (lit "Connection upgraded to TLS") false ;;
               if authorized then
                 update (set_socket (Some TlsSocket)) ;;
                 update (set_secureMode true)
               else
                 throw (lit "TLS certificate verification failed: "
                        ++ authorizationError)) c
          end
    end.

(** The [close] handler of the socket, when the peer closes it. *)
Definition onClose : M unit :=
  fun c =>
    match peerClose W (trace c) with
    | None => ret tt c
    | Some hadError =>
        ((if connected c
          then log (lit "Connection closed"
                    ++ (if hadError then lit " with error" else [])) false
          else ret tt) ;;
         update (set_connected false)) c
    end.

Definition sendCommand (command : jsstring) (expectedCode : Z) : M jsstring :=
  fun c =>
    match socket c with
    | None => throw (lit "Not connected to SMTP server") c
    | Some _ =>
        if negb (connected c) then throw (lit "Not connected to SMTP server") c
        else
          let hidden :=
            startsWith command (lit "AUTH PLAIN")
            || startsWith command (lit "AUTH LOGIN")
            || (streq (lastCommand c) (lit "AUTH LOGIN")
                && negb (startsWith command (lit "AUTH"))) in
          ((if hidden
            then log (lit "SMTP Command: [Credentials hidden]") false
            else log (lit "SMTP Command: " ++ command) false) ;;
           update (set_lastCommand command) ;;
           update (record (Write (command ++ CRLF))) ;;
           (fun c' =>
              match onData expectedCode [] (serverData W (trace c')) with
              | None =>
                  (onClose ;;
                   throw (lit "Command timeout after "
                          ++ numberToString (timeout (config c'))
                          ++ lit "ms: " ++ command)) c'
              | Some (responseData, matches) =>
                  (log (lit "SMTP Response: " ++ trim responseData) false ;;
                   onClose ;;
                   if matches then ret (trim responseData)
                   else throw (lit "SMTP Error: " ++ trim responseData)) c'
              end)) c
    end.

Definition parseCapabilities (ehloResponse : jsstring) : M unit :=
  let lines := split CRLF ehloResponse in
  let capabilities :=
    flat_map (fun line =>
                if ((List.length (firstn 3 line) =? 3)%nat
                    && forallb isDigit (firstn 3 line))
                   && streq (charAt 3 line) (lit " ")
                then [toUpperCase W (substr 4 line)]
                else []) (tl lines) in
  update (set_serverCapabilities capabilities) ;;
  log (lit "Server capabilities: " ++ join (lit ", ") capabilities) false.

Definition authenticatePlain : M unit :=
  fun c =>
    let authPlain :=
      toBase64 (0 :: user (config c) ++ 0 :: password (config c)) in
    (sendCommand (lit "AUTH PLAIN " ++ authPlain) 235 ;; ret tt) c.

Definition authenticateLogin : M unit :=
  fun c =>
    (sendCommand (lit "AUTH LOGIN") 334 ;;
     sendCommand (toBase64 (user (config c))) 334 ;;
     sendCommand (toBase64 (password (config c))) 235 ;;
     ret tt) c.

Definition authenticateCramMD5 : M unit :=
  fun c =>
    (response <- sendCommand (lit "AUTH CRAM-MD5") 334 ;;
     let challenge := base64ToUtf8 W (substr 4 response) in
     let digest := hmacMd5Hex W (password (config c)) challenge in
     let cramResponse := user (config c) ++ lit " " ++ digest in
     let encodedResponse := toBase64 cramResponse in
     sendCommand encodedResponse 235 ;;
     ret tt) c.

Definition authenticate : M unit :=
  fun c =>
    match getBestAuthMethod (serverCapabilities c) with
    | CRAM_MD5 => authenticateCramMD5 c
    | LOGIN => authenticateLogin c
    | PLAIN => authenticatePlain c
    end.

Definition generateMessageId (c : Client) : jsstring :=
  let random := randomHex W 16 (trace c) in
  let domain :=
    orElse (nth_error (split (lit "@") (user (config c))) 1) (lit "localhost") in
  lit "<" ++ random ++ lit "@" ++ domain ++ lit ">".

Definition generateBoundary (c : Client) : jsstring :=
  lit "----=_NextPart_" ++ randomHex W 12 (trace c).

(** [sendEmail] composes only after [to] has passed the validator, as a
    string. *)
Definition createEmailHeaders (c : Client) (options : EmailOptions)
  : list jsstring :=
  let messageId := generateMessageId c in
  let date := utcDate W (trace c) in
  let from := orElse (from options) (user (config c)) in
  let to := valueToString (to options) in
  let headers :=
    [lit "From: " ++ sanitizeHeader from;
     lit "To: " ++ sanitizeHeader to;
     lit "Subject: " ++ sanitizeHeader (subject options);
     lit "Message-ID: " ++ messageId;
     lit "Date: " ++ date;
     lit "MIME-Version: 1.0"] in
  let headers :=
    if truthyValue (cc options) then
      match cc options with
      | Some (Arr items) =>
          headers ++ [lit "Cc: " ++ sanitizeHeader (join (lit ", ") items)]
      | Some (Str s) => headers ++ [lit "Cc: " ++ sanitizeHeader s]
      | None => headers
      end
    else headers in
  let headers :=
    if truthy (replyTo options)
    then headers ++ [lit "Reply-To: " ++ sanitizeHeader (orElse (replyTo options) [])]
    else headers in
  match Interfaces.headers options with
  | Some entries =>
      headers
      ++ flat_map (fun entry =>
                     let '(name, value) := entry in
                     if negb (headerNameRegex name) then []
                     else if reservedNameRegex name then []
                     else [name ++ lit ": " ++ sanitizeHeader value]) entries
  | None => headers
  end.

Definition createMultipartEmail (c : Client) (options : EmailOptions)
  : jsstring :=
  let text := text options in
  let html := html options in
  let headers := createEmailHeaders c options in
  let boundary := generateBoundary c in
  if truthy html && truthy text then
    let headers :=
      headers
      ++ [lit "Content-Type: multipart/alternative; boundary="
          ++ [34] ++ boundary ++ [34]] in
    join CRLF headers ++ CRLF ++ CRLF
    ++ lit "--" ++ boundary ++ CRLF
    ++ lit "Content-Type: text/plain; charset=utf-8" ++ CRLF
    ++ lit "Content-Transfer-Encoding: quoted-printable" ++ CRLF ++ CRLF
    ++ encodeQuotedPrintable (orElse text []) ++ CRLF ++ CRLF
    ++ lit "--" ++ boundary ++ CRLF
    ++ lit "Content-Type: text/html; charset=utf-8" ++ CRLF
    ++ lit "Content-Transfer-Encoding: quoted-printable" ++ CRLF ++ CRLF
    ++ encodeQuotedPrintable (orElse html []) ++ CRLF ++ CRLF
    ++ lit "--" ++ boundary ++ lit "--" ++ CRLF
  else if truthy html then
    let headers :=
      headers
      ++ [lit "Content-Type: text/html; charset=utf-8";
          lit "Content-Transfer-Encoding: quoted-printable"] in
    join CRLF headers ++ CRLF ++ CRLF ++ encodeQuotedPrintable (orElse html [])
  else
    let headers :=
      headers
      ++ [lit "Content-Type: text/plain; charset=utf-8";
          lit "Content-Transfer-Encoding: quoted-printable"] in
    join CRLF headers ++ CRLF ++ CRLF ++ encodeQuotedPrintable (orElse text []).

Definition smtpHandshake : M unit :=
  fun c =>
    (ehloResponse <- sendCommand (lit "EHLO " ++ clientName (config c)) 250 ;;
     parseCapabilities ehloResponse ;;
     (fun c1 =>
        if negb (secureMode c1)
           && arrayIncludes (serverCapabilities c1) (lit "STARTTLS")
        then
          (sendCommand (lit "STARTTLS") 220 ;;
           upgradeToTLS ;;
           secureEhloResponse <-
             sendCommand (lit "EHLO " ++ clientName (config c1)) 250 ;;
           parseCapabilities secureEhloResponse) c1
        else ret tt c1) ;;
     (fun c2 =>
        if negb (skipAuthentication (config c2)) then authenticate c2
        else log (lit "Authentication skipped (testing mode)") false c2)) c.

(** The two loops of [sendEmail] over the cc and the bcc list. *)
Fixpoint sendRecipients (recipients : list jsstring) : M unit :=
  match recipients with
  | [] => ret tt
  | address :: rest =>
      (if validateEmail address
       then sendCommand (lit "RCPT TO:<" ++ address ++ lit ">") 250 ;; ret tt
       else ret tt) ;;
      sendRecipients rest
  end.

Definition rcptAll (field : option StringOrArray) : M unit :=
  if truthyValue field
  then
    match field with
    | Some v => sendRecipients (asList v)
    | None => ret tt
    end
  else ret tt.

(** The envelope commands of an attempt, from [MAIL FROM] to [DATA]. *)
Definition sendEnvelope (options : EmailOptions) (from to : jsstring) : M unit :=
  sendCommand (lit "MAIL FROM:<" ++ from ++ lit ">") 250 ;;
  sendCommand (lit "RCPT TO:<" ++ to ++ lit ">") 250 ;;
  rcptAll (cc options) ;;
  rcptAll (bcc options) ;;
  sendCommand (lit "DATA") 354 ;;
  ret tt.

(** The rest of an attempt: compose, check the size, send, report. *)
Definition sendContent (options : EmailOptions) : M SendResult :=
  fun c =>
    let emailContent := createMultipartEmail c options in
    if len emailContent >? maxEmailSize then
      ret (failure (lit "Email size exceeds maximum allowed")) c
    else
      (sendCommand (emailContent ++ CRLF ++ lit ".") 250 ;;
       let messageId :=
         match execMessageId emailContent with
         | Some group => Some (trim group)
         | None => None
         end in
       ret {| success := true;
              messageId := messageId;
              message := Some (lit "Email sent successfully");
              error := None |}) c.

(** The start of an attempt: the delay before a retry, and the connection
    when there is none. *)
Definition prepare : M unit :=
  (fun c =>
     if retryCount c >? 0 then
       (log (lit "Retrying email send (attempt "
             ++ numberToString (retryCount c) ++ lit " of "
             ++ numberToString (maxRetries (config c)) ++ lit ")...") false ;;
        update (record (Sleep (retryDelay (config c))))) c
     else ret tt c) ;;
  (fun c =>
     if negb (connected c) then (connect ;; smtpHandshake) c else ret tt c).

(** The body of the [try] block of [sendEmail]: the value is what the
    function returns from inside the block. *)
Definition attempt (options : EmailOptions) (from to : jsstring)
  : M SendResult :=
  prepare ;;
  sendEnvelope options from to ;;
  sendContent options.

(** The [catch] block of [sendEmail] when the error is to be retried. *)
Definition resetConnection : Client -> Client :=
  fun c =>
    let c1 :=
      if connected c then snd (sendCommand (lit "RSET") 250 c) else c in
    let c2 := match socket c1 with
              | Some _ => record SocketEnd c1
              | None => c1
              end in
    set_connected false c2.

(** The [for] loop of [sendEmail]; [fuel] bounds the number of turns, and
    [maxRetries + 1] turns are enough. *)
Fixpoint retryLoop (fuel : nat) (options : EmailOptions) (from to : jsstring)
  (c : Client) : SendResult * Client :=
  match fuel with
  | O => (failure (lit "Maximum retry count exceeded"), c)
  | S fuel' =>
      if retryCount c <=? maxRetries (config c) then
        match attempt options from to c with
        | (Resolved result, c1) => (result, c1)
        | (Rejected errorMessage, c1) =>
            let c2 := snd (log (lit "Error sending email: " ++ errorMessage) true c1) in
            if isPermanentError errorMessage
               || (retryCount c2 >=? maxRetries (config c2))
            then (failure errorMessage, c2)
            else
              let c3 := resetConnection c2 in
              retryLoop fuel' options from to
                (set_retryCount (retryCount c3 + 1) c3)
        end
      else (failure (lit "Maximum retry count exceeded"), c)
  end.

Definition sendEmail (options : EmailOptions) (c : Client)
  : SendResult * Client :=
  let from := orElse (from options) (user (config c)) in
  let to := to options in
  let subject := subject options in
  let text := orElse (text options) [] in
  let html := orElse (html options) [] in
  if falsy from || falsyValue to || falsy subject || (falsy text && falsy html)
  then
    (failure (lit "Missing required email parameters (from, to, subject, and either text or html)"), c)
  else if negb (validateEmail from) || negb (validateEmailValue to) then
    (failure (lit "Invalid email address format"), c)
  else
    retryLoop (Z.to_nat (maxRetries (config c) + 1)) options from
      (valueToString to) (set_retryCount 0 c).

Definition close : M unit :=
  tryFinally
    (tryCatch
       (fun c =>
          if connected c then (sendCommand (lit "QUIT") 221 ;; ret tt) c
          else ret tt c)
       (fun e => log (lit "Error during QUIT: " ++ e) true))
    (fun c =>
       match socket c with
       | Some _ => set_connected false (set_socket None (record SocketDestroy c))
       | None => c
       end).

End Methods.

End SMTPClient.

Import Interfaces.
Import SMTPClient.
Local Open Scope client_scope.

(** ** What a trace shows *)

Module Observations.

(** The data handed to [socket.write], the lines handed to [console.log] and
    the delays waited for, each in order. *)
Definition writes (tr : list Event) : list jsstring :=
  flat_map (fun e => match e with Write d => [d] | _ => [] end) tr.

Definition logs (tr : list Event) : list jsstring :=
  flat_map (fun e => match e with ConsoleLog l => [l] | _ => [] end) tr.

Definition sleeps (tr : list Event) : list Z :=
  flat_map (fun e => match e with Sleep ms => [ms] | _ => [] end) tr.

(** What [sendCommand] writes for a command. *)
Definition commandLine (command : jsstring) : jsstring := command ++ CRLF.

Definition rcptLine (address : jsstring) : jsstring :=
  commandLine (lit "RCPT TO:<" ++ address ++ lit ">").

Definition mailFromLine (address : jsstring) : jsstring :=
  commandLine (lit "MAIL FROM:<" ++ address ++ lit ">").

(** The recipients of a cc or bcc field that get a [RCPT TO]. *)
Definition validRecipients (field : option StringOrArray) : list jsstring :=
  if truthyValue field
  then match field with
       | Some v => filter validateEmail (asList v)
       | None => []
       end
  else [].

(** The commands of an attempt that the server accepts up to [DATA]. *)
Definition envelopeLines (options : EmailOptions) (from to : jsstring)
  : list jsstring :=
  [mailFromLine from; rcptLine to]
  ++ List.map rcptLine (validRecipients (cc options))
  ++ List.map rcptLine (validRecipients (bcc options))
  ++ [commandLine (lit "DATA")].

Fixpoint countOf (x : jsstring) (xs : list jsstring) : nat :=
  match xs with
  | [] => O
  | y :: r => ((if streq x y then 1 else 0) + countOf x r)%nat
  end.

Definition countPrefixed (p : jsstring) (xs : list jsstring) : nat :=
  List.length (filter (fun x => startsWith x p) xs).

(** A header line whose field name is [Bcc], in any letter case. *)
Definition isBccHeader (line : jsstring) : bool :=
  startsWithFold line (lit "bcc:").

(** A character that the quoted-printable claim speaks of: printable ASCII
    or space, and not [=]. *)
Definition isPlainChar (c : Z) : bool :=
  (32 <=? c) && (c <=? 126) && negb (c =? 61).

(** A text without the three characters of a soft line break. *)
Definition dropSoftBreaks (s : jsstring) : jsstring :=
  filter (fun c => negb ((c =? 61) || (c =? CR) || (c =? LF))) s.

(** The state of a client never has [connected] set without a socket. *)
Definition consistent (c : Client) : Prop :=
  connected c = true -> socket c <> None.

(** What every method leaves alone: the configuration and the retry counter
    stay, a consistent state stays consistent, and the trace only grows. *)
Definition Steady (c c' : Client) : Prop :=
  config c' = config c
  /\ retryCount c' = retryCount c
  /\ (consistent c -> consistent c')
  /\ exists events, trace c' = trace c ++ events.

Definition steady {A} (m : M A) : Prop :=
  forall c r c', m c = (r, c') -> Steady c c'.

(** A method that writes nothing to the socket. *)
Definition silent_on {A} (m : M A) (c : Client) : Prop :=
  forall r c', m c = (r, c') -> writes (trace c') = writes (trace c).

(** A method that leaves the socket field as it is. *)
Definition keepsSocket {A} (m : M A) : Prop :=
  forall c r c', m c = (r, c') -> socket c' = socket c.

Definition withBcc (v : option StringOrArray) (o : EmailOptions) : EmailOptions :=
  {| from := from o; to := to o; cc := cc o; bcc := v; replyTo := replyTo o;
     subject := subject o; text := text o; html := html o;
     headers := Interfaces.headers o |}.

End Observations.

Import Observations.

(** ** Concrete servers and messages *)

Module Scenarios.

Definition lastWrite (tr : list Event) : jsstring := last (writes tr) [].

Definition asciiUpper (s : jsstring) : jsstring :=
  List.map (fun c => if isLower c then c - 32 else c) s.

(** A server that greets with 220 and answers each command by looking at it
    and at the command before it. *)
Definition scripted (answer : jsstring -> jsstring -> list jsstring) : World :=
  {| hostname := lit "client.example";
     toUpperCase := asciiUpper;
     base64ToUtf8 := fun s => s;
     hmacMd5Hex := fun _ _ => lit "00000000000000000000000000000000";
     randomHex := fun n _ => repeat 48 (Z.to_nat (2 * n));
     utcDate := fun _ => lit "Mon, 02 Nov 2026 12:00:00 GMT";
     connecting := fun _ => Greeting (lit "220 smtp.example ESMTP" ++ CRLF);
     upgrading := fun _ => SecureConnect true [];
     serverData := fun tr =>
                     answer (last (removelast (writes tr)) []) (lastWrite tr);
     peerClose := fun _ => None |}.

Definition reply (s : string) : list jsstring := [lit s ++ CRLF].

(** Accepts everything. *)
Definition accepting : World :=
  scripted (fun _ cmd =>
              if startsWith cmd (lit "AUTH") then reply "235 Accepted"
              else if startsWith cmd (lit "DATA") then reply "354 Go ahead"
              else reply "250 OK").

(** Refuses the sender with a 550 response. *)
Definition refusing550 : World :=
  scripted (fun _ cmd =>
              if startsWith cmd (lit "AUTH") then reply "235 Accepted"
              else if startsWith cmd (lit "MAIL FROM") then reply "550 Mailbox unavailable"
              else reply "250 OK").

(** Refuses the sender with a 550 response that carries an enhanced status
    code. *)
Definition refusing550Enhanced : World :=
  scripted (fun _ cmd =>
              if startsWith cmd (lit "AUTH") then reply "235 Accepted"
              else if startsWith cmd (lit "MAIL FROM") then reply "550 5.1.1 User unknown"
              else reply "250 OK").

(** Answers every command with 421. *)
Definition busy : World :=
  scripted (fun _ cmd =>
              if startsWith cmd (lit "EHLO") then reply "250 OK"
              else if startsWith cmd (lit "AUTH") then reply "235 Accepted"
              else reply "421 Service not available").

(** Advertises [AUTH LOGIN] only. *)
Definition loginOnly : World :=
  scripted (fun before cmd =>
              if startsWith cmd (lit "EHLO")
              then [lit "250-smtp.example" ++ CRLF ++ lit "250 AUTH LOGIN" ++ CRLF]
              else if startsWith cmd (lit "AUTH LOGIN") then reply "334 VXNlcm5hbWU6"
              else if startsWith before (lit "AUTH LOGIN") then reply "334 UGFzc3dvcmQ6"
              else if startsWith cmd (lit "DATA") then reply "354 Go ahead"
              else if startsWith cmd (lit "MAIL") || startsWith cmd (lit "RCPT")
                      || startsWith cmd (lit "From: ")
              then reply "250 OK"
              else reply "235 Accepted").

Definition configuration (pass : jsstring) (dbg : bool) : SMTPConfiguration :=
  {| Interfaces.user := lit "me@example.com";
     Interfaces.password := pass;
     Interfaces.host := lit "smtp.example";
     Interfaces.port := None;
     Interfaces.secure := None;
     Interfaces.timeout := None;
     Interfaces.debug := Some dbg;
     Interfaces.clientName := None;
     Interfaces.maxRetries := None;
     Interfaces.retryDelay := None;
     Interfaces.skipAuthentication := None |}.

Definition letter (recipient : StringOrArray) (blind : option StringOrArray)
  (body : jsstring) : EmailOptions :=
  {| from := Some (lit "me@example.com");
     to := recipient;
     cc := None;
     bcc := blind;
     replyTo := None;
     subject := lit "Hi";
     text := Some body;
     html := None;
     headers := None |}.

Definition you : jsstring := lit "you@example.org".

(** A client just constructed, debug logging off or on. *)
Definition client0 (W : World) : Client :=
  new W (configuration (lit "secret") false).

Definition verbose (W : World) (pass : jsstring) : Client :=
  new W (configuration pass true).

(** One valid, one invalid and one more valid blind recipient. *)
Definition bccLetter : EmailOptions :=
  letter (Str you)
    (Some (Arr [lit "b@example.org"; lit "not an address"; lit "c@example.org"]))
    (lit "Hello").

(** The recipient is also the blind recipient. *)
Definition sameBccLetter : EmailOptions :=
  letter (Str you) (Some (Arr [you])) (lit "Hello").

(** Two recipients in [to]. *)
Definition listLetter : EmailOptions :=
  letter (Arr [you; lit "other@example.org"]) None (lit "Hello").

Definition plainLetter (body : jsstring) : EmailOptions :=
  letter (Str you) None body.

(** The client of [accepting] once connected, and once [DATA] is accepted
    for a letter to [you]. *)
Definition connectedState : Client :=
  snd (prepare accepting (set_retryCount 0 (client0 accepting))).

Definition afterData : Client :=
  snd (sendEnvelope accepting (plainLetter []) (lit "me@example.com") you
         connectedState).

(** A body of 10,485,761 characters. *)
Definition hugeText : jsstring := repeat 97 (Z.to_nat 10485761).

End Scenarios.

Import Scenarios.

(** ** utils: the MX look-up *)

Module Lookup.

(** What [dnsPromises.resolveMx(domain)] does: it resolves with a number of
    records or it rejects. *)
Inductive MxAnswer :=
| MxRecords (count : nat)
| MxRejected.

Definition Resolver : Type := jsstring -> MxAnswer.

Definition verifyMXRecords (dns : Resolver) (domain : jsstring) : bool :=
  match dns domain with
  | MxRecords count => (0 <? count)%nat
  | MxRejected => false
  end.

(** An array has no [split]: the call throws and the [catch] returns
    false. *)
Definition verifyEmailDomain (dns : Resolver) (email : StringOrArray) : bool :=
  match email with
  | Str address =>
      match nth_error (split (lit "@") address) 1 with
      | Some domain =>
          if falsy domain then false else verifyMXRecords dns domain
      | None => false
      end
  | Arr _ => false
  end.

End Lookup.

(** ** errors and Configuration *)

Module Configuration.

(** [ValidationError] *)
Record ValidationError := {
  name : jsstring;
  message : jsstring;
  statusCode : Z
}.

Definition newValidationError (text : jsstring) : ValidationError :=
  {| name := lit "ValidationError"; message := text; statusCode := 400 |}.

(** A property of a configuration object: absent, or given with a value,
    which is [None] when the value is [undefined] or [null]. *)
Inductive Key (A : Type) :=
| Absent
| Given (v : option A).
Arguments Absent {A}.
Arguments Given {A} v.

(** [Partial<SMTPConfiguration>] as an object. *)
Record Settings := {
  user : Key jsstring;
  password : Key jsstring;
  host : Key jsstring;
  port : Key Z;
  secure : Key bool;
  timeout : Key Z;
  debug : Key bool;
  clientName : Key jsstring;
  maxRetries : Key Z;
  retryDelay : Key Z;
  skipAuthentication : Key bool
}.

Definition empty : Settings :=
  {| user := Absent; password := Absent; host := Absent; port := Absent;
     secure := Absent; timeout := Absent; debug := Absent;
     clientName := Absent; maxRetries := Absent; retryDelay := Absent;
     skipAuthentication := Absent |}.

(** One property of [{ ...a, ...b }]. *)
Definition over {A} (a b : Key A) : Key A :=
  match b with
  | Absent => a
  | Given _ => b
  end.

(** [{ ...a, ...b }] *)
Definition spread (a b : Settings) : Settings :=
  {| user := over (user a) (user b);
     password := over (password a) (password b);
     host := over (host a) (host b);
     port := over (port a) (port b);
     secure := over (secure a) (secure b);
     timeout := over (timeout a) (timeout b);
     debug := over (debug a) (debug b);
     clientName := over (clientName a) (clientName b);
     maxRetries := over (maxRetries a) (maxRetries b);
     retryDelay := over (retryDelay a) (retryDelay b);
     skipAuthentication := over (skipAuthentication a) (skipAuthentication b) |}.

Definition set_host (v : jsstring) (s : Settings) : Settings :=
  {| user := user s; password := password s; host := Given (Some v);
     port := port s; secure := secure s; timeout := timeout s;
     debug := debug s; clientName := clientName s;
     maxRetries := maxRetries s; retryDelay := retryDelay s;
     skipAuthentication := skipAuthentication s |}.

Definition set_user (v : jsstring) (s : Settings) : Settings :=
  {| user := Given (Some v); password := password s; host := host s;
     port := port s; secure := secure s; timeout := timeout s;
     debug := debug s; clientName := clientName s;
     maxRetries := maxRetries s; retryDelay := retryDelay s;
     skipAuthentication := skipAuthentication s |}.

Definition set_password (v : jsstring) (s : Settings) : Settings :=
  {| user := user s; password := Given (Some v); host := host s;
     port := port s; secure := secure s; timeout := timeout s;
     debug := debug s; clientName := clientName s;
     maxRetries := maxRetries s; retryDelay := retryDelay s;
     skipAuthentication := skipAuthentication s |}.

Definition set_port (v : Z) (s : Settings) : Settings :=
  {| user := user s; password := password s; host := host s;
     port := Given (Some v); secure := secure s; timeout := timeout s;
     debug := debug s; clientName := clientName s;
     maxRetries := maxRetries s; retryDelay := retryDelay s;
     skipAuthentication := skipAuthentication s |}.

Definition set_secure (v : bool) (s : Settings) : Settings :=
  {| user := user s; password := password s; host := host s;
     port := port s; secure := Given (Some v); timeout := timeout s;
     debug := debug s; clientName := clientName s;
     maxRetries := maxRetries s; retryDelay := retryDelay s;
     skipAuthentication := skipAuthentication s |}.

Definition set_debug (v : bool) (s : Settings) : Settings :=
  {| user := user s; password := password s; host := host s;
     port := port s; secure := secure s; timeout := timeout s;
     debug := Given (Some v); clientName := clientName s;
     maxRetries := maxRetries s; retryDelay := retryDelay s;
     skipAuthentication := skipAuthentication s |}.

Definition set_maxRetries (v : Z) (s : Settings) : Settings :=
  {| user := user s; password := password s; host := host s;
     port := port s; secure := secure s; timeout := timeout s;
     debug := debug s; clientName := clientName s;
     maxRetries := Given (Some v); retryDelay := retryDelay s;
     skipAuthentication := skipAuthentication s |}.

Fixpoint takeWhile (p : Z -> bool) (s : jsstring) : jsstring :=
  match s with
  | [] => []
  | c :: r => if p c then c :: takeWhile p r else []
  end.

(** [Number.parseInt(s, 10)]: [None] is [NaN].  The value is the exact
    integer, as every number here is. *)
Definition parseInt (s : jsstring) : option Z :=
  let s := dropWhile isWhiteSpace s in
  let '(sign, s) :=
    match s with
    | c :: r => if c =? 45 then (-1, r) else if c =? 43 then (1, r) else (1, s)
    | [] => (1, s)
    end in
  let digits := takeWhile isDigit s in
  if falsy digits then None
  else Some (sign * fold_left (fun acc d => acc * 10 + (d - 48)) digits 0).

(** The loop of [parseCliArgs] from index [i] on: [args] is what is left of
    the array from there, [cliConfig] what is set so far. *)
Fixpoint parseFrom (args : list jsstring) (cliConfig : Settings) : Settings :=
  match args with
  | [] => cliConfig
  | arg :: rest =>
      if streq arg (lit "--host") then
        match rest with
        | v :: rest' => parseFrom rest' (set_host v cliConfig)
        | [] => cliConfig
        end
      else if streq arg (lit "--user") then
        match rest with
        | v :: rest' => parseFrom rest' (set_user v cliConfig)
        | [] => cliConfig
        end
      else if streq arg (lit "--password") then
        match rest with
        | v :: rest' => parseFrom rest' (set_password v cliConfig)
        | [] => cliConfig
        end
      else if streq arg (lit "--port") then
        match rest with
        | v :: rest' =>
            match parseInt v with
            | Some value => parseFrom rest' (set_port value cliConfig)
            | None => parseFrom rest' cliConfig
            end
        | [] => cliConfig
        end
      else if streq arg (lit "--secure") then
        parseFrom rest (set_secure true cliConfig)
      else if streq arg (lit "--debug") then
        parseFrom rest (set_debug true cliConfig)
      else if streq arg (lit "--retries") then
        match rest with
        | v :: rest' =>
            match parseInt v with
            | Some value => parseFrom rest' (set_maxRetries value cliConfig)
            | None => parseFrom rest' cliConfig
            end
        | [] => cliConfig
        end
      else parseFrom rest cliConfig
  end.

Definition parseCliArgs (args : list jsstring) : Settings :=
  parseFrom (skipn 2 args) empty.

(** What is at a path: no file, a file that cannot be read or parsed, or a
    file with an object. *)
Inductive ConfigFile :=
| NoFile
| Unreadable (message : jsstring)
| Parsed (settings : Settings).

Inductive ConsoleLine :=
| StdOut (line : jsstring)
| StdErr (line : jsstring).

Definition defaults : Settings :=
  {| user := Given (Some []); password := Given (Some []);
     host := Given (Some []); port := Given (Some 465);
     secure := Given (Some true); timeout := Absent;
     debug := Given (Some false); clientName := Absent;
     maxRetries := Given (Some 2); retryDelay := Absent;
     skipAuthentication := Absent |}.

(** [create]: the merged object and what is printed. *)
Definition create (fs : jsstring -> ConfigFile) (configFilePath : jsstring)
  (args : list jsstring) (configuration : Settings)
  : Settings * list ConsoleLine :=
  let '(fileConfig, printed) :=
    match fs configFilePath with
    | NoFile => (empty, [])
    | Unreadable message =>
        (empty, [StdErr (lit "Error reading config file: " ++ message)])
    | Parsed settings =>
        (settings, [StdOut (lit "Loaded configuration from " ++ configFilePath)])
    end in
  let cliConfig := parseCliArgs args in
  (spread (spread (spread defaults configuration) fileConfig) cliConfig,
   printed).

(** [ConfigurationOptions] *)
Record ConfigurationOptions := {
  config : option Settings;
  configFilePath : option jsstring;
  args : option (list jsstring)
}.

(** [new Configuration(options)]: the [config] field, and what is printed. *)
Definition new (fs : jsstring -> ConfigFile)
  (options : option ConfigurationOptions) : Settings * list ConsoleLine :=
  let configuration :=
    match options with
    | Some o => match config o with Some s => s | None => empty end
    | None => empty
    end in
  let path :=
    orElse (match options with Some o => configFilePath o | None => None end)
      (lit "mikromail.config.json") in
  let arguments :=
    match options with
    | Some o => match args o with Some a => a | None => [] end
    | None => []
    end in
  create fs path arguments configuration.

Definition falsyKey (k : Key jsstring) : bool :=
  match k with
  | Given (Some s) => falsy s
  | _ => true
  end.

(** [get], with [validate]: the object, or the error thrown. *)
Definition get (settings : Settings) : Settings + ValidationError :=
  if falsyKey (host settings)
  then inr (newValidationError (lit "Host value not found"))
  else inl settings.

End Configuration.

(** ** MikroMail *)

Module MikroMail.

Import Configuration.

(** [undefined] in a template literal. *)
Definition shown (x : option jsstring) : jsstring :=
  match x with
  | Some s => s
  | None => lit "undefined"
  end.

(** What reading a property of the merged object gives. *)
Definition keyValue {A} (k : Key A) : option A :=
  match k with
  | Absent => None
  | Given v => v
  end.

(** The object that [get] returned, as the client's constructor reads it.
    The three strings of [SMTPConfiguration] have to be strings. *)
Definition clientConfiguration (s : Settings) : option SMTPConfiguration :=
  match keyValue (user s), keyValue (password s), keyValue (host s) with
  | Some u, Some p, Some h =>
      Some {| Interfaces.user := u;
              Interfaces.password := p;
              Interfaces.host := h;
              Interfaces.port := keyValue (port s);
              Interfaces.secure := keyValue (secure s);
              Interfaces.timeout := keyValue (timeout s);
              Interfaces.debug := keyValue (debug s);
              Interfaces.clientName := keyValue (clientName s);
              Interfaces.maxRetries := keyValue (maxRetries s);
              Interfaces.retryDelay := keyValue (retryDelay s);
              Interfaces.skipAuthentication := keyValue (skipAuthentication s) |}
  | _, _, _ => None
  end.

(** [new MikroMail(options)]: the client, or the error that [get] throws;
    [None] when a string of the merged object is not a string. *)
Definition construct (fs : jsstring -> ConfigFile) (W : World)
  (options : option ConfigurationOptions)
  : option (Client + ValidationError) :=
  match get (fst (Configuration.new fs options)) with
  | inr e => Some (inr e)
  | inl settings =>
      match clientConfiguration settings with
      | Some cfg => Some (inl (SMTPClient.new W cfg))
      | None => None
      end
  end.

(** [send], on the client the constructor made: the client afterwards and
    what [send] itself prints. *)
Definition send (dns : Lookup.Resolver) (W : World)
  (emailOptions : EmailOptions) (smtpClient : Client)
  : Client * list ConsoleLine :=
  let hasMXRecords := Lookup.verifyEmailDomain dns (to emailOptions) in
  let warned :=
    if hasMXRecords then []
    else [StdErr (lit "Warning: No MX records found for recipient domain")] in
  let '(result, c1) := sendEmail W emailOptions smtpClient in
  let reported :=
    if success result
    then [StdOut (lit "Message ID: " ++ shown (messageId result))]
    else [StdErr (lit "Failed to send email: " ++ shown (error result))] in
  match close W c1 with
  | (Resolved _, c2) => (c2, warned ++ reported)
  | (Rejected e, c2) =>
      (c2, warned ++ reported
           ++ [StdErr (lit "Error in email sending process: " ++ e)])
  end.

End MikroMail.

(** ** More of what a trace and a text show *)

Module Emissions.

(** A character a quoted-printable body may hold: printable ASCII, space,
    CR or LF. *)
Definition isQpSafe (c : Z) : bool :=
  ((32 <=? c) && (c <=? 126)) || (c =? CR) || (c =? LF).

(** A text without CR, LF and TAB. *)
Definition noBreaks (s : jsstring) : bool :=
  forallb (fun c => negb (isBreak c)) s.

(** A header line whose field name is [name], in any letter case. *)
Definition isNamed (name line : jsstring) : bool :=
  startsWithFold line (name ++ lit ":").


Definition isSleep (e : Event) : bool :=
  match e with Sleep _ => true | _ => false end.

Definition isConsoleLog (e : Event) : bool :=
  match e with ConsoleLog _ => true | _ => false end.

Definition isWrite (e : Event) : bool :=
  match e with Write _ => true | _ => false end.

(** The trace of [c'] is that of [c] and then events of [P] only. *)
Definition emitted (P : Event -> bool) (c c' : Client) : Prop :=
  exists events, trace c' = trace c ++ events /\ forallb P events = true.

(** A method that, started in a state of [Inv], ends in one and adds only
    events of [P] to the trace. *)
Definition emitsUnder (Inv : Client -> Prop) (P : Event -> bool) {A} (m : M A)
  : Prop :=
  forall c r c', Inv c -> m c = (r, c') -> Inv c' /\ emitted P c c'.

Definition notConsoleLog (e : Event) : bool := negb (isConsoleLog e).

Definition notSleep (e : Event) : bool := negb (isSleep e).

Definition anyState (c : Client) : Prop := True.

Definition debugOff (c : Client) : Prop := debug (config c) = false.

(** What goes over the connection: the data of the writes, one after the
    other, and the lines of it that CR LF ends, which are what the server
    reads as commands. *)
Definition wire (tr : list Event) : jsstring := List.concat (writes tr).

Definition wireLines (tr : list Event) : list jsstring := split CRLF (wire tr).

(** The arguments that [parseCliArgs] has a case for. *)
Definition isCliFlag (arg : jsstring) : bool :=
  existsb (streq arg)
    [lit "--host"; lit "--user"; lit "--password"; lit "--port";
     lit "--secure"; lit "--debug"; lit "--retries"].

(** A method that leaves a field, or any other reading of the state, as it
    is. *)
Definition keeps {A B} (f : Client -> B) (m : M A) : Prop :=
  forall c r c', m c = (r, c') -> f c' = f c.

End Emissions.

Import Emissions.

(** ** More scenarios *)

Module Fixtures.

(** A client for a relay that wants no authentication, once connected. *)
Definition openRelay : SMTPConfiguration :=
  {| Interfaces.user := lit "me@example.com";
     Interfaces.password := [];
     Interfaces.host := lit "smtp.example";
     Interfaces.port := None;
     Interfaces.secure := None;
     Interfaces.timeout := None;
     Interfaces.debug := None;
     Interfaces.clientName := None;
     Interfaces.maxRetries := None;
     Interfaces.retryDelay := None;
     Interfaces.skipAuthentication := Some true |}.

Definition unauthenticated : Client :=
  snd (connect accepting (new accepting openRelay)).


Definition noFiles (path : jsstring) : Configuration.ConfigFile :=
  Configuration.NoFile.

Definition plainStart : list jsstring := [lit "node"; lit "send.js"].



(** An element of a bcc list that the validator accepts, since it looks at
    nothing after a second [@], and that carries a line of its own. *)
Definition injectedBcc : jsstring :=
  lit "b@example.org@>" ++ CRLF ++ lit "RCPT TO:<spy@evil.example".

Definition injectedLetter : EmailOptions :=
  letter (Str you) (Some (Arr [injectedBcc])) (lit "Hello").

(** A command line that sets every key it can. *)
Definition fullStart : list jsstring :=
  [lit "node"; lit "send.js"; lit "--verbose";
   lit "--host"; lit "smtp.example"; lit "--user"; lit "me@example.com";
   lit "--password"; lit "secret"; lit "--port"; lit "587";
   lit "--secure"; lit "--debug"; lit "--retries"; lit "5"].

(** A resolver that knows no domain. *)
Definition noRecords (domain : jsstring) : Lookup.MxAnswer := Lookup.MxRecords 0.

End Fixtures.

Import Fixtures.

(** ** Arithmetic on characters *)

Ltac decide_chars :=
  repeat match goal with
    | H : _ && _ = true |- _ => apply andb_prop in H; destruct H
    | H : _ || _ = false |- _ => apply orb_false_elim in H; destruct H
    | H : negb _ = true |- _ => apply negb_true_iff in H
    | H : (_ <=? _) = true |- _ => apply Z.leb_le in H
    | H : (_ <=? _) = false |- _ => apply Z.leb_gt in H
    | H : (_ <? _) = true |- _ => apply Z.ltb_lt in H
    | H : (_ <? _) = false |- _ => apply Z.ltb_ge in H
    | H : (_ =? _) = true |- _ => apply Z.eqb_eq in H
    | H : (_ =? _) = false |- _ => apply Z.eqb_neq in H
    | H : (_ >? _) = true |- _ => rewrite Z.gtb_ltb in H
    | H : (_ >? _) = false |- _ => rewrite Z.gtb_ltb in H
    end.

Ltac reflect_chars :=
  repeat match goal with
    | |- context [?a <=? ?b] => destruct (Z.leb_spec a b)
    | |- context [?a <? ?b] => destruct (Z.ltb_spec a b)
    | |- context [?a =? ?b] => destruct (Z.eqb_spec a b)
    | |- context [?a >? ?b] => rewrite (Z.gtb_ltb a b)
    end.

Lemma len_app (a b : jsstring) : len (a ++ b) = len a + len b.
Proof. unfold len. rewrite length_app. lia. Qed.

Lemma len_cons (c : Z) (s : jsstring) : len (c :: s) = 1 + len s.
Proof. unfold len. cbn [List.length]. lia. Qed.

Lemma len_nonneg (s : jsstring) : 0 <= len s.
Proof. unfold len. lia. Qed.

(** ** The repository's unit tests of the utilities, on the model *)

Example qp_plain_text :
  encodeQuotedPrintable (lit "Hello, world!") = lit "Hello, world!".
Proof. vm_compute. reflexivity. Qed.

Example qp_tab :
  encodeQuotedPrintable (lit "Column1" ++ [TAB] ++ lit "Column2")
  = lit "Column1=09Column2".
Proof. vm_compute. reflexivity. Qed.

Example qp_latin : encodeQuotedPrintable (lit "Hall" ++ [229]) = lit "Hall=C3=A5".
Proof. vm_compute. reflexivity. Qed.

Example qp_line_feed :
  encodeQuotedPrintable (lit "Line 1" ++ [LF] ++ lit "Line 2")
  = lit "Line 1" ++ CRLF ++ lit "Line 2".
Proof. vm_compute. reflexivity. Qed.

Example qp_euro :
  encodeQuotedPrintable (lit "Price = " ++ [8364] ++ lit "50")
  = lit "Price =3D3D =E2=82=AC50".
Proof. vm_compute. reflexivity. Qed.

Example validateEmail_accepts :
  forallb validateEmail
    [lit "simple@example.com"; lit "very.common@example.com";
     lit "disposable.style.email.with+symbol@example.com";
     lit "other.email-with-hyphen@example.com";
     lit "x@example.com"; lit "example@s.example";
     lit "mailhost!username@example.org"; lit "user%example.com@example.org";
     lit "user@[192.168.2.1]"; lit "user@[IPv6:2001:db8:1ff::a0b:dbd0]"] = true.
Proof. vm_compute. reflexivity. Qed.

Example validateEmail_rejects :
  existsb validateEmail
    [lit "invalidemail.com"; lit "user@"; lit "user@."; lit "@example.com";
     lit "user name@example.com"; lit "user<>@example.com";
     lit "user()@example.com"; lit "user[]@example.com";
     lit "user@domain@example.com"; lit "user@domain.c"; lit "user@domain.";
     lit "user@127.0.0.1"; repeat 97 65 ++ lit "@example.com";
     lit "user@" ++ repeat 97 65 ++ lit ".com";
     lit ".user@example.com"; lit "user.@example.com";
     lit "user@.example.com"; lit "user@example..com";
     lit "user..name@example.com"] = false.
Proof. vm_compute. reflexivity. Qed.

(** ** The quoted-printable encoder *)

Lemma normalizeLineEndings_plain (s : jsstring) :
  forallb isPlainChar s = true -> normalizeLineEndings s = s.
Proof.
  induction s as [|c r IH]; intros H; [reflexivity|].
  cbn [forallb] in H. apply andb_prop in H. destruct H as [Hc Hr].
  cbn [normalizeLineEndings]. unfold isPlainChar in Hc. decide_chars.
  unfold LF, CR. destruct (Z.eqb_spec c 10); [lia|].
  destruct r as [|d r']; [reflexivity|].
  destruct (Z.eqb_spec c 13); [lia|].
  cbn [andb]. rewrite (IH Hr). reflexivity.
Qed.

Lemma replaceEquals_plain (s : jsstring) :
  forallb isPlainChar s = true -> replaceEquals s = s.
Proof.
  unfold replaceEquals.
  induction s as [|c r IH]; intros H; [reflexivity|].
  cbn [forallb] in H. apply andb_prop in H. destruct H as [Hc Hr].
  cbn [flat_map]. rewrite (IH Hr). unfold isPlainChar in Hc. decide_chars.
  destruct (Z.eqb_spec c 61); [lia|]. reflexivity.
Qed.

Lemma utf8Encode_plain (s : jsstring) :
  forallb isPlainChar s = true -> utf8Encode s = s.
Proof.
  induction s as [|c r IH]; intros H; [reflexivity|].
  cbn [forallb] in H. apply andb_prop in H. destruct H as [Hc Hr].
  cbn [utf8Encode]. unfold isPlainChar in Hc. decide_chars.
  destruct (Z.ltb_spec c 128); [|lia]. rewrite (IH Hr). reflexivity.
Qed.

Lemma qpStep_plain (encoded : jsstring) (n c : Z) :
  isPlainChar c = true -> n + 1 <= 75 ->
  qpStep (encoded, n) c = (encoded ++ [c], n + 1).
Proof.
  intros Hc Hn. unfold isPlainChar in Hc. decide_chars.
  unfold qpStep.
  replace (((33 <=? c) && (c <=? 126) && negb (c =? 61)) || (c =? 32)) with true
    by (reflect_chars; cbn; try reflexivity; lia).
  change (len [c]) with 1.
  replace (n + 1 >? 75) with false by (reflect_chars; try reflexivity; lia).
  reflexivity.
Qed.

Lemma qpLoop_plain (s encoded : jsstring) (n : Z) :
  forallb isPlainChar s = true -> n + len s <= 75 ->
  fold_left qpStep s (encoded, n) = (encoded ++ s, n + len s).
Proof.
  revert encoded n.
  induction s as [|c r IH]; intros encoded n H Hn.
  - cbn. rewrite app_nil_r. f_equal. unfold len. cbn. lia.
  - cbn [forallb] in H. apply andb_prop in H. destruct H as [Hc Hr].
    rewrite len_cons in Hn. pose proof (len_nonneg r).
    cbn [fold_left]. rewrite qpStep_plain by (assumption || lia).
    rewrite IH by (assumption || lia).
    rewrite <- app_assoc. cbn [app]. f_equal. rewrite len_cons. lia.
Qed.

(** C2.  On ["a=b"] the encoder returns ["a=3D3Db"]: the [=] of the
    [=3D] that the substitution wrote is encoded once more by the byte loop. *)
Theorem encodeQuotedPrintable_equals_twice :
  encodeQuotedPrintable (lit "a=b") = lit "a=3D3Db"
  /\ encodeQuotedPrintable (lit "a=b") <> lit "a=3Db".
Proof. split; [vm_compute; reflexivity | vm_compute; discriminate]. Qed.

(** C9, as stated, fails: a line of 76 letters is printable ASCII without
    [=], CR, LF or TAB, and the encoder breaks it after 75 characters. *)
Lemma encodeQuotedPrintable_breaks_long_line :
  forallb isPlainChar (repeat 97 76) = true
  /\ encodeQuotedPrintable (repeat 97 76) = repeat 97 75 ++ lit "=" ++ CRLF ++ [97]
  /\ encodeQuotedPrintable (repeat 97 76) <> repeat 97 76.
Proof.
  split; [vm_compute; reflexivity|].
  split; [vm_compute; reflexivity | vm_compute; discriminate].
Qed.

Lemma dropSoftBreaks_app (a b : jsstring) :
  dropSoftBreaks (a ++ b) = dropSoftBreaks a ++ dropSoftBreaks b.
Proof. unfold dropSoftBreaks. apply filter_app. Qed.

Lemma dropSoftBreaks_plain (s : jsstring) :
  forallb isPlainChar s = true -> dropSoftBreaks s = s.
Proof.
  unfold dropSoftBreaks.
  induction s as [|c r IH]; intros H; [reflexivity|].
  cbn [forallb] in H. apply andb_prop in H. destruct H as [Hc Hr].
  cbn [filter]. rewrite (IH Hr). unfold isPlainChar in Hc. decide_chars.
  unfold CR, LF.
  destruct (Z.eqb_spec c 61); [lia|].
  destruct (Z.eqb_spec c 13); [lia|].
  destruct (Z.eqb_spec c 10); [lia|]. reflexivity.
Qed.

Lemma qpStep_plain_any (encoded : jsstring) (n c : Z) :
  isPlainChar c = true ->
  dropSoftBreaks (fst (qpStep (encoded, n) c)) = dropSoftBreaks encoded ++ [c].
Proof.
  intros Hc.
  assert (Hk : dropSoftBreaks [c] = [c])
    by (apply dropSoftBreaks_plain; cbn [forallb]; rewrite Hc; reflexivity).
  unfold isPlainChar in Hc. decide_chars.
  unfold qpStep.
  replace (((33 <=? c) && (c <=? 126) && negb (c =? 61)) || (c =? 32)) with true
    by (reflect_chars; cbn; try reflexivity; lia).
  destruct ((n + len [c] >? 75) && negb ((c =? 13) || (c =? 10))); cbn [fst].
  - rewrite !dropSoftBreaks_app, Hk.
    change (dropSoftBreaks (61 :: CRLF)) with (@nil Z).
    rewrite app_nil_r. reflexivity.
  - rewrite dropSoftBreaks_app, Hk. reflexivity.
Qed.

Lemma qpLoop_plain_any (s encoded : jsstring) (n : Z) :
  forallb isPlainChar s = true ->
  dropSoftBreaks (fst (fold_left qpStep s (encoded, n)))
  = dropSoftBreaks encoded ++ s.
Proof.
  revert encoded n.
  induction s as [|c r IH]; intros encoded n H.
  - cbn. symmetry. apply app_nil_r.
  - cbn [forallb] in H. apply andb_prop in H. destruct H as [Hc Hr].
    cbn [fold_left].
    pose proof (qpStep_plain_any encoded n c Hc) as Q.
    destruct (qpStep (encoded, n) c) as [encoded' n']. cbn [fst] in Q.
    rewrite (IH _ _ Hr), Q, <- app_assoc. reflexivity.
Qed.

Lemma qpStep_plain_wrap (encoded : jsstring) (c : Z) :
  isPlainChar c = true ->
  qpStep (encoded, 75) c = (encoded ++ lit "=" ++ CRLF ++ [c], 1).
Proof.
  intros Hc. unfold isPlainChar in Hc. decide_chars.
  unfold qpStep.
  replace (((33 <=? c) && (c <=? 126) && negb (c =? 61)) || (c =? 32)) with true
    by (reflect_chars; cbn; try reflexivity; lia).
  change (len [c]) with 1. change (75 + 1 >? 75) with true.
  replace (negb ((c =? 13) || (c =? 10))) with true
    by (reflect_chars; cbn; try reflexivity; lia).
  cbn [andb]. rewrite <- app_assoc. reflexivity.
Qed.

Lemma qpLoop_plain_line (line encoded : jsstring) :
  forallb isPlainChar line = true ->
  (1 <= List.length line <= 75)%nat ->
  fold_left qpStep line (encoded, 75)
  = (encoded ++ lit "=" ++ CRLF ++ line, len line).
Proof.
  intros H Hn. destruct line as [|c r]; [cbn in Hn; lia|].
  cbn [forallb] in H. apply andb_prop in H. destruct H as [Hc Hr].
  cbn [List.length] in Hn.
  cbn [fold_left]. rewrite (qpStep_plain_wrap _ _ Hc).
  rewrite qpLoop_plain by (assumption || (unfold len; lia)).
  rewrite len_cons. rewrite <- !app_assoc. cbn [app].
  apply f_equal2; [reflexivity | lia].
Qed.

Lemma qpLoop_plain_lines (lines : list jsstring) (final encoded : jsstring) :
  Forall (fun line => List.length line = 75%nat) lines ->
  (1 <= List.length final <= 75)%nat ->
  forallb isPlainChar (List.concat lines ++ final) = true ->
  fst (fold_left qpStep (List.concat lines ++ final) (encoded, 75))
  = encoded
    ++ List.concat
         (List.map (fun line => (lit "=" ++ CRLF) ++ line) (lines ++ [final])).
Proof.
  intros Hl Hf. revert encoded.
  induction Hl as [|line lines H75 Hl IH]; intros encoded H.
  - cbn [List.concat app] in H |- *.
    rewrite (qpLoop_plain_line _ _ H Hf). cbn [fst List.map List.concat].
    rewrite app_nil_r, <- !app_assoc. reflexivity.
  - cbn [List.concat] in H |- *. rewrite <- app_assoc in H |- *.
    rewrite forallb_app in H. apply andb_prop in H. destruct H as [H1 H2].
    rewrite fold_left_app, (qpLoop_plain_line _ _ H1) by lia.
    unfold len at 1. rewrite H75. change (Z.of_nat 75) with 75.
    rewrite (IH _ H2). cbn [app List.map List.concat].
    rewrite <- !app_assoc. reflexivity.
Qed.

Lemma join_prefixed (sep : jsstring) (xs : list jsstring) :
  xs <> [] ->
  List.concat (List.map (fun x => sep ++ x) xs) = sep ++ join sep xs.
Proof.
  induction xs as [|x rest IH]; intros H; [contradiction|].
  destruct rest as [|y rest'].
  - cbn. rewrite app_nil_r. reflexivity.
  - cbn [List.map List.concat join] in IH |- *.
    rewrite IH by discriminate. rewrite <- app_assoc. reflexivity.
Qed.

Lemma encodeQuotedPrintable_plain_lines (lines : list jsstring) (final : jsstring) :
  Forall (fun line => List.length line = 75%nat) lines ->
  (1 <= List.length final <= 75)%nat ->
  forallb isPlainChar (List.concat lines ++ final) = true ->
  encodeQuotedPrintable (List.concat lines ++ final)
  = join (lit "=" ++ CRLF) (lines ++ [final]).
Proof.
  intros Hl Hf H. unfold encodeQuotedPrintable.
  rewrite normalizeLineEndings_plain, replaceEquals_plain, utf8Encode_plain
    by assumption.
  destruct Hl as [|line lines H75 Hl].
  - cbn [List.concat app] in H |- *.
    rewrite qpLoop_plain by (assumption || (unfold len; lia)). reflexivity.
  - cbn [List.concat] in H |- *. rewrite <- app_assoc in H |- *.
    rewrite forallb_app in H. apply andb_prop in H. destruct H as [H1 H2].
    rewrite fold_left_app.
    rewrite (qpLoop_plain line) by (assumption || (unfold len; lia)).
    unfold len. rewrite H75. change (0 + Z.of_nat 75) with 75.
    rewrite (qpLoop_plain_lines _ _ _ Hl Hf H2).
    rewrite join_prefixed by (destruct lines; discriminate).
    cbn [app]. destruct lines; reflexivity.
Qed.

Lemma plain_lines (s : jsstring) :
  s <> [] ->
  exists lines final,
    s = List.concat lines ++ final
    /\ Forall (fun line => List.length line = 75%nat) lines
    /\ (1 <= List.length final <= 75)%nat.
Proof.
  assert (G : forall n (s : jsstring), (List.length s <= n)%nat -> s <> [] ->
                exists lines final,
                  s = List.concat lines ++ final
                  /\ Forall (fun line => List.length line = 75%nat) lines
                  /\ (1 <= List.length final <= 75)%nat).
  { clear s. induction n as [|n IH]; intros s Hn Hs.
    - destruct s; [contradiction | cbn in Hn; lia].
    - destruct (Nat.le_gt_cases (List.length s) 75) as [Le|Gt].
      + exists [], s. split; [reflexivity|]. split; [constructor|].
        destruct s; [contradiction | cbn [List.length] in *; lia].
      + assert (L1 : List.length (firstn 75 s) = 75%nat)
          by (rewrite length_firstn; lia).
        assert (L2 : List.length (skipn 75 s) = (List.length s - 75)%nat)
          by apply length_skipn.
        destruct (IH (skipn 75 s)) as (lines & final & E & Hl & Hf);
          [lia | intros Z; rewrite Z in L2; cbn in L2; lia|].
        exists (firstn 75 s :: lines), final.
        split; [|split; [constructor; assumption | exact Hf]].
        cbn [List.concat]. rewrite <- app_assoc, <- E.
        symmetry. apply firstn_skipn. }
  exact (G (List.length s) s (Nat.le_refl _)).
Qed.

(** C9, amended.  On a string whose characters are printable ASCII or space
    and are not [=], the encoder cuts the string into pieces of 75
    characters, the last of 1 to 75, and joins the pieces with the soft line
    break [=] CR LF, and that is all it does: a string of at most 75
    characters comes back unchanged, a longer one comes back with a soft
    line break after every 75 characters that are followed by more. *)
Theorem encodeQuotedPrintable_plain_identity (s : jsstring) :
  forallb isPlainChar s = true ->
  ((List.length s <= 75)%nat -> encodeQuotedPrintable s = s)
  /\ (s <> [] ->
      exists lines final,
        s = List.concat lines ++ final
        /\ Forall (fun line => List.length line = 75%nat) lines
        /\ (1 <= List.length final <= 75)%nat)
  /\ (forall lines final,
        s = List.concat lines ++ final ->
        Forall (fun line => List.length line = 75%nat) lines ->
        (1 <= List.length final <= 75)%nat ->
        encodeQuotedPrintable s = join (lit "=" ++ CRLF) (lines ++ [final]))
  /\ dropSoftBreaks (encodeQuotedPrintable s) = s.
Proof.
  intros H. split; [|split; [|split]].
  - intros Hlen. unfold encodeQuotedPrintable.
    rewrite normalizeLineEndings_plain, replaceEquals_plain, utf8Encode_plain
      by assumption.
    rewrite qpLoop_plain by (assumption || (unfold len; lia)).
    reflexivity.
  - apply plain_lines.
  - intros lines final E Hl Hf. subst s.
    apply encodeQuotedPrintable_plain_lines; assumption.
  - unfold encodeQuotedPrintable.
    rewrite normalizeLineEndings_plain, replaceEquals_plain, utf8Encode_plain
      by assumption.
    rewrite qpLoop_plain_any by assumption. reflexivity.
Qed.

Lemma encodeQuotedPrintable_plain_identity_witness :
  encodeQuotedPrintable (lit "Hello, world!") = lit "Hello, world!"
  /\ encodeQuotedPrintable (repeat 97 160)
     = repeat 97 75 ++ lit "=" ++ CRLF
       ++ repeat 97 75 ++ lit "=" ++ CRLF
       ++ repeat 97 10.
Proof.
  split.
  - destruct (encodeQuotedPrintable_plain_identity (lit "Hello, world!") eq_refl)
      as [H _].
    apply H. vm_compute. lia.
  - destruct (encodeQuotedPrintable_plain_identity (repeat 97 160) eq_refl)
      as (_ & _ & H & _).
    apply (H [repeat 97 75; repeat 97 75] (repeat 97 10)).
    + reflexivity.
    + repeat constructor.
    + cbn [List.length repeat]. lia.
Defined.

(** ** The header encoder *)

Lemma encodeHeaderValue_ascii (value : jsstring) :
  forallb isASCII value = true -> encodeHeaderValue value = value.
Proof. intros H. unfold encodeHeaderValue. rewrite H. reflexivity. Qed.

(** C5.  The header encoder writes the hexadecimal UTF-16 code unit of a
    non-ASCII character, not the bytes of its UTF-8 encoding: two digits
    [=E5] for U+00E5, whose UTF-8 bytes are C3 A5, and four digits [=4E2D]
    for U+4E2D, whose UTF-8 bytes are E4 B8 AD. *)
Theorem encodeHeaderValue_writes_code_units :
  encodeHeaderValue [229] = lit "=?UTF-8?Q?=E5?="
  /\ utf8Encode [229] = [195; 165]
  /\ encodeHeaderValue [20013] = lit "=?UTF-8?Q?=4E2D?="
  /\ utf8Encode [20013] = [228; 184; 173].
Proof. repeat split; vm_compute; reflexivity. Qed.

(** ** The constructor *)

(** C8.  With [port] and [secure] both omitted the client takes port 587
    while its [secure] setting is true. *)
Theorem new_port_when_secure_omitted (W : World) (cfg : SMTPConfiguration) :
  Interfaces.port cfg = None ->
  Interfaces.secure cfg = None ->
  port (config (new W cfg)) = 587 /\ secure (config (new W cfg)) = true.
Proof. intros Hp Hs. unfold new. cbn. rewrite Hp, Hs. split; reflexivity. Qed.

Lemma new_port_when_secure_omitted_witness :
  port (config (new accepting (configuration (lit "secret") false))) = 587
  /\ secure (config (new accepting (configuration (lit "secret") false))) = true.
Proof.
  apply (new_port_when_secure_omitted accepting (configuration (lit "secret") false));
    reflexivity.
Defined.

Lemma new_port_defaults (W : World) (cfg : SMTPConfiguration) :
  Interfaces.port cfg = None ->
  port (config (new W cfg))
  = match Interfaces.secure cfg with Some true => 465 | _ => 587 end.
Proof. intros Hp. unfold new. cbn. rewrite Hp. destruct (Interfaces.secure cfg) as [[|]|]; reflexivity. Qed.

(** ** Running the methods: what each leaves alone *)

Lemma bind_inv {A B} (m : M A) (k : A -> M B) (c : Client) r c' :
  bind m k c = (r, c') ->
  (exists a c1, m c = (Resolved a, c1) /\ k a c1 = (r, c'))
  \/ (exists e, m c = (Rejected e, c') /\ r = Rejected e).
Proof.
  unfold bind. destruct (m c) as [[a|e] c1]; intros H.
  - left. exists a, c1. split; [reflexivity | exact H].
  - right. exists e. inversion H; subst. split; reflexivity.
Qed.

Lemma bind_resolved {A B} (m : M A) (k : A -> M B) (c c1 : Client) (a : A) :
  m c = (Resolved a, c1) -> bind m k c = k a c1.
Proof. intros H. unfold bind. rewrite H. reflexivity. Qed.

Lemma Steady_refl (c : Client) : Steady c c.
Proof.
  repeat split; auto. exists []. symmetry. apply app_nil_r.
Qed.

Lemma Steady_trans (a b c : Client) : Steady a b -> Steady b c -> Steady a c.
Proof.
  intros (H1 & H2 & H3 & [e1 H4]) (G1 & G2 & G3 & [e2 G4]).
  repeat split; try congruence; auto.
  exists (e1 ++ e2). rewrite G4, H4. symmetry. apply app_assoc.
Qed.

Lemma steady_ret {A} (a : A) : steady (ret a).
Proof. intros c r c' H. inversion H; subst. apply Steady_refl. Qed.

Lemma steady_throw {A} (e : jsstring) : steady (@throw A e).
Proof. intros c r c' H. inversion H; subst. apply Steady_refl. Qed.

Lemma steady_bind {A B} (m : M A) (k : A -> M B) :
  steady m -> (forall a, steady (k a)) -> steady (bind m k).
Proof.
  intros Hm Hk c r c' H. apply bind_inv in H.
  destruct H as [(a & c1 & H1 & H2) | (e & H1 & _)].
  - eapply Steady_trans; [eapply Hm | eapply Hk]; eassumption.
  - eapply Hm; eassumption.
Qed.

Lemma Steady_record (e : Event) (c : Client) : Steady c (record e c).
Proof.
  repeat split; auto. exists [e]. reflexivity.
Qed.

Lemma Steady_disconnect (c : Client) : Steady c (set_connected false c).
Proof.
  repeat split; auto.
  - intros _ H. discriminate H.
  - exists []. symmetry. apply app_nil_r.
Qed.

Lemma Steady_set_socket (s : Socket) (c : Client) :
  Steady c (set_socket (Some s) c).
Proof.
  repeat split; auto.
  - intros _ _. discriminate.
  - exists []. symmetry. apply app_nil_r.
Qed.

Lemma Steady_connected (c : Client) :
  socket c <> None -> Steady c (set_connected true c).
Proof.
  intros Hs. repeat split; auto.
  - intros _ _. exact Hs.
  - exists []. symmetry. apply app_nil_r.
Qed.

Lemma Steady_set_lastCommand (v : jsstring) (c : Client) :
  Steady c (set_lastCommand v c).
Proof. repeat split; auto. exists []. symmetry. apply app_nil_r. Qed.

Lemma Steady_set_serverCapabilities (v : list jsstring) (c : Client) :
  Steady c (set_serverCapabilities v c).
Proof. repeat split; auto. exists []. symmetry. apply app_nil_r. Qed.

Lemma Steady_set_secureMode (v : bool) (c : Client) :
  Steady c (set_secureMode v c).
Proof. repeat split; auto. exists []. symmetry. apply app_nil_r. Qed.

Lemma steady_update (f : Client -> Client) :
  (forall c, Steady c (f c)) -> steady (update f).
Proof. intros Hf c r c' H. inversion H; subst. apply Hf. Qed.

Lemma steady_log (message : jsstring) (isError : bool) :
  steady (log message isError).
Proof.
  intros c r c' H. unfold log in H.
  destruct (debug (config c)); inversion H; subst.
  - apply Steady_record.
  - apply Steady_refl.
Qed.

Lemma log_resolves (message : jsstring) (isError : bool) (c : Client) :
  fst (log message isError c) = Resolved tt.
Proof. unfold log. destruct (debug (config c)); reflexivity. Qed.

Ltac steady_step :=
  first
    [ apply steady_bind; [|intros ?]
    | apply steady_ret
    | apply steady_throw
    | apply steady_log
    | apply steady_update; intros ?;
      first [ apply Steady_record | apply Steady_disconnect
            | apply Steady_set_socket | apply Steady_set_lastCommand
            | apply Steady_set_serverCapabilities | apply Steady_set_secureMode ]
    | match goal with
      | |- steady (if ?b then _ else _) => destruct b
      | |- steady (match ?x with _ => _ end) => destruct x
      end ].

Lemma steady_connect (W : World) : steady (connect W).
Proof.
  intros c r c' H. unfold connect in H.
  set (opening := Connect _ _ _) in H.
  set (sock := if secure (config c) then TlsSocket else PlainSocket) in H.
  assert (Hcreated : steady (update (record opening) ;; update (set_socket (Some sock))))
    by (repeat steady_step).
  destruct (connecting W (trace c ++ [opening])) as [m|m|h| |data].
  - revert H. apply (steady_bind _ _ (steady_log _ _)). intros _. apply steady_throw.
  - revert H. apply (steady_bind _ _ Hcreated). intros _. repeat steady_step.
  - destruct (connected c); revert H;
      apply (steady_bind _ _ Hcreated); intros _; repeat steady_step.
  - revert H. apply (steady_bind _ _ Hcreated). intros _. repeat steady_step.
  - apply bind_inv in H.
    destruct H as [([] & c1 & H1 & H2) | (e & H1 & _)];
      [|exact (Hcreated _ _ _ H1)].
    apply (Steady_trans _ c1); [exact (Hcreated _ _ _ H1)|].
    assert (Hsock : socket c1 <> None).
    { unfold bind, update in H1. inversion H1; subst. cbn. discriminate. }
    clear H1 Hcreated.
    apply bind_inv in H2.
    destruct H2 as [([] & c2 & H2 & H3) | (e & H2 & _)];
      [|exact (steady_log _ _ _ _ _ H2)].
    pose proof (steady_log _ _ _ _ _ H2) as S2.
    assert (Hsock2 : socket c2 <> None).
    { unfold log in H2. destruct (debug (config c1)); inversion H2; subst; exact Hsock. }
    apply (Steady_trans _ c2); [exact S2|].
    apply bind_inv in H3.
    destruct H3 as [([] & c3 & H3 & H4) | (e & H3 & _)];
      [|exact (steady_log _ _ _ _ _ H3)].
    pose proof (steady_log _ _ _ _ _ H3) as S3.
    assert (Hsock3 : socket c3 <> None).
    { unfold log in H3. destruct (debug (config c2)); inversion H3; subst; exact Hsock2. }
    apply (Steady_trans _ c3); [exact S3|].
    destruct (startsWith (trim data) (lit "220")).
    + unfold bind, update in H4. inversion H4; subst.
      apply (Steady_trans _ (set_connected true c3));
        [apply Steady_connected; exact Hsock3 | apply Steady_set_secureMode].
    + revert H4. repeat steady_step.
Qed.

Lemma steady_upgradeToTLS (W : World) : steady (upgradeToTLS W).
Proof.
  intros c r c' H. unfold upgradeToTLS in H.
  destruct (socket c); [|revert H; apply steady_ret].
  destruct (secureMode c); [revert H; apply steady_ret|].
  destruct (upgrading W (trace c ++ [StartTls])); revert H; repeat steady_step.
Qed.

Lemma steady_onClose (W : World) : steady (onClose W).
Proof.
  intros c r c' H. unfold onClose in H.
  destruct (peerClose W (trace c)); revert H; repeat steady_step.
Qed.

Lemma steady_sendCommand (W : World) (command : jsstring) (expectedCode : Z) :
  steady (sendCommand W command expectedCode).
Proof.
  intros c r c' H. unfold sendCommand in H.
  destruct (socket c); [|revert H; apply steady_throw].
  destruct (negb (connected c)); [revert H; apply steady_throw|].
  revert H. apply steady_bind; [repeat steady_step|intros _].
  apply steady_bind; [repeat steady_step|intros _].
  apply steady_bind; [repeat steady_step|intros _].
  intros c0 r0 c0' H.
  destruct (onData expectedCode [] (serverData W (trace c0))) as [[responseData matches]|];
    revert H.
  - apply steady_bind; [apply steady_log|intros _].
    apply steady_bind; [apply steady_onClose|intros _].
    repeat steady_step.
  - apply steady_bind; [apply steady_onClose|intros _]. apply steady_throw.
Qed.

Lemma steady_parseCapabilities (W : World) (ehloResponse : jsstring) :
  steady (parseCapabilities W ehloResponse).
Proof. unfold parseCapabilities. repeat steady_step. Qed.

Lemma steady_authenticate (W : World) : steady (authenticate W).
Proof.
  intros c r c' H. unfold authenticate in H.
  destruct (getBestAuthMethod (serverCapabilities c)); revert H.
  - unfold authenticatePlain.
    apply steady_bind; [apply steady_sendCommand | intros _; apply steady_ret].
  - unfold authenticateLogin.
    repeat (apply steady_bind; [apply steady_sendCommand | intros _]).
    apply steady_ret.
  - unfold authenticateCramMD5.
    repeat (apply steady_bind; [apply steady_sendCommand | intros ?]).
    apply steady_ret.
Qed.

Lemma steady_smtpHandshake (W : World) : steady (smtpHandshake W).
Proof.
  intros c r c' H. unfold smtpHandshake in H. revert H.
  apply steady_bind; [apply steady_sendCommand | intros ehlo].
  apply steady_bind; [apply steady_parseCapabilities | intros _].
  apply steady_bind; [|intros _].
  - intros c1 r1 c1' H.
    destruct (negb (secureMode c1) && arrayIncludes (serverCapabilities c1) (lit "STARTTLS"));
      revert H; [|apply steady_ret].
    apply steady_bind; [apply steady_sendCommand | intros _].
    apply steady_bind; [apply steady_upgradeToTLS | intros _].
    apply steady_bind; [apply steady_sendCommand | intros ?].
    apply steady_parseCapabilities.
  - intros c2 r2 c2' H.
    destruct (negb (skipAuthentication (config c2))); revert H;
      [apply steady_authenticate | apply steady_log].
Qed.

Lemma steady_sendRecipients (W : World) (recipients : list jsstring) :
  steady (sendRecipients W recipients).
Proof.
  induction recipients as [|a rest IH]; cbn [sendRecipients]; [apply steady_ret|].
  apply steady_bind; [|intros _; exact IH].
  destruct (validateEmail a); [|apply steady_ret].
  apply steady_bind; [apply steady_sendCommand | intros _; apply steady_ret].
Qed.

Lemma steady_rcptAll (W : World) (field : option StringOrArray) :
  steady (rcptAll W field).
Proof.
  unfold rcptAll. destruct (truthyValue field); [|apply steady_ret].
  destruct field; [apply steady_sendRecipients | apply steady_ret].
Qed.

Lemma steady_sendEnvelope (W : World) (options : EmailOptions) (from to : jsstring) :
  steady (sendEnvelope W options from to).
Proof.
  unfold sendEnvelope.
  repeat first [ apply steady_ret
               | apply steady_bind;
                 [first [apply steady_sendCommand | apply steady_rcptAll] | intros _] ].
Qed.

Lemma steady_sendContent (W : World) (options : EmailOptions) :
  steady (sendContent W options).
Proof.
  intros c r c' H. unfold sendContent in H.
  destruct (len (createMultipartEmail W c options) >? maxEmailSize); revert H;
    [apply steady_ret|].
  apply steady_bind; [apply steady_sendCommand | intros _; apply steady_ret].
Qed.

Lemma steady_prepare (W : World) : steady (prepare W).
Proof.
  unfold prepare.
  apply steady_bind; [|intros _].
  { intros c r c' H. destruct (retryCount c >? 0); revert H; repeat steady_step. }
  intros c r c' H. destruct (negb (connected c)); revert H; [|apply steady_ret].
  apply steady_bind; [apply steady_connect | intros _; apply steady_smtpHandshake].
Qed.

Lemma steady_attempt (W : World) (options : EmailOptions) (from to : jsstring) :
  steady (attempt W options from to).
Proof.
  unfold attempt.
  apply steady_bind; [apply steady_prepare | intros _].
  apply steady_bind; [apply steady_sendEnvelope | intros _; apply steady_sendContent].
Qed.

Lemma Steady_resetConnection (W : World) (c : Client) :
  Steady c (resetConnection W c).
Proof.
  unfold resetConnection.
  set (c1 := if connected c then _ else c).
  assert (S1 : Steady c c1).
  { subst c1. destruct (connected c); [|apply Steady_refl].
    destruct (sendCommand W (lit "RSET") 250 c) as [r c'] eqn:E.
    exact (steady_sendCommand _ _ _ _ _ _ E). }
  apply (Steady_trans _ c1); [exact S1|].
  destruct (socket c1).
  - apply (Steady_trans _ (record SocketEnd c1));
      [apply Steady_record | apply Steady_disconnect].
  - apply Steady_disconnect.
Qed.

Lemma Steady_set_retryCount_config (v : Z) (c : Client) :
  config (set_retryCount v c) = config c
  /\ (consistent c -> consistent (set_retryCount v c))
  /\ trace (set_retryCount v c) = trace c.
Proof. repeat split; auto. Qed.

(** ** Running the methods: what they write *)

Lemma writes_app (a b : list Event) : writes (a ++ b) = writes a ++ writes b.
Proof. unfold writes. apply flat_map_app. Qed.

Lemma writes_record (e : Event) (c : Client) :
  writes (trace (record e c))
  = writes (trace c) ++ match e with Write d => [d] | _ => [] end.
Proof. cbn [record trace]. rewrite writes_app. cbn. rewrite app_nil_r. reflexivity. Qed.

Lemma silent_log (message : jsstring) (isError : bool) (c : Client) :
  silent_on (log message isError) c.
Proof.
  intros r c' H. unfold log in H. destruct (debug (config c)); inversion H; subst.
  - rewrite writes_record. apply app_nil_r.
  - reflexivity.
Qed.

Lemma silent_onClose (W : World) (c : Client) : silent_on (onClose W) c.
Proof.
  intros r c' H. unfold onClose in H.
  destruct (peerClose W (trace c)); [|inversion H; reflexivity].
  apply bind_inv in H. destruct H as [([] & c1 & H1 & H2) | (e & H1 & _)].
  - inversion H2; subst. cbn [set_connected trace].
    destruct (connected c); [exact (silent_log _ _ _ _ _ H1)|].
    inversion H1; reflexivity.
  - destruct (connected c); [exact (silent_log _ _ _ _ _ H1)|]. inversion H1.
Qed.

Lemma sendCommand_writes (W : World) (command : jsstring) (expectedCode : Z)
  (c : Client) r c' :
  sendCommand W command expectedCode c = (r, c') ->
  writes (trace c') = writes (trace c) ++ [commandLine command]
  \/ (c' = c /\ r = Rejected (lit "Not connected to SMTP server")).
Proof.
  intros H. unfold sendCommand in H.
  destruct (socket c); [|right; inversion H; auto].
  destruct (negb (connected c)); [right; inversion H; auto|].
  left.
  apply bind_inv in H. destruct H as [([] & c1 & H1 & H) | (e & H1 & _)].
  2:{ exfalso.
      destruct (_ || _) in H1;
        [pose proof (log_resolves (lit "SMTP Command: [Credentials hidden]") false c) as L
        |pose proof (log_resolves (lit "SMTP Command: " ++ command) false c) as L];
        rewrite H1 in L; discriminate L. }
  assert (W1 : writes (trace c1) = writes (trace c)).
  { destruct (_ || _) in H1; exact (silent_log _ _ _ _ _ H1). }
  unfold bind at 1, update at 1 in H.
  unfold bind at 1, update at 1 in H.
  set (c2 := record (Write (command ++ CRLF)) (set_lastCommand command c1)) in H.
  assert (W2 : writes (trace c2) = writes (trace c) ++ [commandLine command]).
  { subst c2. rewrite writes_record. cbn [set_lastCommand trace]. rewrite W1. reflexivity. }
  rewrite <- W2.
  destruct (onData expectedCode [] (serverData W (trace c2))) as [[responseData matches]|].
  - apply bind_inv in H. destruct H as [([] & c3 & H3 & H) | (e & H3 & _)];
      [|exact (silent_log _ _ _ _ _ H3)].
    rewrite <- (silent_log _ _ _ _ _ H3).
    apply bind_inv in H. destruct H as [([] & c4 & H4 & H) | (e & H4 & _)];
      [|exact (silent_onClose _ _ _ _ H4)].
    rewrite <- (silent_onClose _ _ _ _ H4).
    destruct matches; inversion H; reflexivity.
  - apply bind_inv in H. destruct H as [([] & c3 & H3 & H) | (e & H3 & _)];
      [|exact (silent_onClose _ _ _ _ H3)].
    rewrite <- (silent_onClose _ _ _ _ H3). inversion H; reflexivity.
Qed.

Lemma sendCommand_resolved_writes (W : World) (command : jsstring)
  (expectedCode : Z) (c : Client) x c' :
  sendCommand W command expectedCode c = (Resolved x, c') ->
  writes (trace c') = writes (trace c) ++ [commandLine command].
Proof.
  intros H. destruct (sendCommand_writes _ _ _ _ _ _ H) as [E|[_ E]];
    [exact E | discriminate E].
Qed.

Lemma sendRecipients_writes (W : World) (recipients : list jsstring) (c : Client) c' :
  sendRecipients W recipients c = (Resolved tt, c') ->
  writes (trace c')
  = writes (trace c) ++ List.map rcptLine (filter validateEmail recipients).
Proof.
  revert c. induction recipients as [|a rest IH]; intros c H.
  - inversion H; subst. cbn. symmetry. apply app_nil_r.
  - cbn [sendRecipients] in H.
    apply bind_inv in H. destruct H as [([] & c1 & H1 & H) | (e & _ & E)];
      [|discriminate E].
    rewrite (IH _ H). cbn [filter].
    destruct (validateEmail a).
    + apply bind_inv in H1. destruct H1 as [(x & c2 & H1 & H2) | (e & _ & E)];
        [|discriminate E].
      inversion H2; subst.
      rewrite (sendCommand_resolved_writes _ _ _ _ _ _ H1).
      rewrite <- app_assoc. reflexivity.
    + inversion H1; subst. reflexivity.
Qed.

Lemma rcptAll_writes (W : World) (field : option StringOrArray) (c : Client) c' :
  rcptAll W field c = (Resolved tt, c') ->
  writes (trace c')
  = writes (trace c) ++ List.map rcptLine (validRecipients field).
Proof.
  unfold rcptAll, validRecipients. intros H.
  destruct (truthyValue field).
  - destruct field; [exact (sendRecipients_writes _ _ _ _ H)|].
    inversion H; subst. symmetry. apply app_nil_r.
  - inversion H; subst. symmetry. apply app_nil_r.
Qed.

Lemma sendEnvelope_writes (W : World) (options : EmailOptions)
  (from to : jsstring) (c : Client) c' :
  sendEnvelope W options from to c = (Resolved tt, c') ->
  writes (trace c') = writes (trace c) ++ envelopeLines options from to.
Proof.
  unfold sendEnvelope. intros H.
  apply bind_inv in H. destruct H as [(x1 & c1 & H1 & H) | (e & _ & E)]; [|discriminate E].
  apply bind_inv in H. destruct H as [(x2 & c2 & H2 & H) | (e & _ & E)]; [|discriminate E].
  apply bind_inv in H. destruct H as [([] & c3 & H3 & H) | (e & _ & E)]; [|discriminate E].
  apply bind_inv in H. destruct H as [([] & c4 & H4 & H) | (e & _ & E)]; [|discriminate E].
  apply bind_inv in H. destruct H as [(x5 & c5 & H5 & H) | (e & _ & E)]; [|discriminate E].
  inversion H; subst.
  rewrite (sendCommand_resolved_writes _ _ _ _ _ _ H5).
  rewrite (rcptAll_writes _ _ _ _ H4), (rcptAll_writes _ _ _ _ H3).
  rewrite (sendCommand_resolved_writes _ _ _ _ _ _ H2).
  rewrite (sendCommand_resolved_writes _ _ _ _ _ _ H1).
  unfold envelopeLines, mailFromLine, rcptLine.
  repeat rewrite <- app_assoc. reflexivity.
Qed.

(** An attempt returns from inside its [try] block in two ways only: with
    the size failure, the content unsent, or with success, the content
    sent. *)
Lemma sendContent_resolved (W : World) (options : EmailOptions) (c : Client) r c' :
  sendContent W options c = (Resolved r, c') ->
  (len (createMultipartEmail W c options) > maxEmailSize
   /\ r = failure (lit "Email size exceeds maximum allowed") /\ c' = c)
  \/ (len (createMultipartEmail W c options) <= maxEmailSize
      /\ success r = true
      /\ writes (trace c')
         = writes (trace c)
           ++ [commandLine (createMultipartEmail W c options ++ CRLF ++ lit ".")]).
Proof.
  unfold sendContent. intros H.
  destruct (len (createMultipartEmail W c options) >? maxEmailSize) eqn:E.
  - left. inversion H; subst. decide_chars. repeat split; lia.
  - right. decide_chars.
    apply bind_inv in H. destruct H as [(x & c1 & H1 & H) | (e & _ & F)]; [|discriminate F].
    inversion H; subst. split; [lia|]. split; [reflexivity|].
    exact (sendCommand_resolved_writes _ _ _ _ _ _ H1).
Qed.

Lemma attempt_resolved (W : World) (options : EmailOptions) (from to : jsstring)
  (c : Client) r c' :
  attempt W options from to c = (Resolved r, c') ->
  exists c1 c2,
    prepare W c = (Resolved tt, c1)
    /\ sendEnvelope W options from to c1 = (Resolved tt, c2)
    /\ sendContent W options c2 = (Resolved r, c').
Proof.
  unfold attempt. intros H.
  apply bind_inv in H. destruct H as [([] & ca & Ha & H) | (e & _ & E)]; [|discriminate E].
  apply bind_inv in H. destruct H as [([] & cb & Hb & H) | (e & _ & E)]; [|discriminate E].
  exists ca, cb. auto.
Qed.

(** ** The retry loop *)

Lemma attempt_resolved_cases (W : World) (options : EmailOptions)
  (from to : jsstring) (c : Client) r c' :
  attempt W options from to c = (Resolved r, c') ->
  exists pre c2,
    writes (trace c2) = pre ++ envelopeLines options from to
    /\ ((len (createMultipartEmail W c2 options) > maxEmailSize
         /\ r = failure (lit "Email size exceeds maximum allowed") /\ c' = c2)
        \/ (len (createMultipartEmail W c2 options) <= maxEmailSize
            /\ success r = true
            /\ writes (trace c')
               = writes (trace c2)
                 ++ [commandLine (createMultipartEmail W c2 options ++ CRLF ++ lit ".")])).
Proof.
  intros H. destruct (attempt_resolved _ _ _ _ _ _ _ H) as (c1 & c2 & _ & Hw & Hc).
  exists (writes (trace c1)), c2. split; [exact (sendEnvelope_writes _ _ _ _ _ _ Hw)|].
  exact (sendContent_resolved _ _ _ _ _ Hc).
Qed.

Lemma retryLoop_success (W : World) (options : EmailOptions) (from to : jsstring)
  (fuel : nat) (c : Client) r c' :
  retryLoop W fuel options from to c = (r, c') ->
  success r = true ->
  exists pre c2,
    len (createMultipartEmail W c2 options) <= maxEmailSize
    /\ writes (trace c')
       = pre ++ envelopeLines options from to
         ++ [commandLine (createMultipartEmail W c2 options ++ CRLF ++ lit ".")].
Proof.
  revert c. induction fuel as [|fuel IH]; intros c H Hs.
  - inversion H; subst. discriminate Hs.
  - cbn [retryLoop] in H.
    destruct (retryCount c <=? maxRetries (config c));
      [|inversion H; subst; discriminate Hs].
    destruct (attempt W options from to c) as [[result|errorMessage] c1] eqn:E.
    + inversion H; subst.
      destruct (attempt_resolved_cases _ _ _ _ _ _ _ E) as (pre & c2 & Hw & [(_ & F & _)|(Hl & _ & Hc)]).
      * subst r. discriminate Hs.
      * exists pre, c2. split; [exact Hl|].
        rewrite Hc, Hw, <- app_assoc. reflexivity.
    + destruct (isPermanentError errorMessage || _);
        [inversion H; subst; discriminate Hs|].
      exact (IH _ H Hs).
Qed.

Lemma retryLoop_consistent (W : World) (options : EmailOptions)
  (from to : jsstring) (fuel : nat) (c : Client) :
  consistent c ->
  consistent (snd (retryLoop W fuel options from to c))
  /\ config (snd (retryLoop W fuel options from to c)) = config c.
Proof.
  revert c. induction fuel as [|fuel IH]; intros c Hc; [split; [exact Hc|reflexivity]|].
  cbn [retryLoop].
  destruct (retryCount c <=? maxRetries (config c)); [|split; [exact Hc|reflexivity]].
  destruct (attempt W options from to c) as [[result|errorMessage] c1] eqn:E;
    destruct (steady_attempt _ _ _ _ _ _ _ E) as (S1 & _ & S3 & _).
  - cbn [snd]. split; [exact (S3 Hc) | exact S1].
  - destruct (log (lit "Error sending email: " ++ errorMessage) true c1) as [r2 c2] eqn:L.
    destruct (steady_log _ _ _ _ _ L) as (L1 & _ & L3 & _).
    cbn [snd].
    destruct (isPermanentError errorMessage || _).
    + cbn [snd]. split; [exact (L3 (S3 Hc)) | congruence].
    + destruct (Steady_resetConnection W c2) as (R1 & _ & R3 & _).
      destruct (IH (set_retryCount (retryCount (resetConnection W c2) + 1)
                      (resetConnection W c2))) as [I1 I2].
      { apply Steady_set_retryCount_config. exact (R3 (L3 (S3 Hc))). }
      split; [exact I1|]. rewrite I2. cbn [set_retryCount config]. congruence.
Qed.

(** The loop never runs out of turns: any number of turns from
    [maxRetries + 1 - retryCount] on gives the same run. *)
Lemma retryLoop_enough_fuel (W : World) (options : EmailOptions)
  (from to : jsstring) (fuel1 fuel2 : nat) (c : Client) :
  (Z.to_nat (maxRetries (config c) + 1 - retryCount c) <= fuel1)%nat ->
  (Z.to_nat (maxRetries (config c) + 1 - retryCount c) <= fuel2)%nat ->
  retryLoop W fuel1 options from to c = retryLoop W fuel2 options from to c.
Proof.
  revert fuel2 c. induction fuel1 as [|fuel1 IH]; intros fuel2 c H1 H2.
  - destruct fuel2 as [|fuel2]; [reflexivity|]. cbn [retryLoop].
    destruct (Z.leb_spec (retryCount c) (maxRetries (config c))); [lia|reflexivity].
  - destruct fuel2 as [|fuel2]; cbn [retryLoop];
      destruct (Z.leb_spec (retryCount c) (maxRetries (config c))); try reflexivity; [lia|].
    destruct (attempt W options from to c) as [[result|errorMessage] c1] eqn:E;
      [reflexivity|].
    destruct (steady_attempt _ _ _ _ _ _ _ E) as (S1 & S2 & _ & _).
    destruct (log (lit "Error sending email: " ++ errorMessage) true c1) as [r2 c2] eqn:L.
    destruct (steady_log _ _ _ _ _ L) as (L1 & L2 & _ & _).
    cbn [snd].
    destruct (isPermanentError errorMessage || _); [reflexivity|].
    destruct (Steady_resetConnection W c2) as (R1 & R2 & _ & _).
    apply IH; cbn [set_retryCount config retryCount];
      rewrite R1, R2, L1, L2, S1, S2; lia.
Qed.

(** ** The composed headers *)

Lemma foldCase_colon (d : Z) : foldCase d = 58 -> d = 58.
Proof.
  unfold foldCase, isUpper.
  destruct (Z.leb_spec 65 d); destruct (Z.leb_spec d 90); cbn; lia.
Qed.

Lemma custom_header_not_bcc (name value : jsstring) :
  headerNameRegex name = true ->
  reservedNameRegex name = false ->
  isBccHeader (name ++ lit ": " ++ sanitizeHeader value) = false.
Proof.
  intros Hn Hr. unfold isBccHeader.
  unfold headerNameRegex in Hn. apply andb_prop in Hn. destruct Hn as [_ Hn].
  destruct name as [|a [|b [|c [|d rest]]]].
  - reflexivity.
  - cbn. apply andb_false_r.
  - cbn. rewrite andb_false_r. apply andb_false_r.
  - unfold reservedNameRegex in Hr. cbn [existsb] in Hr.
    repeat (apply orb_false_elim in Hr; destruct Hr as [? Hr]).
    match goal with H : streq _ (lit "bcc") = false |- _ => rename H into Hb end.
    cbn -[Z.eqb foldCase] in Hb |- *.
    change (foldCase 98) with 98. change (foldCase 99) with 99.
    change (foldCase 58) with 58.
    rewrite andb_true_r in Hb.
    rewrite (Z.eqb_sym 98), (Z.eqb_sym 99 (foldCase b)), (Z.eqb_sym 99 (foldCase c)).
    change ((58 =? 58) && true) with true. rewrite andb_true_r. exact Hb.
  - cbn [forallb] in Hn.
    apply andb_prop in Hn. destruct Hn as [_ Hn].
    apply andb_prop in Hn. destruct Hn as [_ Hn].
    apply andb_prop in Hn. destruct Hn as [_ Hn].
    apply andb_prop in Hn. destruct Hn as [Hd _].
    cbn -[Z.eqb foldCase].
    change (foldCase 58) with 58.
    destruct (Z.eqb_spec 58 (foldCase d)) as [E|E].
    + symmetry in E. apply foldCase_colon in E. subst d. discriminate Hd.
    + rewrite andb_false_r. rewrite andb_false_r. apply andb_false_r.
Qed.

Lemma createEmailHeaders_no_bcc (W : World) (c : Client) (options : EmailOptions) :
  Forall (fun line => isBccHeader line = false) (createEmailHeaders W c options).
Proof.
  unfold createEmailHeaders.
  set (fixed := [_; _; _; _; _; _]).
  assert (H0 : Forall (fun line => isBccHeader line = false) fixed).
  { subst fixed. repeat constructor. }
  set (withCc := if truthyValue (cc options) then _ else fixed).
  assert (H1 : Forall (fun line => isBccHeader line = false) withCc).
  { subst withCc. destruct (truthyValue (cc options)); [|exact H0].
    destruct (cc options) as [[s|items]|]; [| |exact H0];
      (apply Forall_app; split; [exact H0 | repeat constructor]). }
  set (withReply := if truthy (replyTo options) then _ else withCc).
  assert (H2 : Forall (fun line => isBccHeader line = false) withReply).
  { subst withReply. destruct (truthy (replyTo options)); [|exact H1].
    apply Forall_app; split; [exact H1 | repeat constructor]. }
  destruct (Interfaces.headers options) as [entries|]; [|exact H2].
  apply Forall_app; split; [exact H2|].
  clear. induction entries as [|[name value] rest IH]; [constructor|].
  cbn [flat_map]. apply Forall_app; split; [|exact IH].
  destruct (headerNameRegex name) eqn:Hn; cbn [negb]; [|constructor].
  destruct (reservedNameRegex name) eqn:Hr; [constructor|].
  constructor; [|constructor]. apply custom_header_not_bcc; assumption.
Qed.

Lemma createEmailHeaders_ignores_bcc (W : World) (c : Client)
  (options : EmailOptions) (v : option StringOrArray) :
  createEmailHeaders W c (withBcc v options) = createEmailHeaders W c options.
Proof. reflexivity. Qed.

Lemma createEmailHeaders_to (W : World) (c : Client) (options : EmailOptions) :
  nth_error (createEmailHeaders W c options) 1
  = Some (lit "To: " ++ sanitizeHeader (valueToString (to options))).
Proof.
  unfold createEmailHeaders.
  set (fixed := [_; _; _; _; _; _]).
  assert (H0 : forall more, nth_error (fixed ++ more) 1
                            = Some (lit "To: " ++ sanitizeHeader (valueToString (to options))))
    by reflexivity.
  assert (H0' := H0 []). rewrite app_nil_r in H0'.
  set (withCc := if truthyValue (cc options) then _ else fixed).
  assert (H1 : exists more, withCc = fixed ++ more).
  { subst withCc. destruct (truthyValue (cc options));
      [|exists []; symmetry; apply app_nil_r].
    destruct (cc options) as [[s|items]|]; eexists; reflexivity. }
  destruct H1 as [m1 H1].
  set (withReply := if truthy (replyTo options) then _ else withCc).
  assert (H2 : exists more, withReply = fixed ++ more).
  { subst withReply. destruct (truthy (replyTo options)).
    - rewrite H1, <- app_assoc. eexists; reflexivity.
    - exists m1; exact H1. }
  destruct H2 as [m2 H2]. rewrite H2.
  destruct (Interfaces.headers options).
  - rewrite <- app_assoc. apply H0.
  - apply H0.
Qed.

(** ** [sendEmail] *)

Lemma sendEmail_success (W : World) (options : EmailOptions) (c : Client) r c' :
  sendEmail W options c = (r, c') ->
  success r = true ->
  validateEmail (orElse (from options) (user (config c))) = true
  /\ validateEmailValue (to options) = true
  /\ exists pre c2,
      len (createMultipartEmail W c2 options) <= maxEmailSize
      /\ writes (trace c')
         = pre
           ++ envelopeLines options (orElse (from options) (user (config c)))
                (valueToString (to options))
           ++ [commandLine (createMultipartEmail W c2 options ++ CRLF ++ lit ".")].
Proof.
  unfold sendEmail. intros H Hs.
  destruct (_ || _ || _ || _) in H; [inversion H; subst; discriminate Hs|].
  destruct (negb (validateEmail _) || negb (validateEmailValue _)) eqn:V in H;
    [inversion H; subst; discriminate Hs|].
  apply orb_false_elim in V. destruct V as [V1 V2].
  apply negb_false_iff in V1. apply negb_false_iff in V2.
  split; [exact V1|]. split; [exact V2|].
  exact (retryLoop_success _ _ _ _ _ _ _ _ H Hs).
Qed.

Lemma sendEmail_consistent (W : World) (options : EmailOptions) (c : Client) :
  consistent c -> consistent (snd (sendEmail W options c)).
Proof.
  intros Hc. unfold sendEmail.
  destruct (_ || _ || _ || _); [exact Hc|].
  destruct (negb (validateEmail _) || negb (validateEmailValue _)); [exact Hc|].
  apply retryLoop_consistent. exact Hc.
Qed.

(** A blind recipient that is also the recipient: the address gets two
    [RCPT TO] commands and stands in the [To] header, since neither the
    envelope nor the composer looks at what the other fields hold. *)
Example bcc_address_twice_and_in_header :
  success (fst (sendEmail accepting sameBccLetter (client0 accepting))) = true
  /\ validateEmail you = true
  /\ countOf (rcptLine you)
       (writes (trace (snd (sendEmail accepting sameBccLetter (client0 accepting)))))
     = 2%nat
  /\ existsb (fun line => includes line you)
       (createEmailHeaders accepting
          (snd (sendEmail accepting sameBccLetter (client0 accepting)))
          sameBccLetter) = true.
Proof. repeat split; vm_compute; reflexivity. Qed.

(** C1.  One element of [bcc] can put two [RCPT TO] commands on the wire.
    The validator accepts [b@example.org@>] CR LF [RCPT TO:<spy@evil.example],
    since it looks at nothing after a second [@]; it is the one valid
    element of the list, and the send succeeds.  [sendEmail] wrote two
    [RCPT TO] commands, one for [to] and one for the element, but the server
    is sent three [RCPT TO] lines: the write for the element is two lines,
    and the second names an address that stands in no field of the
    message. *)
Theorem sendEmail_bcc_element_two_commands :
  validateEmail injectedBcc = true
  /\ validRecipients (bcc injectedLetter) = [injectedBcc]
  /\ success (fst (sendEmail accepting injectedLetter (client0 accepting))) = true
  /\ countPrefixed (lit "RCPT TO:<")
       (writes (trace (snd (sendEmail accepting injectedLetter (client0 accepting)))))
     = 2%nat
  /\ countOf (lit "RCPT TO:<b@example.org@>" ++ CRLF
              ++ lit "RCPT TO:<spy@evil.example>" ++ CRLF)
       (writes (trace (snd (sendEmail accepting injectedLetter (client0 accepting)))))
     = 1%nat
  /\ countPrefixed (lit "RCPT TO:<")
       (wireLines (trace (snd (sendEmail accepting injectedLetter (client0 accepting)))))
     = 3%nat
  /\ countOf (lit "RCPT TO:<spy@evil.example>")
       (wireLines (trace (snd (sendEmail accepting injectedLetter (client0 accepting)))))
     = 1%nat.
Proof. repeat split; vm_compute; reflexivity. Qed.

(** C7.  A [to] that is a list is turned down, whatever its elements:
    [sendEmail] returns a failure and does nothing else, no connection, no
    command; when the other fields are there the failure is
    [Invalid email address format], also for a list of valid addresses. *)
Theorem sendEmail_rejects_to_list (W : World) (options : EmailOptions)
  (c : Client) (items : list jsstring) :
  to options = Arr items ->
  success (fst (sendEmail W options c)) = false
  /\ snd (sendEmail W options c) = c
  /\ (falsy (orElse (from options) (user (config c))) = false ->
      falsy (subject options) = false ->
      falsy (orElse (text options) []) && falsy (orElse (html options) []) = false ->
      fst (sendEmail W options c) = failure (lit "Invalid email address format")).
Proof.
  intros T. unfold sendEmail. rewrite T. cbn [validateEmailValue falsyValue negb].
  rewrite orb_true_r. split; [|split].
  - destruct (_ || _ || _ || _); reflexivity.
  - destruct (_ || _ || _ || _); reflexivity.
  - intros H1 H2 H3. rewrite H1, H2, H3. reflexivity.
Qed.

Lemma sendEmail_rejects_to_list_witness :
  forallb validateEmail [you; lit "other@example.org"] = true
  /\ fst (sendEmail accepting listLetter (client0 accepting))
     = failure (lit "Invalid email address format")
  /\ snd (sendEmail accepting listLetter (client0 accepting)) = client0 accepting.
Proof.
  destruct (sendEmail_rejects_to_list accepting listLetter (client0 accepting)
              [you; lit "other@example.org"] eq_refl) as (_ & B & C).
  split; [vm_compute; reflexivity|].
  split; [apply C; reflexivity | exact B].
Defined.

(** ** The encoded body is never shorter than the text *)

Lemma normalizeLineEndings_length (s : jsstring) :
  (List.length s <= List.length (normalizeLineEndings s))%nat.
Proof.
  assert (H : forall n s, (List.length s <= n)%nat ->
                          (List.length s <= List.length (normalizeLineEndings s))%nat).
  { clear s. induction n as [|n IH]; intros s Hn.
    - destruct s; [cbn; lia | cbn in Hn; lia].
    - destruct s as [|c r]; [cbn; lia|]. cbn [List.length] in Hn.
      cbn [normalizeLineEndings].
      destruct (c =? LF).
      + cbn [List.length]. specialize (IH r). lia.
      + destruct r as [|d r']; [cbn; lia|].
        destruct ((c =? CR) && (d =? LF)).
        * cbn [List.length] in Hn |- *. specialize (IH r'). lia.
        * cbn [List.length] in Hn |- *. specialize (IH (d :: r')).
          cbn [List.length] in IH. lia. }
  apply (H (List.length s)). lia.
Qed.

Lemma replaceEquals_length (s : jsstring) :
  (List.length s <= List.length (replaceEquals s))%nat.
Proof.
  unfold replaceEquals. induction s as [|c r IH]; [cbn; lia|].
  cbn [flat_map]. rewrite length_app.
  destruct (c =? 61).
  - change (List.length (lit "=3D")) with 3%nat. cbn [List.length]. lia.
  - cbn [List.length]. lia.
Qed.

Lemma utf8Encode_length (s : jsstring) :
  (List.length s <= List.length (utf8Encode s))%nat.
Proof.
  assert (H : forall n s, (List.length s <= n)%nat ->
                          (List.length s <= List.length (utf8Encode s))%nat).
  { clear s. induction n as [|n IH]; intros s Hn.
    - destruct s; [cbn; lia | cbn in Hn; lia].
    - destruct s as [|c r]; [cbn; lia|]. cbn [List.length] in Hn.
      cbn [utf8Encode].
      destruct (c <? 128); [cbn [List.length]; specialize (IH r); lia|].
      destruct (c <? 2048); [cbn [List.length]; specialize (IH r); lia|].
      destruct ((55296 <=? c) && (c <=? 56319)).
      + destruct r as [|d r']; [cbn; lia|].
        destruct ((56320 <=? d) && (d <=? 57343)).
        * cbn [List.length] in Hn |- *. specialize (IH r'). lia.
        * cbn [List.length] in Hn |- *. specialize (IH (d :: r')).
          cbn [List.length] in IH. lia.
      + destruct ((56320 <=? c) && (c <=? 57343));
          cbn [List.length]; specialize (IH r); lia. }
  apply (H (List.length s)). lia.
Qed.

Lemma qpStep_grows (encoded : jsstring) (n byte : Z) :
  (List.length encoded + 1 <= List.length (fst (qpStep (encoded, n) byte)))%nat.
Proof.
  unfold qpStep.
  destruct (((33 <=? byte) && (byte <=? 126) && negb (byte =? 61)) || (byte =? 32)).
  - destruct ((n + len [byte] >? 75) && negb ((byte =? 13) || (byte =? 10)));
      cbn [fst]; rewrite ?length_app; cbn [List.length]; lia.
  - destruct ((byte =? 13) || (byte =? 10)).
    + destruct (((if byte =? 10 then 0 else n) + len [byte] >? 75) && negb true);
        cbn [fst]; rewrite ?length_app; cbn [List.length]; lia.
    + set (chunk := 61 :: _).
      destruct ((n + len chunk >? 75) && negb false);
        cbn [fst]; rewrite ?length_app; subst chunk; cbn [List.length]; lia.
Qed.

Lemma qpLoop_grows (bytes encoded : jsstring) (n : Z) :
  (List.length encoded + List.length bytes
   <= List.length (fst (fold_left qpStep bytes (encoded, n))))%nat.
Proof.
  revert encoded n. induction bytes as [|b rest IH]; intros encoded n.
  - cbn. lia.
  - cbn [fold_left List.length].
    pose proof (qpStep_grows encoded n b) as G.
    destruct (qpStep (encoded, n) b) as [encoded' n']. cbn [fst] in G.
    specialize (IH encoded' n'). lia.
Qed.

Lemma encodeQuotedPrintable_length (text : jsstring) :
  len text <= len (encodeQuotedPrintable text).
Proof.
  unfold encodeQuotedPrintable, len.
  pose proof (normalizeLineEndings_length text).
  pose proof (replaceEquals_length (normalizeLineEndings text)).
  pose proof (utf8Encode_length (replaceEquals (normalizeLineEndings text))).
  pose proof (qpLoop_grows (utf8Encode (replaceEquals (normalizeLineEndings text))) [] 0) as G.
  cbn [List.length Nat.add] in G.
  apply Nat2Z.inj_le.
  eapply Nat.le_trans; [eassumption|].
  eapply Nat.le_trans; [eassumption|].
  eapply Nat.le_trans; [eassumption|].
  assumption.
Qed.

Lemma createMultipartEmail_length (W : World) (c : Client) (options : EmailOptions) :
  truthy (html options) = false ->
  len (orElse (text options) []) <= len (createMultipartEmail W c options).
Proof.
  intros Hh. unfold createMultipartEmail. rewrite Hh. cbn [andb].
  rewrite !len_app.
  pose proof (encodeQuotedPrintable_length (orElse (text options) [])).
  pose proof (len_nonneg (join CRLF (createEmailHeaders W c options
     ++ [lit "Content-Type: text/plain; charset=utf-8";
         lit "Content-Transfer-Encoding: quoted-printable"]))).
  pose proof (len_nonneg CRLF). lia.
Qed.

Lemma hugeText_length : len hugeText = 10485761.
Proof. unfold hugeText, len. rewrite repeat_length. apply Z2Nat.id. lia. Qed.

(** ** The size limit *)

Lemma sendEmail_valid (W : World) (options : EmailOptions) (c : Client) :
  falsy (orElse (from options) (user (config c))) = false ->
  falsyValue (to options) = false ->
  falsy (subject options) = false ->
  falsy (orElse (text options) []) && falsy (orElse (html options) []) = false ->
  validateEmail (orElse (from options) (user (config c))) = true ->
  validateEmailValue (to options) = true ->
  sendEmail W options c
  = retryLoop W (Z.to_nat (maxRetries (config c) + 1)) options
      (orElse (from options) (user (config c))) (valueToString (to options))
      (set_retryCount 0 c).
Proof.
  intros H1 H2 H3 H4 H5 H6. unfold sendEmail.
  rewrite H1, H2, H3, H4, H5, H6. reflexivity.
Qed.

(** A value returned from inside the [try] block ends the loop at once. *)
Lemma retryLoop_returns (W : World) (options : EmailOptions) (from to : jsstring)
  (fuel : nat) (c : Client) r c' :
  retryCount c <= maxRetries (config c) ->
  attempt W options from to c = (Resolved r, c') ->
  retryLoop W (S fuel) options from to c = (r, c').
Proof.
  intros Hc Ha. cbn [retryLoop].
  destruct (Z.leb_spec (retryCount c) (maxRetries (config c))); [|lia].
  rewrite Ha. reflexivity.
Qed.

Lemma envelopeLines_end (options : EmailOptions) (from to : jsstring) :
  exists pre, envelopeLines options from to = pre ++ [commandLine (lit "DATA")].
Proof.
  unfold envelopeLines.
  exists ([mailFromLine from; rcptLine to]
          ++ List.map rcptLine (validRecipients (cc options))
          ++ List.map rcptLine (validRecipients (bcc options))).
  repeat rewrite <- app_assoc. reflexivity.
Qed.

Lemma orElse_nonempty (t : jsstring) : 0 < len t -> orElse (Some t) [] = t.
Proof. destruct t; [unfold len; cbn; lia | reflexivity]. Qed.

Lemma oversize_attempt (body : jsstring) :
  maxEmailSize < len body ->
  attempt accepting (plainLetter body) (lit "me@example.com") you
    (set_retryCount 0 (client0 accepting))
  = (Resolved (failure (lit "Email size exceeds maximum allowed")), afterData).
Proof.
  intros Hlen.
  assert (Hsize : len (createMultipartEmail accepting afterData (plainLetter body))
                  > maxEmailSize).
  { pose proof (createMultipartEmail_length accepting afterData (plainLetter body) eq_refl) as L.
    change (text (plainLetter body)) with (Some body) in L.
    rewrite orElse_nonempty in L by (unfold maxEmailSize in Hlen; lia). lia. }
  unfold attempt.
  rewrite (bind_resolved (prepare accepting) _ _ connectedState tt)
    by (vm_compute; reflexivity).
  rewrite (bind_resolved (sendEnvelope accepting _ _ _) _ _ afterData tt)
    by (vm_compute; reflexivity).
  unfold sendContent.
  rewrite (proj2 (Z.gtb_lt _ _)) by lia.
  reflexivity.
Qed.

Lemma oversize_run (body : jsstring) :
  maxEmailSize < len body ->
  sendEmail accepting (plainLetter body) (client0 accepting)
  = (failure (lit "Email size exceeds maximum allowed"), afterData).
Proof.
  intros Hlen.
  pose proof (oversize_attempt body Hlen) as Ha.
  destruct body as [|a body']; [unfold maxEmailSize, len in Hlen; cbn in Hlen; lia|].
  rewrite sendEmail_valid by (vm_compute; reflexivity).
  change (Z.to_nat (maxRetries (config (client0 accepting)) + 1)) with 4%nat.
  apply retryLoop_returns; [vm_compute; discriminate|].
  exact Ha.
Qed.

Lemma hugeText_over_limit : maxEmailSize < len hugeText.
Proof. rewrite hugeText_length. unfold maxEmailSize. lia. Qed.

(** C6, as stated, fails: for a body of 10,485,761 characters the composed
    message is over the limit and [sendEmail] returns the size failure, but
    only after it has written [DATA], which is the last thing it wrote. *)
Lemma oversize_fails_after_DATA :
  len (createMultipartEmail accepting afterData (plainLetter hugeText))
  > maxEmailSize
  /\ sendEmail accepting (plainLetter hugeText) (client0 accepting)
     = (failure (lit "Email size exceeds maximum allowed"), afterData)
  /\ last (writes (trace afterData)) [] = commandLine (lit "DATA").
Proof.
  split; [|split].
  - pose proof (createMultipartEmail_length accepting afterData (plainLetter hugeText) eq_refl) as L.
    change (text (plainLetter hugeText)) with (Some hugeText) in L.
    rewrite orElse_nonempty in L by (rewrite hugeText_length; lia).
    rewrite hugeText_length in L. unfold maxEmailSize. lia.
  - apply oversize_run. exact hugeText_over_limit.
  - vm_compute. reflexivity.
Qed.

(** C6, amended.  When the composed message is over 10,485,760 code units,
    [sendEmail] never succeeds.  In an attempt, the first or a later one,
    whose connection and commands up to [DATA] are accepted, the loop
    returns the failure [Email size exceeds maximum allowed] in the very
    state in which [DATA] was accepted: no content is written, nothing is
    logged, reset or waited for, and no other attempt is made.  [DATA] is
    then the last thing written: the size is checked after [DATA], not
    before. *)
Theorem sendEmail_oversize_after_DATA (W : World) (options : EmailOptions)
  (c : Client) :
  ((forall c0, len (createMultipartEmail W c0 options) > maxEmailSize) ->
   success (fst (sendEmail W options c)) = false)
  /\ (forall from to fuel c0 c1 c2,
        retryCount c0 <= maxRetries (config c0) ->
        prepare W c0 = (Resolved tt, c1) ->
        sendEnvelope W options from to c1 = (Resolved tt, c2) ->
        len (createMultipartEmail W c2 options) > maxEmailSize ->
        retryLoop W (S fuel) options from to c0
        = (failure (lit "Email size exceeds maximum allowed"), c2)
        /\ writes (trace c2) = writes (trace c1) ++ envelopeLines options from to
        /\ exists pre, writes (trace c2) = pre ++ [commandLine (lit "DATA")])
  /\ (forall c1 c2,
        falsy (orElse (from options) (user (config c))) = false ->
        falsyValue (to options) = false ->
        falsy (subject options) = false ->
        falsy (orElse (text options) []) && falsy (orElse (html options) [])
        = false ->
        validateEmail (orElse (from options) (user (config c))) = true ->
        validateEmailValue (to options) = true ->
        0 <= maxRetries (config c) ->
        prepare W (set_retryCount 0 c) = (Resolved tt, c1) ->
        sendEnvelope W options (orElse (from options) (user (config c)))
          (valueToString (to options)) c1
        = (Resolved tt, c2) ->
        len (createMultipartEmail W c2 options) > maxEmailSize ->
        sendEmail W options c
        = (failure (lit "Email size exceeds maximum allowed"), c2)).
Proof.
  assert (Loop : forall from to fuel c0 c1 c2,
             retryCount c0 <= maxRetries (config c0) ->
             prepare W c0 = (Resolved tt, c1) ->
             sendEnvelope W options from to c1 = (Resolved tt, c2) ->
             len (createMultipartEmail W c2 options) > maxEmailSize ->
             retryLoop W (S fuel) options from to c0
             = (failure (lit "Email size exceeds maximum allowed"), c2)).
  { intros from to fuel c0 c1 c2 Hc Hp He Hbig.
    apply retryLoop_returns; [exact Hc|].
    unfold attempt.
    rewrite (bind_resolved (prepare W) _ _ c1 tt Hp).
    rewrite (bind_resolved (sendEnvelope W options from to) _ _ c2 tt He).
    unfold sendContent.
    rewrite (proj2 (Z.gtb_lt _ _)) by lia.
    reflexivity. }
  split; [|split].
  - intros Hbig.
    destruct (sendEmail W options c) as [r c'] eqn:E. cbn [fst].
    destruct (success r) eqn:Hs; [|reflexivity].
    destruct (sendEmail_success _ _ _ _ _ E Hs) as (_ & _ & pre & c2 & Hl & _).
    specialize (Hbig c2). lia.
  - intros from to fuel c0 c1 c2 Hc Hp He Hbig.
    split; [exact (Loop _ _ _ _ _ _ Hc Hp He Hbig)|].
    pose proof (sendEnvelope_writes _ _ _ _ _ _ He) as Hw.
    split; [exact Hw|].
    destruct (envelopeLines_end options from to) as [pre' E].
    exists (writes (trace c1) ++ pre'). rewrite Hw, E. apply app_assoc.
  - intros c1 c2 H1 H2 H3 H4 H5 H6 Hm Hp He Hbig.
    rewrite (sendEmail_valid _ _ _ H1 H2 H3 H4 H5 H6).
    replace (Z.to_nat (maxRetries (config c) + 1))
      with (S (Z.to_nat (maxRetries (config c))))
      by (rewrite <- Z2Nat.inj_succ by exact Hm; reflexivity).
    apply (Loop _ _ _ _ c1 c2); [exact Hm | exact Hp | exact He | exact Hbig].
Qed.

Lemma sendEmail_oversize_after_DATA_witness :
  success (fst (sendEmail accepting (plainLetter hugeText) (client0 accepting)))
  = false
  /\ sendEmail accepting (plainLetter hugeText) (client0 accepting)
     = (failure (lit "Email size exceeds maximum allowed"), afterData)
  /\ exists pre, writes (trace afterData) = pre ++ [commandLine (lit "DATA")].
Proof.
  assert (Hbig : forall body c0,
             maxEmailSize < len body ->
             len (createMultipartEmail accepting c0 (plainLetter body))
             > maxEmailSize).
  { intros body c0 Hlen.
    pose proof (createMultipartEmail_length accepting c0 (plainLetter body) eq_refl) as L.
    change (text (plainLetter body)) with (Some body) in L.
    rewrite orElse_nonempty in L by (unfold maxEmailSize in Hlen; lia). lia. }
  assert (Run : forall body,
             maxEmailSize < len body ->
             success (fst (sendEmail accepting (plainLetter body) (client0 accepting)))
             = false
             /\ sendEmail accepting (plainLetter body) (client0 accepting)
                = (failure (lit "Email size exceeds maximum allowed"), afterData)
             /\ exists pre,
                  writes (trace afterData) = pre ++ [commandLine (lit "DATA")]).
  { intros body Hlen.
    destruct (sendEmail_oversize_after_DATA accepting (plainLetter body)
                (client0 accepting)) as (H1 & H2 & H3).
    destruct body as [|a body'];
      [unfold maxEmailSize, len in Hlen; cbn in Hlen; lia|].
    split; [apply H1; intros c0; apply Hbig; exact Hlen|]. split.
    - apply (H3 connectedState afterData);
        [vm_compute; reflexivity | vm_compute; reflexivity
        |vm_compute; reflexivity | vm_compute; reflexivity
        |vm_compute; reflexivity | vm_compute; reflexivity
        |vm_compute; discriminate
        |vm_compute; reflexivity | vm_compute; reflexivity
        |apply Hbig; exact Hlen].
    - destruct (H2 (lit "me@example.com") you 3%nat
                  (set_retryCount 0 (client0 accepting)) connectedState afterData)
        as (_ & _ & H);
        [vm_compute; discriminate
        |vm_compute; reflexivity | vm_compute; reflexivity
        |apply Hbig; exact Hlen
        |exact H]. }
  exact (Run hugeText hugeText_over_limit).
Defined.

(** ** Which failures are retried *)

Lemma retryLoop_permanent (W : World) (options : EmailOptions)
  (from to : jsstring) (fuel : nat) (c : Client) e c1 :
  retryCount c <= maxRetries (config c) ->
  attempt W options from to c = (Rejected e, c1) ->
  isPermanentError e = true ->
  retryLoop W (S fuel) options from to c
  = (failure e, snd (log (lit "Error sending email: " ++ e) true c1)).
Proof.
  intros Hc Ha Hp. cbn [retryLoop].
  destruct (Z.leb_spec (retryCount c) (maxRetries (config c))); [|lia].
  rewrite Ha, Hp. reflexivity.
Qed.

(** C3.  A server that refuses the sender with [550 Mailbox unavailable] is
    tried again: with the default of three retries the client makes four
    attempts, waiting one second before each of the last three, because the
    text of the error does not contain ["5."]. *)
Theorem sendEmail_retries_550 :
  fst (sendEmail refusing550 (plainLetter (lit "Hello")) (client0 refusing550))
  = failure (lit "SMTP Error: 550 Mailbox unavailable")
  /\ isPermanentError (lit "SMTP Error: 550 Mailbox unavailable") = false
  /\ countPrefixed (lit "MAIL FROM:<")
       (writes (trace (snd (sendEmail refusing550 (plainLetter (lit "Hello"))
                              (client0 refusing550)))))
     = 4%nat
  /\ sleeps (trace (snd (sendEmail refusing550 (plainLetter (lit "Hello"))
                           (client0 refusing550))))
     = [1000; 1000; 1000].
Proof. repeat split; vm_compute; reflexivity. Qed.

(** The same refusal with an enhanced status code is not retried, and a 421
    answer is retried to the end. *)
Example sendEmail_stops_at_550_enhanced :
  fst (sendEmail refusing550Enhanced (plainLetter (lit "Hello"))
         (client0 refusing550Enhanced))
  = failure (lit "SMTP Error: 550 5.1.1 User unknown")
  /\ countPrefixed (lit "MAIL FROM:<")
       (writes (trace (snd (sendEmail refusing550Enhanced (plainLetter (lit "Hello"))
                              (client0 refusing550Enhanced)))))
     = 1%nat
  /\ sleeps (trace (snd (sendEmail refusing550Enhanced (plainLetter (lit "Hello"))
                           (client0 refusing550Enhanced))))
     = [].
Proof. repeat split; vm_compute; reflexivity. Qed.

Example sendEmail_retries_421 :
  fst (sendEmail busy (plainLetter (lit "Hello")) (client0 busy))
  = failure (lit "SMTP Error: 421 Service not available")
  /\ countPrefixed (lit "MAIL FROM:<")
       (writes (trace (snd (sendEmail busy (plainLetter (lit "Hello")) (client0 busy)))))
     = 4%nat
  /\ sleeps (trace (snd (sendEmail busy (plainLetter (lit "Hello")) (client0 busy))))
     = [1000; 1000; 1000].
Proof. repeat split; vm_compute; reflexivity. Qed.

(** ** What the debug log shows *)

(** C4.  In an [AUTH LOGIN] exchange the command that carries the password
    is logged as it is written, in base64: after the user name has been sent,
    [lastCommand] is no longer [AUTH LOGIN].  Two runs that differ in the
    password only have different logs. *)
Theorem authenticateLogin_logs_password :
  toBase64 (lit "secret") = lit "c2VjcmV0"
  /\ firstn 4
       (filter (fun line => startsWith line (lit "SMTP: SMTP Command: "))
          (logs (trace (snd (sendEmail loginOnly (plainLetter (lit "Hello"))
                               (verbose loginOnly (lit "secret")))))))
     = [lit "SMTP: SMTP Command: EHLO client.example";
        lit "SMTP: SMTP Command: [Credentials hidden]";
        lit "SMTP: SMTP Command: [Credentials hidden]";
        lit "SMTP: SMTP Command: c2VjcmV0"]
  /\ logs (trace (snd (sendEmail loginOnly (plainLetter (lit "Hello"))
                         (verbose loginOnly (lit "secret")))))
     <> logs (trace (snd (sendEmail loginOnly (plainLetter (lit "Hello"))
                            (verbose loginOnly (lit "hunter2"))))).
Proof.
  split; [vm_compute; reflexivity|].
  split; [vm_compute; reflexivity|].
  intros H.
  assert (F : arrayIncludes
                (logs (trace (snd (sendEmail loginOnly (plainLetter (lit "Hello"))
                                     (verbose loginOnly (lit "hunter2"))))))
                (lit "SMTP: SMTP Command: c2VjcmV0") = false)
    by (vm_compute; reflexivity).
  rewrite <- H in F. vm_compute in F. discriminate F.
Qed.

(** With [AUTH PLAIN] the one command of the exchange is hidden. *)
Example authenticatePlain_hidden :
  logs (trace (snd (sendEmail accepting (plainLetter (lit "Hello"))
                      (verbose accepting (lit "secret")))))
  = logs (trace (snd (sendEmail accepting (plainLetter (lit "Hello"))
                        (verbose accepting (lit "hunter2"))))).
Proof. vm_compute. reflexivity. Qed.

(** ** [close] *)

Lemma keepsSocket_bind {A B} (m : M A) (k : A -> M B) :
  keepsSocket m -> (forall a, keepsSocket (k a)) -> keepsSocket (bind m k).
Proof.
  intros Hm Hk c r c' H. apply bind_inv in H.
  destruct H as [(a & c1 & H1 & H2) | (e & H1 & _)].
  - rewrite (Hk _ _ _ _ H2). exact (Hm _ _ _ H1).
  - exact (Hm _ _ _ H1).
Qed.

Lemma keepsSocket_ret {A} (a : A) : keepsSocket (ret a).
Proof. intros c r c' H. inversion H; reflexivity. Qed.

Lemma keepsSocket_throw {A} (e : jsstring) : keepsSocket (@throw A e).
Proof. intros c r c' H. inversion H; reflexivity. Qed.

Lemma keepsSocket_log (message : jsstring) (isError : bool) :
  keepsSocket (log message isError).
Proof.
  intros c r c' H. unfold log in H.
  destruct (debug (config c)); inversion H; reflexivity.
Qed.

Lemma keepsSocket_update (f : Client -> Client) :
  (forall c, socket (f c) = socket c) -> keepsSocket (update f).
Proof. intros Hf c r c' H. inversion H; subst. apply Hf. Qed.

Lemma keepsSocket_onClose (W : World) : keepsSocket (onClose W).
Proof.
  intros c r c' H. unfold onClose in H.
  destruct (peerClose W (trace c)); [|inversion H; reflexivity].
  revert H. apply keepsSocket_bind.
  - destruct (connected c); [apply keepsSocket_log | apply keepsSocket_ret].
  - intros _. apply keepsSocket_update. reflexivity.
Qed.

Lemma keepsSocket_sendCommand (W : World) (command : jsstring) (expectedCode : Z) :
  keepsSocket (sendCommand W command expectedCode).
Proof.
  intros c r c' H. unfold sendCommand in H.
  destruct (socket c) eqn:S; [|inversion H; subst; exact S].
  rewrite <- S.
  destruct (negb (connected c)); [inversion H; reflexivity|].
  revert H. apply keepsSocket_bind.
  { destruct (_ || _); apply keepsSocket_log. }
  intros _. apply keepsSocket_bind; [apply keepsSocket_update; reflexivity|].
  intros _. apply keepsSocket_bind; [apply keepsSocket_update; reflexivity|].
  intros _ c0 r0 c0' H.
  destruct (onData expectedCode [] (serverData W (trace c0))) as [[responseData matches]|];
    revert H.
  - apply keepsSocket_bind; [apply keepsSocket_log|intros _].
    apply keepsSocket_bind; [apply keepsSocket_onClose|intros _].
    destruct matches; [apply keepsSocket_ret | apply keepsSocket_throw].
  - apply keepsSocket_bind; [apply keepsSocket_onClose|intros _].
    apply keepsSocket_throw.
Qed.

Lemma sendCommand_connected_writes (W : World) (command : jsstring)
  (expectedCode : Z) (c : Client) r c' :
  socket c <> None ->
  connected c = true ->
  sendCommand W command expectedCode c = (r, c') ->
  writes (trace c') = writes (trace c) ++ [commandLine command].
Proof.
  intros Hs Hc H.
  destruct (sendCommand_writes _ _ _ _ _ _ H) as [E|[E1 E2]]; [exact E|].
  exfalso. subst c' r. unfold sendCommand in H.
  destruct (socket c); [|apply Hs; reflexivity].
  rewrite Hc in H. cbn [negb] in H.
  pose proof (f_equal (fun p => writes (trace (snd p))) H) as F. cbv beta in F.
  cbn [snd] in F.
  match type of H with ?m c = _ => destruct (m c) as [r1 c1] eqn:E end.
  apply bind_inv in E. destruct E as [([] & c2 & H1 & E) | (e & H1 & _)].
  2:{ destruct (_ || _) in H1;
        [pose proof (log_resolves (lit "SMTP Command: [Credentials hidden]") false c) as L
        |pose proof (log_resolves (lit "SMTP Command: " ++ command) false c) as L];
        rewrite H1 in L; discriminate L. }
  assert (W1 : writes (trace c2) = writes (trace c)).
  { destruct (_ || _) in H1; exact (silent_log _ _ _ _ _ H1). }
  unfold bind at 1, update at 1 in E.
  unfold bind at 1, update at 1 in E.
  set (c3 := record (Write (command ++ CRLF)) (set_lastCommand command c2)) in E.
  assert (W3 : writes (trace c3) = writes (trace c) ++ [commandLine command]).
  { subst c3. rewrite writes_record. cbn [set_lastCommand trace]. rewrite W1. reflexivity. }
  assert (W4 : writes (trace c1) = writes (trace c3)).
  { destruct (onData expectedCode [] (serverData W (trace c3))) as [[responseData matches]|].
    - apply bind_inv in E. destruct E as [([] & c4 & H4 & E) | (e & H4 & _)];
        [|exact (silent_log _ _ _ _ _ H4)].
      rewrite <- (silent_log _ _ _ _ _ H4).
      apply bind_inv in E. destruct E as [([] & c5 & H5 & E) | (e & H5 & _)];
        [|exact (silent_onClose _ _ _ _ H5)].
      rewrite <- (silent_onClose _ _ _ _ H5).
      destruct matches; inversion E; reflexivity.
    - apply bind_inv in E. destruct E as [([] & c4 & H4 & E) | (e & H4 & _)];
        [|exact (silent_onClose _ _ _ _ H4)].
      rewrite <- (silent_onClose _ _ _ _ H4). inversion E; reflexivity. }
  cbn [snd] in F. rewrite W4, W3 in F.
  apply (f_equal (@List.length jsstring)) in F. rewrite length_app in F.
  cbn [List.length] in F. lia.
Qed.


Lemma new_consistent (W : World) (cfg : SMTPConfiguration) :
  consistent (new W cfg).
Proof. intros H. discriminate H. Qed.



(** A [QUIT] that is refused, or never answered, changes nothing of this. *)
Example close_after_refused_quit :
  fst (close busy (snd (prepare busy (set_retryCount 0 (verbose busy (lit "secret"))))))
  = Resolved tt
  /\ socket (snd (close busy (snd (prepare busy (set_retryCount 0 (verbose busy (lit "secret")))))))
     = None
  /\ last (logs (trace (snd (close busy (snd (prepare busy (set_retryCount 0 (verbose busy (lit "secret")))))))))
       []
     = lit "SMTP ERROR: Error during QUIT: SMTP Error: 421 Service not available".
Proof. repeat split; vm_compute; reflexivity. Qed.

(** The public methods keep a client consistent, so every state that a
    client reaches from its construction is one. *)
Lemma public_methods_keep_consistent (W : World) (c : Client) :
  consistent c ->
  consistent (snd (connect W c))
  /\ (forall command code, consistent (snd (sendCommand W command code c)))
  /\ (forall options, consistent (snd (sendEmail W options c)))
  /\ consistent (snd (close W c)).
Proof.
  intros Hc. split; [|split; [|split]].
  - destruct (connect W c) as [r c'] eqn:E.
    destruct (steady_connect _ _ _ _ E) as (_ & _ & S & _). exact (S Hc).
  - intros command code. destruct (sendCommand W command code c) as [r c'] eqn:E.
    destruct (steady_sendCommand _ _ _ _ _ _ E) as (_ & _ & S & _). exact (S Hc).
  - intros options. apply sendEmail_consistent. exact Hc.
  - assert (Hq : steady (sendCommand W (lit "QUIT") 221 ;; ret tt))
      by (apply steady_bind; [apply steady_sendCommand | intros _; apply steady_ret]).
    unfold close, tryFinally, tryCatch.
    destruct (connected c).
    + destruct ((sendCommand W (lit "QUIT") 221 ;; ret tt) c) as [[x|e] c1] eqn:Q;
        destruct (Hq _ _ _ Q) as (_ & _ & S1 & _).
      * cbn [snd]. destruct (socket c1); [intros H; discriminate H | exact (S1 Hc)].
      * destruct (log (lit "Error during QUIT: " ++ e) true c1) as [r2 c2] eqn:L.
        destruct (steady_log _ _ _ _ _ L) as (_ & _ & S2 & _).
        cbn [snd]. destruct (socket c2); [intros H; discriminate H | exact (S2 (S1 Hc))].
    + cbn [ret snd]. destruct (socket c); [intros H; discriminate H | exact Hc].
Qed.

(** * More of the code *)

(** ** Strings *)

Lemma streq_eq (a b : jsstring) : streq a b = true <-> a = b.
Proof.
  revert b. induction a as [|x a IH]; intros [|y b]; cbn [streq];
    try (split; [discriminate | discriminate]); [split; reflexivity|].
  rewrite andb_true_iff, Z.eqb_eq, IH. split.
  - intros [-> ->]. reflexivity.
  - intros E. inversion E. split; reflexivity.
Qed.

Lemma forallb_rev {A} (p : A -> bool) (l : list A) :
  forallb p (rev l) = forallb p l.
Proof.
  induction l as [|a l IH]; [reflexivity|].
  cbn [rev forallb]. rewrite forallb_app, IH. cbn [forallb].
  rewrite andb_true_r. apply andb_comm.
Qed.

Lemma forallb_dropWhile (p q : Z -> bool) (s : jsstring) :
  forallb p s = true -> forallb p (dropWhile q s) = true.
Proof.
  induction s as [|c r IH]; intros H; [reflexivity|].
  cbn [dropWhile]. destruct (q c); [|exact H].
  cbn [forallb] in H. apply andb_prop in H. apply IH, H.
Qed.

Lemma forallb_trim (p : Z -> bool) (s : jsstring) :
  forallb p s = true -> forallb p (trim s) = true.
Proof.
  intros H. unfold trim. rewrite forallb_rev.
  apply forallb_dropWhile. rewrite forallb_rev.
  apply forallb_dropWhile. exact H.
Qed.

(** The digits of [toHexUpper] are digits of the upper-case hexadecimal
    alphabet, whatever the number. *)
Lemma hexDigitsUpper_forallb (p : Z -> bool) (fuel : nat) (n : Z) (acc : jsstring) :
  (forall d, 0 <= d < 16 -> p (hexDigitUpper d) = true) ->
  forallb p acc = true ->
  forallb p (hexDigitsUpper fuel n acc) = true.
Proof.
  intros Hp. revert n acc. induction fuel as [|fuel IH]; intros n acc Hacc;
    [exact Hacc|].
  cbn [hexDigitsUpper].
  assert (Hd : forallb p (hexDigitUpper (n mod 16) :: acc) = true).
  { cbn [forallb]. rewrite Hacc, Hp; [reflexivity|].
    apply Z.mod_pos_bound. lia. }
  destruct (n / 16 =? 0); [exact Hd | apply IH; exact Hd].
Qed.

Lemma toHexUpper_forallb (p : Z -> bool) (n : Z) :
  (forall d, 0 <= d < 16 -> p (hexDigitUpper d) = true) ->
  forallb p (toHexUpper n) = true.
Proof. intros Hp. unfold toHexUpper. apply hexDigitsUpper_forallb; auto. Qed.

Lemma escape_forallb (p : Z -> bool) (n : Z) :
  (forall d, 0 <= d < 16 -> p (hexDigitUpper d) = true) ->
  p 61 = true -> p 48 = true ->
  forallb p (61 :: (if len (toHexUpper n) <? 2 then 48 :: toHexUpper n
                    else toHexUpper n)) = true.
Proof.
  intros Hp H61 H48. cbn [forallb]. rewrite H61.
  destruct (len (toHexUpper n) <? 2); cbn [forallb];
    rewrite ?H48, (toHexUpper_forallb p n Hp); reflexivity.
Qed.

Lemma hexDigit_isQpSafe (d : Z) : 0 <= d < 16 -> isQpSafe (hexDigitUpper d) = true.
Proof.
  intros H. unfold hexDigitUpper, isQpSafe, CR, LF.
  destruct (Z.ltb_spec d 10); reflect_chars; cbn; try reflexivity; lia.
Qed.

Lemma hexDigit_notBreak (d : Z) : 0 <= d < 16 -> negb (isBreak (hexDigitUpper d)) = true.
Proof.
  intros H. unfold hexDigitUpper, isBreak, CR, LF, TAB.
  destruct (Z.ltb_spec d 10); reflect_chars; cbn; try reflexivity; lia.
Qed.

(** ** The quoted-printable encoder, on every input *)

Lemma qpStep_safe (encoded : jsstring) (n byte : Z) :
  forallb isQpSafe encoded = true ->
  forallb isQpSafe (fst (qpStep (encoded, n) byte)) = true.
Proof.
  intros He. unfold qpStep.
  assert (Hbreak : forallb isQpSafe (encoded ++ 61 :: CRLF) = true)
    by (rewrite forallb_app, He; reflexivity).
  destruct (((33 <=? byte) && (byte <=? 126) && negb (byte =? 61)) || (byte =? 32)) eqn:E1.
  - assert (Hb : isQpSafe byte = true).
    { unfold isQpSafe, CR, LF. apply orb_prop in E1. destruct E1 as [E1|E1]; decide_chars.
      - reflect_chars; cbn; try reflexivity; lia.
      - subst byte. reflexivity. }
    destruct ((n + len [byte] >? 75) && negb ((byte =? 13) || (byte =? 10)));
      cbn [fst]; rewrite forallb_app; cbn [forallb]; rewrite Hb, ?Hbreak, ?He; reflexivity.
  - destruct ((byte =? 13) || (byte =? 10)) eqn:E2.
    + assert (Hb : isQpSafe byte = true).
      { unfold isQpSafe, CR, LF. rewrite orb_comm in E2. rewrite <- orb_assoc, (orb_comm (byte =? 13)), E2.
        apply orb_true_r. }
      destruct (((if byte =? 10 then 0 else n) + len [byte] >? 75) && negb true);
        cbn [fst]; rewrite forallb_app; cbn [forallb]; rewrite Hb, ?Hbreak, ?He; reflexivity.
    + pose proof (escape_forallb isQpSafe byte hexDigit_isQpSafe eq_refl eq_refl) as Hc.
      set (chunk := 61 :: (if len (toHexUpper byte) <? 2 then _ else _)) in *.
      destruct ((n + len chunk >? 75) && negb false);
        cbn [fst]; rewrite forallb_app, Hc, ?Hbreak, ?He; reflexivity.
Qed.

Lemma qpLoop_safe (bytes encoded : jsstring) (n : Z) :
  forallb isQpSafe encoded = true ->
  forallb isQpSafe (fst (fold_left qpStep bytes (encoded, n))) = true.
Proof.
  revert encoded n. induction bytes as [|b rest IH]; intros encoded n He;
    [exact He|].
  cbn [fold_left]. pose proof (qpStep_safe encoded n b He) as S.
  destruct (qpStep (encoded, n) b) as [encoded' n']. apply IH. exact S.
Qed.

(** X1.  Whatever the text, the encoded body holds only printable ASCII
    characters, spaces, CR and LF. *)
Theorem encodeQuotedPrintable_seven_bit (text : jsstring) :
  forallb isQpSafe (encodeQuotedPrintable text) = true.
Proof. unfold encodeQuotedPrintable. apply qpLoop_safe. reflexivity. Qed.

Lemma normalizeLineEndings_head (s : jsstring) e rest :
  normalizeLineEndings s = e :: rest -> e <> LF.
Proof.
  destruct s as [|c r]; [discriminate|]. cbn [normalizeLineEndings].
  destruct (Z.eqb_spec c LF) as [->|Hc].
  - intros H. inversion H. unfold CR, LF. lia.
  - destruct r as [|d r'].
    + intros H. inversion H; subst. exact Hc.
    + destruct ((c =? CR) && (d =? LF)); intros H; inversion H; subst;
        [unfold CR, LF; lia | exact Hc].
Qed.

Lemma normalizeLineEndings_idempotent (s : jsstring) :
  normalizeLineEndings (normalizeLineEndings s) = normalizeLineEndings s.
Proof.
  assert (H : forall n s, (List.length s <= n)%nat ->
                normalizeLineEndings (normalizeLineEndings s) = normalizeLineEndings s).
  { clear s. induction n as [|n IH]; intros s Hn.
    - destruct s; [reflexivity | cbn in Hn; lia].
    - destruct s as [|c r]; [reflexivity|]. cbn [List.length] in Hn.
      assert (Hcrlf : forall t, normalizeLineEndings t = t ->
                normalizeLineEndings (CR :: LF :: t) = CR :: LF :: t).
      { intros t Ht. cbn [normalizeLineEndings].
        change (CR =? LF) with false. change ((CR =? CR) && (LF =? LF)) with true.
        cbv iota. rewrite Ht. reflexivity. }
      cbn [normalizeLineEndings].
      destruct (Z.eqb_spec c LF) as [->|Hc].
      + apply Hcrlf. apply IH. lia.
      + destruct r as [|d r'].
        * cbn [normalizeLineEndings]. destruct (Z.eqb_spec c LF); [contradiction|reflexivity].
        * destruct ((c =? CR) && (d =? LF)) eqn:E.
          -- apply Hcrlf. apply IH. cbn [List.length] in Hn. lia.
          -- assert (IHd := IH (d :: r') ltac:(lia)).
             destruct (normalizeLineEndings (d :: r')) as [|e rest] eqn:N.
             ++ cbn [normalizeLineEndings].
                destruct (Z.eqb_spec c LF); [contradiction|reflexivity].
             ++ pose proof (normalizeLineEndings_head _ _ _ N) as He.
                cbn [normalizeLineEndings] in IHd |- *.
                destruct (Z.eqb_spec c LF); [contradiction|].
                destruct (Z.eqb_spec e LF); [contradiction|].
                rewrite andb_false_r. cbn [normalizeLineEndings] in IHd.
                f_equal. exact IHd. }
  apply (H (List.length s)). lia.
Qed.

(** X2.  A text and the same text with its line ends already brought to
    CR LF encode alike: a lone LF and a CR LF pair give the same body. *)
Theorem encodeQuotedPrintable_line_ends (text : jsstring) :
  encodeQuotedPrintable (normalizeLineEndings text) = encodeQuotedPrintable text.
Proof.
  unfold encodeQuotedPrintable. rewrite normalizeLineEndings_idempotent. reflexivity.
Qed.

(** ** The header sanitizer *)

Lemma replaceBreaks_noBreaks (inRun : bool) (s : jsstring) :
  noBreaks (replaceBreaks_from inRun s) = true.
Proof.
  unfold noBreaks. revert inRun. induction s as [|c r IH]; intros inRun;
    [reflexivity|].
  cbn [replaceBreaks_from]. destruct (isBreak c) eqn:E.
  - rewrite forallb_app, IH. destruct inRun; reflexivity.
  - cbn [forallb]. rewrite E, IH. reflexivity.
Qed.

Lemma replaceSpaces_forallb (p : Z -> bool) (inRun : bool) (s : jsstring) :
  p 32 = true -> forallb p s = true ->
  forallb p (replaceSpaces_from inRun s) = true.
Proof.
  intros Hsp. revert inRun. induction s as [|c r IH]; intros inRun H;
    [reflexivity|].
  cbn [forallb] in H. apply andb_prop in H. destruct H as [Hc Hr].
  cbn [replaceSpaces_from]. destruct (isWhiteSpace c).
  - destruct inRun; [apply IH; exact Hr|].
    destruct r as [|d r']; [cbn [forallb]; rewrite Hc; reflexivity|].
    destruct (isWhiteSpace d); cbn [forallb];
      rewrite ?Hsp, ?Hc, (IH _ Hr); reflexivity.
  - cbn [forallb]. rewrite Hc, (IH _ Hr). reflexivity.
Qed.

Lemma encodeHeaderValue_forallb (p : Z -> bool) (value : jsstring) :
  (forall d, 0 <= d < 16 -> p (hexDigitUpper d) = true) ->
  forallb p (lit "=?UTF-8?Q?") = true ->
  p 48 = true ->
  forallb p value = true ->
  forallb p (encodeHeaderValue value) = true.
Proof.
  intros Hhex Hlit H48 Hv. unfold encodeHeaderValue.
  destruct (forallb isASCII value); [exact Hv|].
  assert (H61 : p 61 = true).
  { cbn in Hlit. apply andb_prop in Hlit. apply Hlit. }
  assert (Hend : forallb p (lit "?=") = true).
  { cbn in Hlit |- *.
    repeat (apply andb_prop in Hlit; destruct Hlit as [? Hlit]).
    rewrite H61. match goal with H : p 63 = true |- _ => rewrite H end. reflexivity. }
  rewrite !forallb_app, Hlit, Hend, andb_true_r. cbn [andb].
  induction value as [|c r IH]; [reflexivity|].
  cbn [forallb] in Hv. apply andb_prop in Hv. destruct Hv as [Hc Hr].
  cbn [flat_map]. rewrite forallb_app, (IH Hr), andb_true_r.
  destruct (isASCII c); [cbn [forallb]; rewrite Hc; reflexivity|].
  apply escape_forallb; assumption.
Qed.

Lemma sanitizeHeader_noBreaks (value : jsstring) :
  noBreaks (sanitizeHeader value) = true.
Proof.
  unfold sanitizeHeader, noBreaks.
  apply encodeHeaderValue_forallb;
    [exact hexDigit_notBreak | reflexivity | reflexivity |].
  apply forallb_trim. apply replaceSpaces_forallb; [reflexivity|].
  apply replaceBreaks_noBreaks.
Qed.

(** X3.  A sanitized header value holds no CR, no LF and no TAB, whatever
    the value was. *)
Theorem sanitizeHeader_no_line_break (value : jsstring) :
  noBreaks (sanitizeHeader value) = true.
Proof. exact (sanitizeHeader_noBreaks value). Qed.

Lemma replaceBreaks_without_space (inRun : bool) (s : jsstring) :
  forallb (fun c => negb (isWhiteSpace c)) s = true ->
  replaceBreaks_from inRun s = s.
Proof.
  revert inRun. induction s as [|c r IH]; intros inRun H; [reflexivity|].
  cbn [forallb] in H. apply andb_prop in H. destruct H as [Hc Hr].
  cbn [replaceBreaks_from].
  assert (E : isBreak c = false).
  { apply negb_true_iff in Hc. unfold isBreak, CR, LF, TAB.
    unfold isWhiteSpace in Hc.
    repeat (apply orb_false_elim in Hc; destruct Hc as [Hc ?]).
    decide_chars. reflect_chars; cbn; try reflexivity; lia. }
  rewrite E, (IH _ Hr). reflexivity.
Qed.

Lemma replaceSpaces_without_space (s : jsstring) :
  forallb (fun c => negb (isWhiteSpace c)) s = true ->
  replaceSpaces_from false s = s.
Proof.
  induction s as [|c r IH]; intros H; [reflexivity|].
  cbn [forallb] in H. apply andb_prop in H. destruct H as [Hc Hr].
  cbn [replaceSpaces_from]. apply negb_true_iff in Hc.
  rewrite Hc, (IH Hr). reflexivity.
Qed.

Lemma dropWhile_without_space (s : jsstring) :
  forallb (fun c => negb (isWhiteSpace c)) s = true ->
  dropWhile isWhiteSpace s = s.
Proof.
  destruct s as [|c r]; intros H; [reflexivity|].
  cbn [forallb] in H. apply andb_prop in H. destruct H as [Hc _].
  cbn [dropWhile]. apply negb_true_iff in Hc. rewrite Hc. reflexivity.
Qed.

(** X4.  A value of ASCII characters without white space, such as an
    address, passes the sanitizer unchanged. *)
Theorem sanitizeHeader_keeps_plain_value (value : jsstring) :
  forallb isASCII value = true ->
  forallb (fun c => negb (isWhiteSpace c)) value = true ->
  sanitizeHeader value = value.
Proof.
  intros Ha Hw. unfold sanitizeHeader, replaceSpaces, replaceBreaks, trim.
  rewrite (replaceBreaks_without_space _ _ Hw), (replaceSpaces_without_space _ Hw).
  rewrite (dropWhile_without_space _ Hw).
  rewrite dropWhile_without_space by (rewrite forallb_rev; exact Hw).
  rewrite rev_involutive. apply encodeHeaderValue_ascii. exact Ha.
Qed.

Lemma sanitizeHeader_keeps_plain_value_witness :
  sanitizeHeader you = you.
Proof.
  apply (sanitizeHeader_keeps_plain_value you); vm_compute; reflexivity.
Defined.

(** ** Splitting at a character *)

Lemma startsWith_nil (s : jsstring) : startsWith s [] = true.
Proof. destruct s; reflexivity. Qed.

Lemma split_from_no_separator (x : Z) (cur a : jsstring) :
  forallb (fun c => negb (c =? x)) a = true ->
  split_from [x] 0 cur a = [rev cur ++ a].
Proof.
  revert cur. induction a as [|c r IH]; intros cur H.
  - cbn. rewrite app_nil_r. reflexivity.
  - cbn [forallb] in H. apply andb_prop in H. destruct H as [Hc Hr].
    apply negb_true_iff in Hc. cbn [split_from startsWith].
    rewrite Z.eqb_sym, Hc. cbn [andb]. rewrite (IH _ Hr).
    cbn [rev]. rewrite <- app_assoc. reflexivity.
Qed.

Lemma split_from_at_separator (x : Z) (cur a rest : jsstring) :
  forallb (fun c => negb (c =? x)) a = true ->
  split_from [x] 0 cur (a ++ x :: rest)
  = (rev cur ++ a) :: split_from [x] 0 [] rest.
Proof.
  revert cur. induction a as [|c r IH]; intros cur H.
  - cbn [app split_from startsWith]. rewrite Z.eqb_refl, startsWith_nil.
    cbn [andb List.length Nat.sub]. rewrite app_nil_r. reflexivity.
  - cbn [forallb] in H. apply andb_prop in H. destruct H as [Hc Hr].
    apply negb_true_iff in Hc. cbn [app split_from startsWith].
    rewrite Z.eqb_sym, Hc. cbn [andb]. rewrite (IH _ Hr).
    cbn [rev]. rewrite <- app_assoc. reflexivity.
Qed.

Lemma split_no_separator (x : Z) (a : jsstring) :
  forallb (fun c => negb (c =? x)) a = true -> split [x] a = [a].
Proof. intros H. unfold split. rewrite split_from_no_separator by exact H. reflexivity. Qed.

Lemma split_at_separator (x : Z) (a rest : jsstring) :
  forallb (fun c => negb (c =? x)) a = true ->
  split [x] (a ++ x :: rest) = a :: split [x] rest.
Proof. intros H. unfold split. rewrite split_from_at_separator by exact H. reflexivity. Qed.

Lemma split_from_chars (x : Z) (q : Z -> bool) (s cur : jsstring) :
  forallb (forallb q) (split_from [x] 0 cur s) = true ->
  forallb q cur = true /\ forallb (fun c => q c || (c =? x)) s = true.
Proof.
  revert cur. induction s as [|c r IH]; intros cur H.
  - cbn in H. rewrite andb_true_r, forallb_rev in H. split; [exact H|reflexivity].
  - cbn [split_from startsWith] in H.
    destruct (Z.eqb_spec x c) as [->|Hx]; cbn [andb] in H.
    + rewrite startsWith_nil in H.
      cbn [andb List.length Nat.sub forallb] in H. apply andb_prop in H.
      destruct H as [H1 H2]. rewrite forallb_rev in H1.
      destruct (IH _ H2) as [_ Hr]. split; [exact H1|].
      cbn [forallb]. rewrite Z.eqb_refl, orb_true_r, Hr. reflexivity.
    + destruct (IH _ H) as [Hc Hr]. cbn [forallb] in Hc.
      apply andb_prop in Hc. destruct Hc as [Hc Hcur]. split; [exact Hcur|].
      cbn [forallb]. rewrite Hc, Hr. reflexivity.
Qed.

(** ** The address validator *)

Lemma domainPartRegex_chars (part : jsstring) :
  domainPartRegex part = true ->
  forallb (fun c => isAlnum c || (c =? 45)) part = true.
Proof.
  destruct part as [|c r]; [discriminate|]. cbn [domainPartRegex forallb].
  intros H. apply andb_prop in H. destruct H as [Hc H]. rewrite Hc. cbn [orb andb].
  rewrite <- forallb_rev. destruct (rev r) as [|z mid]; [reflexivity|].
  apply andb_prop in H. destruct H as [Hz Hmid].
  cbn [forallb]. rewrite Hz, Hmid. reflexivity.
Qed.

(** X5.  The validator looks at what stands before the second [@] only:
    whatever follows a second [@] does not change its answer. *)
Theorem validateEmail_ignores_after_second_at (localPart domain rest : jsstring) :
  forallb (fun c => negb (c =? 64)) localPart = true ->
  forallb (fun c => negb (c =? 64)) domain = true ->
  validateEmail (localPart ++ lit "@" ++ domain ++ lit "@" ++ rest)
  = validateEmail (localPart ++ lit "@" ++ domain).
Proof.
  intros Hl Hd. unfold validateEmail.
  change (lit "@") with [64]. cbn [app].
  rewrite !(split_at_separator 64 localPart) by exact Hl.
  rewrite (split_at_separator 64 domain) by exact Hd.
  rewrite (split_no_separator 64 domain) by exact Hd.
  reflexivity.
Qed.

Lemma validateEmail_ignores_after_second_at_witness :
  validateEmail (lit "a" ++ lit "@" ++ lit "b.co" ++ lit "@" ++ (CRLF ++ lit "DATA"))
  = validateEmail (lit "a" ++ lit "@" ++ lit "b.co")
  /\ validateEmail (lit "a" ++ lit "@" ++ lit "b.co") = true.
Proof.
  split.
  - apply (validateEmail_ignores_after_second_at (lit "a") (lit "b.co")
             (CRLF ++ lit "DATA")); vm_compute; reflexivity.
  - vm_compute. reflexivity.
Defined.

(** X6.  An address that the validator accepts has at least one [@]; before
    the first stand only characters of the local-part alphabet, and between
    the first and the second either a bracketed literal or only letters,
    digits, hyphens and dots. *)
Theorem validateEmail_accepted_characters (email : jsstring) :
  validateEmail email = true ->
  exists localPart domain rest,
    split (lit "@") email = localPart :: domain :: rest
    /\ forallb isLocalPartChar localPart = true
    /\ (startsWith domain (lit "[") && endsWith domain (lit "]") = true
        \/ forallb (fun c => isAlnum c || (c =? 45) || (c =? 46)) domain = true).
Proof.
  unfold validateEmail.
  destruct (split (lit "@") email) as [|localPart [|domain rest]].
  - cbn. discriminate.
  - cbn [nth nth_error].
    destruct (_ || _); [discriminate|]. destruct (_ || _); [discriminate|].
    destruct (negb _); discriminate.
  - cbn [nth nth_error]. intros H. exists localPart, domain, rest.
    split; [reflexivity|].
    destruct (falsy localPart || _); [discriminate|].
    destruct (_ || _ || _) in H; [discriminate|].
    destruct (localPartRegex localPart) eqn:L; [|discriminate]. cbn [negb] in H.
    unfold localPartRegex in L. apply andb_prop in L. destruct L as [_ L].
    split; [exact L|].
    destruct (falsy domain || _); [discriminate|].
    destruct (startsWith domain (lit "[") && endsWith domain (lit "]")); [left; reflexivity|].
    right.
    destruct (_ || _ || _) in H; [discriminate|].
    destruct (_ || _) in H; [discriminate|].
    assert (P : forallb (forallb (fun c => isAlnum c || (c =? 45)))
                  (split (lit ".") domain) = true).
    { revert H. generalize (split (lit ".") domain). intros parts.
      induction parts as [|p ps IH]; [reflexivity|].
      cbn [forallb]. intros H. apply andb_prop in H. destruct H as [Hp Hps].
      apply andb_prop in Hp. destruct Hp as [_ Hp].
      rewrite (domainPartRegex_chars _ Hp), (IH Hps). reflexivity. }
    destruct (split_from_chars 46 _ _ _ P) as [_ Q].
    exact Q.
Qed.

Lemma validateEmail_accepted_characters_witness :
  exists localPart domain rest,
    split (lit "@") you = localPart :: domain :: rest
    /\ forallb isLocalPartChar localPart = true
    /\ (startsWith domain (lit "[") && endsWith domain (lit "]") = true
        \/ forallb (fun c => isAlnum c || (c =? 45) || (c =? 46)) domain = true).
Proof.
  apply (validateEmail_accepted_characters you). vm_compute. reflexivity.
Defined.

(** ** The header lines *)

Lemma forallb_implies {A} (p q : A -> bool) (l : list A) :
  (forall x, p x = true -> q x = true) ->
  forallb p l = true -> forallb q l = true.
Proof.
  intros Hpq. induction l as [|a l IH]; [reflexivity|].
  cbn [forallb]. intros H. apply andb_prop in H. destruct H as [Ha Hl].
  rewrite (Hpq _ Ha), (IH Hl). reflexivity.
Qed.

Lemma startsWithFold_same_name (name n rest : jsstring) :
  forallb (fun x => negb (foldCase x =? 58)) name = true ->
  forallb (fun x => negb (foldCase x =? 58)) n = true ->
  startsWithFold (name ++ 58 :: rest) (n ++ [58]) = true ->
  List.map foldCase name = List.map foldCase n.
Proof.
  revert n. induction name as [|c name IH]; intros [|a n] Hname Hn H.
  - reflexivity.
  - exfalso. cbn [forallb] in Hn. apply andb_prop in Hn. destruct Hn as [Ha _].
    apply negb_true_iff in Ha. cbn [app startsWithFold] in H.
    change (foldCase 58) with 58 in H. rewrite Ha in H. discriminate H.
  - exfalso. cbn [forallb] in Hname. apply andb_prop in Hname.
    destruct Hname as [Hc _]. apply negb_true_iff in Hc.
    cbn [app startsWithFold] in H. change (foldCase 58) with 58 in H.
    rewrite Z.eqb_sym, Hc in H. discriminate H.
  - cbn [forallb] in Hname, Hn.
    apply andb_prop in Hname. destruct Hname as [_ Hname].
    apply andb_prop in Hn. destruct Hn as [_ Hn].
    cbn [app startsWithFold] in H. apply andb_prop in H. destruct H as [E H].
    apply Z.eqb_eq in E. cbn [List.map]. rewrite E, (IH _ Hname Hn H). reflexivity.
Qed.

Lemma headerName_without_colon (name : jsstring) :
  headerNameRegex name = true ->
  forallb (fun x => negb (foldCase x =? 58)) name = true.
Proof.
  unfold headerNameRegex. intros H. apply andb_prop in H. destruct H as [_ H].
  revert H. apply forallb_implies. intros x Hx.
  destruct (Z.eqb_spec (foldCase x) 58) as [E|E]; [|reflexivity].
  apply foldCase_colon in E. subst x. discriminate Hx.
Qed.

Lemma custom_header_not_reserved (name value n : jsstring) :
  headerNameRegex name = true ->
  reservedNameRegex name = false ->
  In n [lit "from"; lit "to"; lit "cc"; lit "bcc"; lit "subject"; lit "date";
        lit "message-id"] ->
  isNamed n (name ++ lit ": " ++ sanitizeHeader value) = false.
Proof.
  intros Hn Hr Hin. destruct (isNamed n _) eqn:E; [exfalso|reflexivity].
  unfold isNamed in E. change (lit ": " ++ sanitizeHeader value)
    with (58 :: 32 :: sanitizeHeader value) in E. change (lit ":") with [58] in E.
  assert (Same : List.map foldCase name = n).
  { apply (startsWithFold_same_name _ _ _ (headerName_without_colon _ Hn)) in E.
    - rewrite E. clear E. cbn [In] in Hin.
      repeat (destruct Hin as [Hin|Hin]; [subst n; reflexivity|]).
      contradiction.
    - cbn [In] in Hin.
      repeat (destruct Hin as [Hin|Hin]; [subst n; reflexivity|]).
      contradiction. }
  unfold reservedNameRegex in Hr. rewrite Same in Hr.
  assert (T : existsb (streq n)
                [lit "from"; lit "to"; lit "cc"; lit "bcc"; lit "subject";
                 lit "date"; lit "message-id"] = true).
  { apply existsb_exists. exists n. split; [exact Hin | apply streq_eq; reflexivity]. }
  rewrite T in Hr. discriminate Hr.
Qed.


(** The headers as the fixed lines, the [Cc] line, the [Reply-To] line and
    the lines of the entries of [headers] that are let through. *)
Lemma createEmailHeaders_parts (W : World) (c : Client) (options : EmailOptions) :
  exists custom,
    createEmailHeaders W c options
    = [lit "From: " ++ sanitizeHeader (orElse (from options) (user (config c)));
       lit "To: " ++ sanitizeHeader (valueToString (to options));
       lit "Subject: " ++ sanitizeHeader (subject options);
       lit "Message-ID: " ++ generateMessageId W c;
       lit "Date: " ++ utcDate W (trace c);
       lit "MIME-Version: 1.0"]
      ++ (if truthyValue (cc options)
          then [lit "Cc: "
                ++ sanitizeHeader
                     match cc options with
                     | Some (Arr items) => join (lit ", ") items
                     | Some (Str s) => s
                     | None => []
                     end]
          else [])
      ++ (if truthy (replyTo options)
          then [lit "Reply-To: " ++ sanitizeHeader (orElse (replyTo options) [])]
          else [])
      ++ custom
    /\ Forall (fun line =>
                 noBreaks line = true
                 /\ forall n,
                      In n [lit "from"; lit "to"; lit "cc"; lit "bcc";
                            lit "subject"; lit "date"; lit "message-id"] ->
                      isNamed n line = false) custom.
Proof.
  unfold createEmailHeaders.
  set (fixed := [_; _; _; _; _; _]).
  exists (match Interfaces.headers options with
          | Some entries =>
              flat_map (fun entry : jsstring * jsstring =>
                          let '(name, value) := entry in
                          if negb (headerNameRegex name) then []
                          else if reservedNameRegex name then []
                          else [name ++ lit ": " ++ sanitizeHeader value]) entries
          | None => []
          end).
  split.
  - destruct (truthyValue (cc options)) eqn:Tc.
    + destruct (cc options) as [[s|items]|]; [| |discriminate Tc];
        destruct (truthy (replyTo options));
        destruct (Interfaces.headers options);
        repeat rewrite <- app_assoc; rewrite ?app_nil_r; reflexivity.
    + destruct (truthy (replyTo options));
        destruct (Interfaces.headers options);
        repeat rewrite <- app_assoc; rewrite ?app_nil_r; reflexivity.
  - destruct (Interfaces.headers options) as [entries|]; [|constructor].
    induction entries as [|[name value] rest IH]; [constructor|].
    cbn [flat_map]. apply Forall_app. split; [|exact IH].
    destruct (headerNameRegex name) eqn:Hn; cbn [negb]; [|constructor].
    destruct (reservedNameRegex name) eqn:Hr; [constructor|].
    constructor; [|constructor]. split.
    + unfold noBreaks. rewrite !forallb_app.
      change (forallb (fun c => negb (isBreak c)) (sanitizeHeader value))
        with (noBreaks (sanitizeHeader value)).
      rewrite sanitizeHeader_noBreaks, andb_true_r.
      unfold headerNameRegex in Hn. apply andb_prop in Hn. destruct Hn as [_ Hn].
      revert Hn. apply forallb_implies. intros x Hx.
      unfold isBreak, CR, LF, TAB. unfold isAlnum, isLower, isUpper, isDigit in Hx.
      destruct (Z.eqb_spec x 13) as [->|]; [discriminate Hx|].
      destruct (Z.eqb_spec x 10) as [->|]; [discriminate Hx|].
      destruct (Z.eqb_spec x 9) as [->|]; [discriminate Hx|]. reflexivity.
    + intros n Hin. apply custom_header_not_reserved; assumption.
Qed.


(** X8.  Apart from the [Message-ID] and the [Date] line, which come from
    the configuration and the platform, no header line holds a CR, an LF or
    a TAB: no value of the message can start a line of its own. *)
Theorem createEmailHeaders_no_injection (W : World) (c : Client)
  (options : EmailOptions) :
  Forall (fun line =>
            line = lit "Message-ID: " ++ generateMessageId W c
            \/ line = lit "Date: " ++ utcDate W (trace c)
            \/ noBreaks line = true)
    (createEmailHeaders W c options).
Proof.
  destruct (createEmailHeaders_parts W c options) as (custom & E & Hc).
  rewrite E.
  assert (S : forall (p : string) v,
             forallb (fun c => negb (isBreak c)) (lit p) = true ->
             noBreaks (lit p ++ sanitizeHeader v) = true).
  { intros p v Hp. unfold noBreaks. rewrite forallb_app, Hp.
    exact (sanitizeHeader_noBreaks v). }
  apply Forall_app; split;
    [|apply Forall_app; split; [|apply Forall_app; split]].
  - repeat (constructor; [first [ left; reflexivity
                                | right; left; reflexivity
                                | right; right; first [apply S; reflexivity | reflexivity] ]|]).
    constructor.
  - destruct (truthyValue (cc options)); [|constructor].
    constructor; [|constructor]. right; right; apply S; reflexivity.
  - destruct (truthy (replyTo options)); [|constructor].
    constructor; [|constructor]. right; right; apply S; reflexivity.
  - revert Hc. apply Forall_impl. intros line [H _]. right; right; exact H.
Qed.

(** ** What the methods keep *)

Section Keeping.

Context {B : Type} (f : Client -> B).
Hypothesis f_record : forall e c, f (record e c) = f c.
Hypothesis f_connected : forall v c, f (set_connected v c) = f c.
Hypothesis f_lastCommand : forall v c, f (set_lastCommand v c) = f c.

Lemma keeps_ret {A} (a : A) : keeps f (ret a).
Proof. intros c r c' H. inversion H; reflexivity. Qed.

Lemma keeps_throw {A} (e : jsstring) : keeps f (@throw A e).
Proof. intros c r c' H. inversion H; reflexivity. Qed.

Lemma keeps_bind {A C} (m : M A) (k : A -> M C) :
  keeps f m -> (forall a, keeps f (k a)) -> keeps f (bind m k).
Proof.
  intros Hm Hk c r c' H. apply bind_inv in H.
  destruct H as [(a & c1 & H1 & H2) | (e & H1 & _)].
  - rewrite (Hk _ _ _ _ H2). exact (Hm _ _ _ H1).
  - exact (Hm _ _ _ H1).
Qed.

Lemma keeps_update (g : Client -> Client) :
  (forall c, f (g c) = f c) -> keeps f (update g).
Proof. intros Hg c r c' H. inversion H; subst. apply Hg. Qed.

Lemma keeps_log (message : jsstring) (isError : bool) :
  keeps f (log message isError).
Proof.
  intros c r c' H. unfold log in H.
  destruct (debug (config c)); inversion H; subst; [apply f_record | reflexivity].
Qed.

Lemma keeps_onClose (W : World) : keeps f (onClose W).
Proof.
  intros c r c' H. unfold onClose in H.
  destruct (peerClose W (trace c)); [|inversion H; reflexivity].
  revert H. apply keeps_bind.
  - destruct (connected c); [apply keeps_log | apply keeps_ret].
  - intros _. apply keeps_update. apply f_connected.
Qed.

Lemma keeps_sendCommand (W : World) (command : jsstring) (expectedCode : Z) :
  keeps f (sendCommand W command expectedCode).
Proof.
  intros c r c' H. unfold sendCommand in H.
  destruct (socket c); [|inversion H; reflexivity].
  destruct (negb (connected c)); [inversion H; reflexivity|].
  revert H. apply keeps_bind.
  { destruct (_ || _); apply keeps_log. }
  intros _. apply keeps_bind; [apply keeps_update; apply f_lastCommand|].
  intros _. apply keeps_bind; [apply keeps_update; apply f_record|].
  intros _ c0 r0 c0' H.
  destruct (onData expectedCode [] (serverData W (trace c0))) as [[responseData matches]|];
    revert H.
  - apply keeps_bind; [apply keeps_log|intros _].
    apply keeps_bind; [apply keeps_onClose|intros _].
    destruct matches; [apply keeps_ret | apply keeps_throw].
  - apply keeps_bind; [apply keeps_onClose|intros _]. apply keeps_throw.
Qed.

End Keeping.

Lemma sendCommand_sets_lastCommand (W : World) (command : jsstring)
  (expectedCode : Z) (c : Client) r c' :
  socket c <> None -> connected c = true ->
  sendCommand W command expectedCode c = (r, c') ->
  lastCommand c' = command.
Proof.
  intros Hs Hc H. unfold sendCommand in H.
  destruct (socket c); [|contradiction]. rewrite Hc in H. cbn [negb] in H.
  apply bind_inv in H. destruct H as [([] & c1 & H1 & H) | (e & H1 & _)].
  2:{ destruct (_ || _) in H1;
        [pose proof (log_resolves (lit "SMTP Command: [Credentials hidden]") false c) as L
        |pose proof (log_resolves (lit "SMTP Command: " ++ command) false c) as L];
        rewrite H1 in L; discriminate L. }
  unfold bind at 1, update at 1 in H.
  unfold bind at 1, update at 1 in H.
  set (c2 := record (Write (command ++ CRLF)) (set_lastCommand command c1)) in H.
  transitivity (lastCommand c2); [|reflexivity].
  assert (K : forall A (m : M A), keeps lastCommand m ->
                forall r0 c0, m c2 = (r0, c0) -> lastCommand c0 = lastCommand c2).
  { intros A m Hm r0 c0 E. exact (Hm _ _ _ E). }
  destruct (onData expectedCode [] (serverData W (trace c2))) as [[responseData matches]|];
    revert H; apply K.
  - apply keeps_bind; [apply keeps_log; reflexivity|intros _].
    apply keeps_bind; [apply keeps_onClose; reflexivity|intros _].
    destruct matches; [apply keeps_ret | apply keeps_throw].
  - apply keeps_bind; [apply keeps_onClose; reflexivity|intros _]. apply keeps_throw.
Qed.

(** X9.  [sendCommand] on a client without a socket or not connected is
    rejected with [Not connected to SMTP server] and changes nothing; on a
    connected client it writes the command and CR LF, once, whatever the
    server answers or fails to answer, and the command becomes
    [lastCommand]. *)
Theorem sendCommand_writes_once (W : World) (command : jsstring)
  (expectedCode : Z) (c : Client) r c' :
  sendCommand W command expectedCode c = (r, c') ->
  ((socket c = None \/ connected c = false)
   /\ r = Rejected (lit "Not connected to SMTP server") /\ c' = c)
  \/ (socket c <> None /\ connected c = true
      /\ writes (trace c') = writes (trace c) ++ [commandLine command]
      /\ lastCommand c' = command).
Proof.
  intros H.
  destruct (socket c) as [s|] eqn:S.
  - destruct (connected c) eqn:Cn.
    + right. assert (Hs : socket c <> None) by (rewrite S; discriminate).
      split; [discriminate|]. split; [reflexivity|]. split.
      * exact (sendCommand_connected_writes _ _ _ _ _ _ Hs Cn H).
      * exact (sendCommand_sets_lastCommand _ _ _ _ _ _ Hs Cn H).
    + left. unfold sendCommand in H. rewrite S, Cn in H. inversion H. auto.
  - left. unfold sendCommand in H. rewrite S in H. inversion H. auto.
Qed.

Lemma sendCommand_writes_once_witness :
  ((socket connectedState = None \/ connected connectedState = false)
   /\ fst (sendCommand accepting (lit "NOOP") 250 connectedState)
      = Rejected (lit "Not connected to SMTP server")
   /\ snd (sendCommand accepting (lit "NOOP") 250 connectedState) = connectedState)
  \/ (socket connectedState <> None /\ connected connectedState = true
      /\ writes (trace (snd (sendCommand accepting (lit "NOOP") 250 connectedState)))
         = writes (trace connectedState) ++ [commandLine (lit "NOOP")]
      /\ lastCommand (snd (sendCommand accepting (lit "NOOP") 250 connectedState))
         = lit "NOOP").
Proof.
  apply (sendCommand_writes_once accepting (lit "NOOP") 250 connectedState).
  apply surjective_pairing.
Defined.

(** ** Connecting and securing *)

Lemma log_fields (message : jsstring) (isError : bool) (c : Client) r c' :
  log message isError c = (r, c') ->
  r = Resolved tt /\ socket c' = socket c /\ connected c' = connected c
  /\ secureMode c' = secureMode c /\ config c' = config c.
Proof.
  unfold log. destruct (debug (config c)); intros H; inversion H; subst; auto.
Qed.

(** X10.  [connect] on a client that is not connected resolves only when
    the first data from the server, trimmed, starts with [220]; the client
    is then connected, has a socket, and its secure mode is that of the
    configuration.  When [connect] is rejected the client stays not
    connected. *)
Theorem connect_needs_greeting_220 (W : World) (c : Client) r c' :
  connected c = false ->
  connect W c = (r, c') ->
  match r with
  | Resolved _ =>
      connected c' = true /\ socket c' <> None
      /\ secureMode c' = secure (config c)
      /\ exists data,
           connecting W (trace c ++ [Connect (secure (config c)) (host (config c))
                                       (port (config c))])
           = Greeting data
           /\ startsWith (trim data) (lit "220") = true
  | Rejected _ => connected c' = false
  end.
Proof.
  intros Hc H. unfold connect in H.
  destruct (connecting W _) as [m|m|h| |data] eqn:O.
  - apply bind_inv in H. destruct H as [([] & c1 & H1 & H) | (e & H1 & ->)].
    + inversion H; subst. destruct (log_fields _ _ _ _ _ H1) as (_ & _ & E & _).
      congruence.
    + destruct (log_fields _ _ _ _ _ H1) as (E & _). discriminate E.
  - unfold bind at 1 2, update in H.
    apply bind_inv in H. destruct H as [([] & c1 & H1 & H) | (e & H1 & ->)].
    + inversion H; subst. destruct (log_fields _ _ _ _ _ H1) as (_ & _ & E & _).
      rewrite E. exact Hc.
    + destruct (log_fields _ _ _ _ _ H1) as (E & _). discriminate E.
  - rewrite Hc in H. unfold bind, update, throw in H. inversion H; subst. reflexivity.
  - unfold bind, update, throw in H. inversion H; subst. exact Hc.
  - unfold bind at 1 2, update at 1 2 in H.
    apply bind_inv in H. destruct H as [([] & c1 & H1 & H) | (e & H1 & ->)];
      [|destruct (log_fields _ _ _ _ _ H1) as (E & _); discriminate E].
    destruct (log_fields _ _ _ _ _ H1) as (_ & S1 & C1 & _ & G1).
    apply bind_inv in H. destruct H as [([] & c2 & H2 & H) | (e & H2 & ->)];
      [|destruct (log_fields _ _ _ _ _ H2) as (E & _); discriminate E].
    destruct (log_fields _ _ _ _ _ H2) as (_ & S2 & C2 & _ & G2).
    destruct (startsWith (trim data) (lit "220")) eqn:G.
    + unfold bind, update in H. inversion H; subst.
      cbn [set_secureMode set_connected connected socket secureMode].
      split; [reflexivity|]. split; [rewrite S2, S1; discriminate|].
      split; [reflexivity|]. exists data. split; [reflexivity | exact G].
    + unfold bind, update, throw in H. inversion H; subst.
      cbn [record connected]. rewrite C2, C1. exact Hc.
Qed.

Lemma connect_needs_greeting_220_witness :
  connected (snd (connect accepting (client0 accepting))) = true
  /\ socket (snd (connect accepting (client0 accepting))) <> None
  /\ secureMode (snd (connect accepting (client0 accepting)))
     = secure (config (client0 accepting))
  /\ exists data,
       connecting accepting
         (trace (client0 accepting)
          ++ [Connect (secure (config (client0 accepting)))
                (host (config (client0 accepting)))
                (port (config (client0 accepting)))])
       = Greeting data
       /\ startsWith (trim data) (lit "220") = true.
Proof.
  exact (connect_needs_greeting_220 accepting (client0 accepting)
           (Resolved tt) (snd (connect accepting (client0 accepting)))
           eq_refl eq_refl).
Defined.

Lemma startsWith_app (s p tail : jsstring) :
  startsWith s p = true -> startsWith (s ++ tail) p = true.
Proof.
  revert p. induction s as [|a s IH]; intros [|b p] H; try reflexivity.
  - apply startsWith_nil.
  - discriminate H.
  - cbn [app startsWith] in H |- *. apply andb_prop in H. destruct H as [E H].
    rewrite E, (IH _ H). reflexivity.
Qed.

Lemma includes_app (s p tail : jsstring) :
  includes s p = true -> includes (s ++ tail) p = true.
Proof.
  induction s as [|a s IH]; intros H.
  - cbn [includes] in H. rewrite orb_false_r in H.
    destruct p; [|discriminate H]. destruct tail; reflexivity.
  - cbn [app includes] in H |- *. apply orb_prop in H. destruct H as [H|H].
    + change (a :: s ++ tail) with ((a :: s) ++ tail).
      rewrite (startsWith_app _ _ _ H). reflexivity.
    + rewrite (IH H). apply orb_true_r.
Qed.

(** X11.  Secure mode is switched on by an authorized [secureConnect] on
    the upgraded socket and by nothing else: after [upgradeToTLS] on a
    client that is not in secure mode, secure mode is on exactly when the
    client had a socket and the upgrade ended in an authorized
    [secureConnect]; [upgradeToTLS] has then resolved and the socket is the
    TLS socket.  Whenever [upgradeToTLS] is rejected, secure mode is still
    off and the socket field is what it was. *)
Theorem upgradeToTLS_needs_authorized (W : World) (c : Client) r c' :
  secureMode c = false ->
  upgradeToTLS W c = (r, c') ->
  (secureMode c' = true <->
   socket c <> None
   /\ exists reason,
        upgrading W (trace c ++ [StartTls]) = SecureConnect true reason)
  /\ (secureMode c' = true -> r = Resolved tt /\ socket c' = Some TlsSocket)
  /\ (forall e, r = Rejected e -> secureMode c' = false /\ socket c' = socket c).
Proof.
  intros Hm H. unfold upgradeToTLS in H. rewrite Hm in H.
  destruct (socket c) as [s|] eqn:S.
  2:{ inversion H; subst. split; [|split].
      - split; [intros E; congruence | intros [N _]; contradiction].
      - intros E. congruence.
      - intros e E. discriminate E. }
  destruct (upgrading W (trace c ++ [StartTls])) as [m|authorized reason'] eqn:U.
  - unfold bind at 1, update at 1 in H.
    apply bind_inv in H. destruct H as [([] & c1 & H1 & H) | (e & H1 & ->)];
      [|destruct (log_fields _ _ _ _ _ H1) as (E & _); discriminate E].
    destruct (log_fields _ _ _ _ _ H1) as (_ & S1 & _ & M1 & _).
    inversion H; subst. cbn [record secureMode socket] in M1, S1.
    split; [|split].
    + split; [intros E; congruence | intros (_ & reason & E); discriminate E].
    + intros E. congruence.
    + intros e _. split; [congruence | rewrite S1; exact S].
  - unfold bind at 1, update at 1 in H.
    apply bind_inv in H. destruct H as [([] & c1 & H1 & H) | (e & H1 & ->)];
      [|destruct (log_fields _ _ _ _ _ H1) as (E & _); discriminate E].
    destruct (log_fields _ _ _ _ _ H1) as (_ & S1 & _ & M1 & _).
    cbn [record secureMode socket] in M1, S1.
    destruct authorized.
    + unfold bind, update in H. inversion H; subst.
      cbn [set_secureMode set_socket secureMode socket].
      split; [|split].
      * split; [intros _; split; [discriminate | exists reason'; reflexivity]
               |intros _; reflexivity].
      * intros _. split; reflexivity.
      * intros e E. discriminate E.
    + inversion H; subst. split; [|split].
      * split; [intros E; congruence | intros (_ & reason & E); discriminate E].
      * intros E. congruence.
      * intros e _. split; [congruence | rewrite S1; exact S].
Qed.

Lemma upgradeToTLS_needs_authorized_witness :
  secureMode (snd (upgradeToTLS accepting (set_secureMode false connectedState)))
  = true
  /\ fst (upgradeToTLS accepting (set_secureMode false connectedState))
     = Resolved tt
  /\ socket (snd (upgradeToTLS accepting (set_secureMode false connectedState)))
     = Some TlsSocket.
Proof.
  destruct (upgradeToTLS_needs_authorized accepting
              (set_secureMode false connectedState)
              (fst (upgradeToTLS accepting (set_secureMode false connectedState)))
              (snd (upgradeToTLS accepting (set_secureMode false connectedState)))
              eq_refl (surjective_pairing _)) as (A & B & _).
  assert (On : secureMode
                 (snd (upgradeToTLS accepting (set_secureMode false connectedState)))
               = true).
  { apply A. split; [vm_compute; discriminate|].
    exists []. vm_compute. reflexivity. }
  split; [exact On | exact (B On)].
Defined.

(** ** Choosing the authentication *)

(** X12.  [getBestAuthMethod] answers [CRAM-MD5] or [LOGIN] only when the
    first capability that starts with [AUTH ] lists that method, and
    [LOGIN] only when that line does not list [CRAM-MD5]; in every other
    case it answers [PLAIN]. *)
Theorem getBestAuthMethod_advertised (capabilities : list jsstring) :
  match getBestAuthMethod capabilities with
  | CRAM_MD5 =>
      exists line,
        find (fun cap => startsWith cap (lit "AUTH ")) capabilities = Some line
        /\ In line capabilities
        /\ arrayIncludes (tl (split (lit " ") line)) (lit "CRAM-MD5") = true
  | LOGIN =>
      exists line,
        find (fun cap => startsWith cap (lit "AUTH ")) capabilities = Some line
        /\ In line capabilities
        /\ arrayIncludes (tl (split (lit " ") line)) (lit "LOGIN") = true
        /\ arrayIncludes (tl (split (lit " ") line)) (lit "CRAM-MD5") = false
  | PLAIN => True
  end.
Proof.
  unfold getBestAuthMethod.
  destruct (arrayIncludes _ (lit "AUTH")); [|exact I].
  destruct (find _ capabilities) as [line|] eqn:F; [|exact I].
  pose proof (find_some _ _ F) as [Hin _].
  destruct (arrayIncludes (tl (split (lit " ") line)) (lit "CRAM-MD5")) eqn:C.
  - exists line. auto.
  - destruct (arrayIncludes (tl (split (lit " ") line)) (lit "LOGIN")) eqn:L.
    + exists line. auto.
    + exact I.
Qed.

(** ** The message id and the MX look-up *)

(** X13.  The domain of the message id is what stands between the first and
    the second [@] of the configured user; when the user has no [@], or
    nothing after it, the domain is [localhost]. *)
Theorem generateMessageId_domain (W : World) (c : Client)
  (localPart domain : jsstring) :
  forallb (fun x => negb (x =? 64)) localPart = true ->
  forallb (fun x => negb (x =? 64)) domain = true ->
  (user (config c) = localPart ->
   generateMessageId W c
   = lit "<" ++ randomHex W 16 (trace c) ++ lit "@localhost>")
  /\ (forall rest,
        user (config c) = localPart ++ lit "@" ++ domain
        \/ user (config c) = localPart ++ lit "@" ++ domain ++ lit "@" ++ rest ->
        generateMessageId W c
        = lit "<" ++ randomHex W 16 (trace c) ++ lit "@"
          ++ (if falsy domain then lit "localhost" else domain) ++ lit ">").
Proof.
  intros Hl Hd. unfold generateMessageId. change (lit "@") with [64]. split.
  - intros ->. rewrite (split_no_separator 64 _ Hl). reflexivity.
  - intros rest [-> | ->]; cbn [app];
      rewrite (split_at_separator 64 _ _ Hl).
    + rewrite (split_no_separator 64 _ Hd). cbn [nth_error orElse].
      destruct (falsy domain); reflexivity.
    + rewrite (split_at_separator 64 _ _ Hd). cbn [nth_error orElse].
      destruct (falsy domain); reflexivity.
Qed.

Lemma generateMessageId_domain_witness :
  generateMessageId accepting (client0 accepting)
  = lit "<" ++ randomHex accepting 16 (trace (client0 accepting)) ++ lit "@"
    ++ lit "example.com" ++ lit ">".
Proof.
  destruct (generateMessageId_domain accepting (client0 accepting)
              (lit "me") (lit "example.com") eq_refl eq_refl) as [_ H].
  apply (H []). left. reflexivity.
Defined.

(** X14.  [verifyEmailDomain] asks the resolver for what stands between the
    first and the second [@] and for nothing else: an address without [@]
    or with nothing after it, and a list of addresses, are answered with
    false whatever the resolver says. *)
Theorem verifyEmailDomain_looks_up_domain (dns : Lookup.Resolver)
  (localPart domain : jsstring) :
  forallb (fun x => negb (x =? 64)) localPart = true ->
  forallb (fun x => negb (x =? 64)) domain = true ->
  Lookup.verifyEmailDomain dns (Str localPart) = false
  /\ Lookup.verifyEmailDomain dns (Str (localPart ++ lit "@")) = false
  /\ (forall items, Lookup.verifyEmailDomain dns (Arr items) = false)
  /\ (falsy domain = false ->
      forall rest,
        Lookup.verifyEmailDomain dns (Str (localPart ++ lit "@" ++ domain))
        = Lookup.verifyMXRecords dns domain
        /\ Lookup.verifyEmailDomain dns
             (Str (localPart ++ lit "@" ++ domain ++ lit "@" ++ rest))
           = Lookup.verifyMXRecords dns domain).
Proof.
  intros Hl Hd. unfold Lookup.verifyEmailDomain. change (lit "@") with [64].
  split; [rewrite (split_no_separator 64 _ Hl); reflexivity|].
  split; [rewrite (split_at_separator 64 _ _ Hl); reflexivity|].
  split; [reflexivity|].
  intros Hf rest. cbn [app]. rewrite !(split_at_separator 64 localPart) by exact Hl.
  rewrite (split_no_separator 64 _ Hd), (split_at_separator 64 _ _ Hd).
  cbn [nth_error]. rewrite Hf. split; reflexivity.
Qed.

Lemma verifyEmailDomain_looks_up_domain_witness :
  Lookup.verifyEmailDomain (fun _ => Lookup.MxRecords 1)
    (Str (lit "me" ++ lit "@" ++ lit "example.com"))
  = Lookup.verifyMXRecords (fun _ => Lookup.MxRecords 1) (lit "example.com").
Proof.
  destruct (verifyEmailDomain_looks_up_domain (fun _ => Lookup.MxRecords 1)
              (lit "me") (lit "example.com") eq_refl eq_refl) as (_ & _ & _ & H).
  apply (H eq_refl []).
Defined.

(** ** What the methods add to the trace *)

Lemma emitted_refl (P : Event -> bool) (c : Client) : emitted P c c.
Proof. exists []. split; [symmetry; apply app_nil_r | reflexivity]. Qed.

Lemma emitted_trans (P : Event -> bool) (a b c : Client) :
  emitted P a b -> emitted P b c -> emitted P a c.
Proof.
  intros (e1 & T1 & P1) (e2 & T2 & P2). exists (e1 ++ e2).
  rewrite T2, T1, app_assoc, forallb_app, P1, P2. split; reflexivity.
Qed.

Lemma emitted_record (P : Event -> bool) (e : Event) (c : Client) :
  P e = true -> emitted P c (record e c).
Proof. intros H. exists [e]. cbn. rewrite H. split; reflexivity. Qed.

Lemma emitted_same (P : Event -> bool) (c c' : Client) :
  trace c' = trace c -> emitted P c c'.
Proof. intros H. exists []. rewrite H, app_nil_r. split; reflexivity. Qed.

Section Emitting.

Variables (Inv : Client -> Prop) (P : Event -> bool).
Hypothesis Inv_config : forall c c', config c' = config c -> Inv c -> Inv c'.
Hypothesis P_log :
  forall c line, Inv c -> debug (config c) = true -> P (ConsoleLog line) = true.
Hypothesis P_socket :
  forall e, isSleep e = false -> isConsoleLog e = false -> P e = true.

Lemma emits_ret {A} (a : A) : emitsUnder Inv P (ret a).
Proof.
  intros c r c' Hi H. inversion H; subst. split; [exact Hi | apply emitted_refl].
Qed.

Lemma emits_throw {A} (e : jsstring) : emitsUnder Inv P (@throw A e).
Proof.
  intros c r c' Hi H. inversion H; subst. split; [exact Hi | apply emitted_refl].
Qed.

Lemma emits_bind {A C} (m : M A) (k : A -> M C) :
  emitsUnder Inv P m -> (forall a, emitsUnder Inv P (k a)) ->
  emitsUnder Inv P (bind m k).
Proof.
  intros Hm Hk c r c' Hi H. apply bind_inv in H.
  destruct H as [(a & c1 & H1 & H2) | (e & H1 & _)].
  - destruct (Hm _ _ _ Hi H1) as (Hi1 & E1).
    destruct (Hk _ _ _ _ Hi1 H2) as (Hi2 & E2).
    split; [exact Hi2 | exact (emitted_trans _ _ _ _ E1 E2)].
  - exact (Hm _ _ _ Hi H1).
Qed.

Lemma emits_set (f : Client -> Client) :
  (forall c, config (f c) = config c) -> (forall c, trace (f c) = trace c) ->
  emitsUnder Inv P (update f).
Proof.
  intros Hc Ht c r c' Hi H. inversion H; subst.
  split; [exact (Inv_config _ _ (Hc c) Hi) | apply emitted_same; apply Ht].
Qed.

Lemma emits_record (e : Event) :
  P e = true -> emitsUnder Inv P (update (record e)).
Proof.
  intros He c r c' Hi H. inversion H; subst.
  split; [exact (Inv_config c (record e c) eq_refl Hi) | apply emitted_record; exact He].
Qed.

Lemma emits_log (message : jsstring) (isError : bool) :
  emitsUnder Inv P (log message isError).
Proof.
  intros c r c' Hi H. unfold log in H.
  destruct (debug (config c)) eqn:D; inversion H; subst.
  - split; [exact (Inv_config c (record _ c) eq_refl Hi)|].
    apply emitted_record. exact (P_log c _ Hi D).
  - split; [exact Hi | apply emitted_refl].
Qed.

Ltac emits_step :=
  first
    [ apply emits_bind; [|intros ?]
    | apply emits_ret
    | apply emits_throw
    | apply emits_log
    | apply emits_record; apply P_socket; reflexivity
    | apply emits_set; intros ?; reflexivity
    | match goal with
      | |- emitsUnder _ _ (if ?b then _ else _) => destruct b
      | |- emitsUnder _ _ (match ?x with _ => _ end) => destruct x
      end ].

Lemma emits_connect (W : World) : emitsUnder Inv P (connect W).
Proof.
  intros c r c' Hi H. unfold connect in H. cbv zeta in H.
  destruct (connecting W _) as [m|m|h| |data].
  - revert Hi H. repeat emits_step.
  - revert Hi H. repeat emits_step.
  - destruct (connected c); revert Hi H; repeat emits_step.
  - revert Hi H. repeat emits_step.
  - revert Hi H. repeat emits_step.
Qed.

Lemma emits_upgradeToTLS (W : World) : emitsUnder Inv P (upgradeToTLS W).
Proof.
  intros c r c' Hi H. unfold upgradeToTLS in H.
  destruct (socket c); [|revert Hi H; apply emits_ret].
  destruct (secureMode c); [revert Hi H; apply emits_ret|].
  destruct (upgrading W _); revert Hi H; repeat emits_step.
Qed.

Lemma emits_onClose (W : World) : emitsUnder Inv P (onClose W).
Proof.
  intros c r c' Hi H. unfold onClose in H.
  destruct (peerClose W (trace c)); revert Hi H; repeat emits_step.
Qed.

Lemma emits_sendCommand (W : World) (command : jsstring) (expectedCode : Z) :
  emitsUnder Inv P (sendCommand W command expectedCode).
Proof.
  intros c r c' Hi H. unfold sendCommand in H.
  destruct (socket c); [|revert Hi H; apply emits_throw].
  destruct (negb (connected c)); [revert Hi H; apply emits_throw|].
  revert Hi H. apply emits_bind; [repeat emits_step|intros _].
  apply emits_bind; [repeat emits_step|intros _].
  apply emits_bind; [repeat emits_step|intros _].
  intros c0 r0 c0' Hi H.
  destruct (onData expectedCode [] (serverData W (trace c0))) as [[responseData matches]|];
    revert Hi H.
  - apply emits_bind; [apply emits_log|intros _].
    apply emits_bind; [apply emits_onClose|intros _].
    repeat emits_step.
  - apply emits_bind; [apply emits_onClose|intros _]. apply emits_throw.
Qed.

Lemma emits_parseCapabilities (W : World) (ehloResponse : jsstring) :
  emitsUnder Inv P (parseCapabilities W ehloResponse).
Proof. unfold parseCapabilities. cbv zeta. repeat emits_step. Qed.

Lemma emits_authenticate (W : World) : emitsUnder Inv P (authenticate W).
Proof.
  intros c r c' Hi H. unfold authenticate in H.
  destruct (getBestAuthMethod (serverCapabilities c)); revert Hi H.
  - unfold authenticatePlain.
    apply emits_bind; [apply emits_sendCommand | intros _; apply emits_ret].
  - unfold authenticateLogin.
    repeat (apply emits_bind; [apply emits_sendCommand | intros _]).
    apply emits_ret.
  - unfold authenticateCramMD5.
    repeat (apply emits_bind; [apply emits_sendCommand | intros ?]).
    apply emits_ret.
Qed.

Lemma emits_smtpHandshake (W : World) : emitsUnder Inv P (smtpHandshake W).
Proof.
  intros c r c' Hi H. unfold smtpHandshake in H. revert Hi H.
  apply emits_bind; [apply emits_sendCommand | intros ehlo].
  apply emits_bind; [apply emits_parseCapabilities | intros _].
  apply emits_bind; [|intros _].
  - intros c1 r1 c1' Hi H.
    destruct (negb (secureMode c1) && arrayIncludes (serverCapabilities c1) (lit "STARTTLS"));
      revert Hi H; [|apply emits_ret].
    apply emits_bind; [apply emits_sendCommand | intros _].
    apply emits_bind; [apply emits_upgradeToTLS | intros _].
    apply emits_bind; [apply emits_sendCommand | intros ?].
    apply emits_parseCapabilities.
  - intros c2 r2 c2' Hi H.
    destruct (negb (skipAuthentication (config c2))); revert Hi H;
      [apply emits_authenticate | apply emits_log].
Qed.

Lemma emits_sendRecipients (W : World) (recipients : list jsstring) :
  emitsUnder Inv P (sendRecipients W recipients).
Proof.
  induction recipients as [|a rest IH]; cbn [sendRecipients]; [apply emits_ret|].
  apply emits_bind; [|intros _; exact IH].
  destruct (validateEmail a); [|apply emits_ret].
  apply emits_bind; [apply emits_sendCommand | intros _; apply emits_ret].
Qed.

Lemma emits_rcptAll (W : World) (field : option StringOrArray) :
  emitsUnder Inv P (rcptAll W field).
Proof.
  unfold rcptAll. destruct (truthyValue field); [|apply emits_ret].
  destruct field; [apply emits_sendRecipients | apply emits_ret].
Qed.

Lemma emits_sendEnvelope (W : World) (options : EmailOptions) (from to : jsstring) :
  emitsUnder Inv P (sendEnvelope W options from to).
Proof.
  unfold sendEnvelope.
  repeat first [ apply emits_ret
               | apply emits_bind;
                 [first [apply emits_sendCommand | apply emits_rcptAll] | intros _] ].
Qed.

Lemma emits_sendContent (W : World) (options : EmailOptions) :
  emitsUnder Inv P (sendContent W options).
Proof.
  intros c r c' Hi H. unfold sendContent in H.
  destruct (len (createMultipartEmail W c options) >? maxEmailSize);
    revert Hi H; [apply emits_ret|].
  apply emits_bind; [apply emits_sendCommand | intros _; apply emits_ret].
Qed.

Lemma emits_connecting (W : World) (c : Client) r c' :
  Inv c ->
  (if negb (connected c) then (connect W ;; smtpHandshake W)%client c else ret tt c)
  = (r, c') ->
  Inv c' /\ emitted P c c'.
Proof.
  destruct (negb (connected c)); [|apply emits_ret].
  apply emits_bind; [apply emits_connect | intros _; apply emits_smtpHandshake].
Qed.

Lemma emits_resetConnection (W : World) (c : Client) :
  Inv c -> Inv (resetConnection W c) /\ emitted P c (resetConnection W c).
Proof.
  intros Hi. unfold resetConnection.
  set (c1 := if connected c then _ else c).
  assert (S1 : Inv c1 /\ emitted P c c1).
  { subst c1. destruct (connected c); [|split; [exact Hi | apply emitted_refl]].
    exact (emits_sendCommand W (lit "RSET") 250 c _ _ Hi (surjective_pairing _)). }
  destruct S1 as [Hi1 E1]. destruct (socket c1).
  - split; [apply (Inv_config c1); [reflexivity | exact Hi1]|].
    apply (emitted_trans _ _ _ _ E1).
    apply (emitted_trans _ _ (record SocketEnd c1));
      [apply emitted_record; apply P_socket; reflexivity
      |apply emitted_same; reflexivity].
  - split; [apply (Inv_config c1); [reflexivity | exact Hi1]|].
    apply (emitted_trans _ _ _ _ E1). apply emitted_same. reflexivity.
Qed.

Lemma emits_close (W : World) : emitsUnder Inv P (close W).
Proof.
  intros c r c' Hi H. unfold close, tryFinally, tryCatch in H.
  assert (Hb : forall r0 c0,
             (if connected c
              then (sendCommand W (lit "QUIT") 221 ;; ret tt)%client c
              else ret tt c) = (r0, c0) ->
             Inv c0 /\ emitted P c c0).
  { intros r0 c0 H0. destruct (connected c); revert Hi H0; [|apply emits_ret].
    apply emits_bind; [apply emits_sendCommand | intros _; apply emits_ret]. }
  destruct (if connected c
            then (sendCommand W (lit "QUIT") 221 ;; ret tt)%client c
            else ret tt c) as [[x|e] c1] eqn:B.
  - destruct (Hb _ _ eq_refl) as [Hi1 E1]. inversion H; subst.
    destruct (socket c1).
    + split; [apply (Inv_config c1); [reflexivity | exact Hi1]|].
      apply (emitted_trans _ _ _ _ E1).
      apply (emitted_trans _ _ (record SocketDestroy c1));
        [apply emitted_record; apply P_socket; reflexivity
        |apply emitted_same; reflexivity].
    + split; [exact Hi1 | exact E1].
  - destruct (Hb _ _ eq_refl) as [Hi1 E1].
    destruct (log (lit "Error during QUIT: " ++ e) true c1) as [r2 c2] eqn:L.
    destruct (emits_log _ _ _ _ _ Hi1 L) as [Hi2 E2]. inversion H; subst.
    destruct (socket c2).
    + split; [apply (Inv_config c2); [reflexivity | exact Hi2]|].
      apply (emitted_trans _ _ _ _ E1). apply (emitted_trans _ _ _ _ E2).
      apply (emitted_trans _ _ (record SocketDestroy c2));
        [apply emitted_record; apply P_socket; reflexivity
        |apply emitted_same; reflexivity].
    + split; [exact Hi2 | exact (emitted_trans _ _ _ _ E1 E2)].
Qed.

Hypothesis P_sleep : forall ms, P (Sleep ms) = true.

Lemma emits_prepare (W : World) : emitsUnder Inv P (prepare W).
Proof.
  unfold prepare. apply emits_bind; [|intros _].
  - intros c r c' Hi H.
    destruct (retryCount c >? 0); revert Hi H; [|apply emits_ret].
    apply emits_bind; [apply emits_log | intros _].
    apply emits_record. apply P_sleep.
  - intros c r c'. apply emits_connecting.
Qed.

Lemma emits_attempt (W : World) (options : EmailOptions) (from to : jsstring) :
  emitsUnder Inv P (attempt W options from to).
Proof.
  unfold attempt.
  apply emits_bind; [apply emits_prepare | intros _].
  apply emits_bind; [apply emits_sendEnvelope | intros _; apply emits_sendContent].
Qed.

Lemma emits_retryLoop (W : World) (options : EmailOptions) (from to : jsstring)
  (fuel : nat) (c : Client) :
  Inv c ->
  Inv (snd (retryLoop W fuel options from to c))
  /\ emitted P c (snd (retryLoop W fuel options from to c)).
Proof.
  revert c. induction fuel as [|fuel IH]; intros c Hi;
    [split; [exact Hi | apply emitted_refl]|].
  cbn [retryLoop].
  destruct (retryCount c <=? maxRetries (config c));
    [|split; [exact Hi | apply emitted_refl]].
  destruct (attempt W options from to c) as [[result|errorMessage] c1] eqn:E;
    destruct (emits_attempt _ _ _ _ _ _ _ Hi E) as [Hi1 E1];
    [split; [exact Hi1 | exact E1]|].
  destruct (emits_log (lit "Error sending email: " ++ errorMessage) true c1 _ _ Hi1
              (surjective_pairing _)) as [Hi2 E2].
  set (c2 := snd (log (lit "Error sending email: " ++ errorMessage) true c1)) in *.
  destruct (isPermanentError errorMessage || (retryCount c2 >=? maxRetries (config c2))).
  - split; [exact Hi2 | exact (emitted_trans _ _ _ _ E1 E2)].
  - destruct (emits_resetConnection W c2 Hi2) as [Hi3 E3].
    set (c3 := resetConnection W c2) in *.
    destruct (IH (set_retryCount (retryCount c3 + 1) c3)
                (Inv_config c3 (set_retryCount (retryCount c3 + 1) c3) eq_refl Hi3)) as [Hi4 E4].
    split; [exact Hi4|].
    apply (emitted_trans _ _ _ _ E1). apply (emitted_trans _ _ _ _ E2).
    apply (emitted_trans _ _ _ _ E3).
    apply (emitted_trans _ _ (set_retryCount (retryCount c3 + 1) c3));
      [apply emitted_same; reflexivity | exact E4].
Qed.

Lemma emits_sendEmail (W : World) (options : EmailOptions) (c : Client) :
  Inv c ->
  Inv (snd (sendEmail W options c)) /\ emitted P c (snd (sendEmail W options c)).
Proof.
  intros Hi. unfold sendEmail.
  destruct (_ || _ || _ || _); [split; [exact Hi | apply emitted_refl]|].
  destruct (negb (validateEmail _) || negb (validateEmailValue _));
    [split; [exact Hi | apply emitted_refl]|].
  destruct (emits_retryLoop W options (orElse (from options) (user (config c)))
              (valueToString (to options))
              (Z.to_nat (maxRetries (config c) + 1)) (set_retryCount 0 c)
              (Inv_config c (set_retryCount 0 c) eq_refl Hi)) as [Hi1 E1].
  split; [exact Hi1|].
  apply (emitted_trans _ _ (set_retryCount 0 c));
    [apply emitted_same; reflexivity | exact E1].
Qed.

End Emitting.

(** ** The console *)

Lemma logs_app (a b : list Event) : logs (a ++ b) = logs a ++ logs b.
Proof. unfold logs. apply flat_map_app. Qed.

Lemma logs_without (events : list Event) :
  forallb notConsoleLog events = true -> logs events = [].
Proof.
  induction events as [|e events IH]; intros H; [reflexivity|].
  cbn [forallb] in H. apply andb_prop in H. destruct H as [He H].
  destruct e; try discriminate He; exact (IH H).
Qed.

Lemma emitted_logs (c c' : Client) :
  emitted notConsoleLog c c' -> logs (trace c') = logs (trace c).
Proof.
  intros (events & T & Q). rewrite T, logs_app, (logs_without _ Q). apply app_nil_r.
Qed.

Lemma debugOff_config (c c' : Client) :
  config c' = config c -> debugOff c -> debugOff c'.
Proof. unfold debugOff. intros ->. exact (fun H => H). Qed.

Lemma debugOff_log (c : Client) (line : jsstring) :
  debugOff c -> debug (config c) = true -> notConsoleLog (ConsoleLog line) = true.
Proof. unfold debugOff. intros H1 H2. rewrite H1 in H2. discriminate H2. Qed.

Lemma notConsoleLog_socket (e : Event) :
  isSleep e = false -> isConsoleLog e = false -> notConsoleLog e = true.
Proof. intros _ H. unfold notConsoleLog. rewrite H. reflexivity. Qed.

(** X15.  With [debug] off the client prints nothing: [connect],
    [sendCommand], [sendEmail] with all its attempts, hand-shakes, retries
    and resets, and [close] leave the lines handed to [console.log] as they
    were. *)
Theorem debug_off_prints_nothing (W : World) (c : Client) :
  debug (config c) = false ->
  logs (trace (snd (connect W c))) = logs (trace c)
  /\ (forall command expectedCode,
        logs (trace (snd (sendCommand W command expectedCode c))) = logs (trace c))
  /\ (forall options,
        logs (trace (snd (sendEmail W options c))) = logs (trace c))
  /\ logs (trace (snd (close W c))) = logs (trace c).
Proof.
  intros D. change (debugOff c) in D.
  split; [|split; [|split]].
  - apply emitted_logs.
    exact (proj2 (emits_connect debugOff notConsoleLog debugOff_config debugOff_log
                    notConsoleLog_socket W c _ _ D (surjective_pairing _))).
  - intros command expectedCode. apply emitted_logs.
    exact (proj2 (emits_sendCommand debugOff notConsoleLog debugOff_config
                    debugOff_log notConsoleLog_socket W command expectedCode
                    c _ _ D (surjective_pairing _))).
  - intros options. apply emitted_logs.
    exact (proj2 (emits_sendEmail debugOff notConsoleLog debugOff_config
                    debugOff_log notConsoleLog_socket (fun _ => eq_refl)
                    W options c D)).
  - apply emitted_logs.
    exact (proj2 (emits_close debugOff notConsoleLog debugOff_config debugOff_log
                    notConsoleLog_socket W c _ _ D (surjective_pairing _))).
Qed.

Lemma debug_off_prints_nothing_witness :
  logs (trace (snd (sendEmail accepting bccLetter (client0 accepting))))
  = logs (trace (client0 accepting)).
Proof.
  destruct (debug_off_prints_nothing accepting (client0 accepting) eq_refl)
    as (_ & _ & H & _).
  apply H.
Defined.

(** ** The delays *)

Lemma sleeps_app (a b : list Event) : sleeps (a ++ b) = sleeps a ++ sleeps b.
Proof. unfold sleeps. apply flat_map_app. Qed.

Lemma sleeps_without (events : list Event) :
  forallb notSleep events = true -> sleeps events = [].
Proof.
  induction events as [|e events IH]; intros H; [reflexivity|].
  cbn [forallb] in H. apply andb_prop in H. destruct H as [He H].
  destruct e; try discriminate He; exact (IH H).
Qed.

Lemma emitted_sleeps (c c' : Client) :
  emitted notSleep c c' -> sleeps (trace c') = sleeps (trace c).
Proof.
  intros (events & T & Q). rewrite T, sleeps_app, (sleeps_without _ Q).
  apply app_nil_r.
Qed.

Lemma anyState_config (c c' : Client) :
  config c' = config c -> anyState c -> anyState c'.
Proof. intros _ _. exact I. Qed.

Lemma anyState_log (c : Client) (line : jsstring) :
  anyState c -> debug (config c) = true -> notSleep (ConsoleLog line) = true.
Proof. reflexivity. Qed.

Lemma notSleep_socket (e : Event) :
  isSleep e = false -> isConsoleLog e = false -> notSleep e = true.
Proof. intros H _. unfold notSleep. rewrite H. reflexivity. Qed.

Lemma prepare_sleeps (W : World) (c : Client) r c' :
  prepare W c = (r, c') ->
  sleeps (trace c')
  = sleeps (trace c)
    ++ (if retryCount c >? 0 then [retryDelay (config c)] else []).
Proof.
  unfold prepare. intros H.
  assert (First : forall r1 c1,
             (if retryCount c >? 0
              then (log (lit "Retrying email send (attempt "
                         ++ numberToString (retryCount c) ++ lit " of "
                         ++ numberToString (maxRetries (config c)) ++ lit ")...")
                      false ;;
                    update (record (Sleep (retryDelay (config c)))))%client c
              else ret tt c) = (r1, c1) ->
             sleeps (trace c1)
             = sleeps (trace c)
               ++ (if retryCount c >? 0 then [retryDelay (config c)] else [])).
  { intros r1 c1 H1. destruct (retryCount c >? 0).
    - unfold bind, log, update in H1.
      destruct (debug (config c)); inversion H1; subst; cbn [record trace config];
        rewrite !sleeps_app; cbn; rewrite ?app_nil_r; reflexivity.
    - inversion H1; subst. symmetry. apply app_nil_r. }
  apply bind_inv in H. destruct H as [([] & c1 & H1 & H2) | (e & H1 & _)];
    [|exact (First _ _ H1)].
  rewrite <- (First _ _ H1). apply emitted_sleeps.
  exact (proj2 (emits_connecting anyState notSleep anyState_config anyState_log
                  notSleep_socket W c1 _ _ I H2)).
Qed.

Lemma attempt_sleeps (W : World) (options : EmailOptions) (from to : jsstring)
  (c : Client) r c' :
  attempt W options from to c = (r, c') ->
  sleeps (trace c')
  = sleeps (trace c)
    ++ (if retryCount c >? 0 then [retryDelay (config c)] else []).
Proof.
  unfold attempt. intros H.
  apply bind_inv in H. destruct H as [([] & c1 & H1 & H2) | (e & H1 & _)];
    [|exact (prepare_sleeps _ _ _ _ H1)].
  rewrite <- (prepare_sleeps _ _ _ _ H1). apply emitted_sleeps.
  refine (proj2 (emits_bind anyState notSleep _ _ _ _ c1 _ _ I H2)).
  - apply (emits_sendEnvelope anyState notSleep anyState_config anyState_log
             notSleep_socket).
  - intros _. apply (emits_sendContent anyState notSleep anyState_config
                       anyState_log notSleep_socket).
Qed.

Lemma retryLoop_sleeps (W : World) (options : EmailOptions) (from to : jsstring)
  (fuel : nat) (c : Client) :
  exists k,
    sleeps (trace (snd (retryLoop W fuel options from to c)))
    = sleeps (trace c) ++ repeat (retryDelay (config c)) k
    /\ Z.of_nat k
       <= Z.max 0 (maxRetries (config c) + 1 - Z.max (retryCount c) 1).
Proof.
  revert c. induction fuel as [|fuel IH]; intros c.
  { exists 0%nat. cbn. rewrite app_nil_r. split; [reflexivity | lia]. }
  cbn [retryLoop].
  destruct (retryCount c <=? maxRetries (config c)) eqn:Le.
  2:{ exists 0%nat. cbn. rewrite app_nil_r. split; [reflexivity | lia]. }
  apply Z.leb_le in Le.
  destruct (attempt W options from to c) as [[result|errorMessage] c1] eqn:E;
    pose proof (attempt_sleeps _ _ _ _ _ _ _ E) as S1;
    destruct (steady_attempt _ _ _ _ _ _ _ E) as (G1 & R1 & _ & _).
  - exists (if retryCount c >? 0 then 1%nat else 0%nat). cbn [snd].
    rewrite S1. destruct (retryCount c >? 0) eqn:Pos; cbn [repeat].
    + apply Z.gtb_lt in Pos. split; [reflexivity | lia].
    + split; [reflexivity | lia].
  - destruct (log (lit "Error sending email: " ++ errorMessage) true c1)
      as [r2 c2] eqn:L.
    destruct (steady_log _ _ _ _ _ L) as (G2 & R2 & _ & _).
    assert (S2 : sleeps (trace c2) = sleeps (trace c1)).
    { apply emitted_sleeps.
      exact (proj2 (emits_log anyState notSleep anyState_config anyState_log
                      _ _ c1 _ _ I L)). }
    cbn [snd].
    destruct (isPermanentError errorMessage || (retryCount c2 >=? maxRetries (config c2)))
      eqn:Stop.
    + exists (if retryCount c >? 0 then 1%nat else 0%nat). cbn [snd].
      rewrite S2, S1. destruct (retryCount c >? 0) eqn:Pos; cbn [repeat].
      * apply Z.gtb_lt in Pos. split; [reflexivity | lia].
      * split; [reflexivity | lia].
    + apply orb_false_elim in Stop. destruct Stop as [_ Stop].
      rewrite R2, R1, G2, G1 in Stop.
      assert (Lt : retryCount c < maxRetries (config c)).
      { destruct (Z.geb_spec (retryCount c) (maxRetries (config c)));
          [discriminate Stop | lia]. }
      destruct (Steady_resetConnection W c2) as (G3 & R3 & _ & _).
      assert (S3 : sleeps (trace (resetConnection W c2)) = sleeps (trace c2)).
      { apply emitted_sleeps.
        exact (proj2 (emits_resetConnection anyState notSleep anyState_config
                        anyState_log notSleep_socket W c2 I)). }
      set (c3 := resetConnection W c2) in *.
      destruct (IH (set_retryCount (retryCount c3 + 1) c3)) as (k & S4 & B4).
      cbn [set_retryCount trace config retryCount] in S4, B4.
      rewrite G3, G2, G1 in S4, B4. rewrite R3, R2, R1 in B4.
      exists ((if retryCount c >? 0 then 1 else 0) + k)%nat.
      rewrite S4, S3, S2, S1, repeat_app, <- app_assoc.
      destruct (retryCount c >? 0) eqn:Pos; cbn [repeat].
      * apply Z.gtb_lt in Pos. split; [reflexivity | lia].
      * split; [reflexivity|].
        destruct (Z.gtb_spec (retryCount c) 0); [discriminate Pos | lia].
Qed.

(** X16.  [sendEmail] waits only between attempts and only for the
    configured delay: the delays it adds are [retryDelay], at most
    [maxRetries] times. *)
Theorem sendEmail_waits_retryDelay (W : World) (options : EmailOptions)
  (c : Client) :
  exists k,
    sleeps (trace (snd (sendEmail W options c)))
    = sleeps (trace c) ++ repeat (retryDelay (config c)) k
    /\ Z.of_nat k <= Z.max 0 (maxRetries (config c)).
Proof.
  unfold sendEmail.
  destruct (_ || _ || _ || _);
    [exists 0%nat; cbn; rewrite app_nil_r; split; [reflexivity | lia]|].
  destruct (negb (validateEmail _) || negb (validateEmailValue _));
    [exists 0%nat; cbn; rewrite app_nil_r; split; [reflexivity | lia]|].
  destruct (retryLoop_sleeps W options (orElse (from options) (user (config c)))
              (valueToString (to options))
              (Z.to_nat (maxRetries (config c) + 1)) (set_retryCount 0 c))
    as (k & S & B).
  cbn [set_retryCount trace config retryCount] in S, B.
  exists k. split; [exact S | lia].
Qed.

(** ** The hand-shake without authentication *)

Lemma silent_parseCapabilities (W : World) (ehloResponse : jsstring) (c : Client) :
  silent_on (parseCapabilities W ehloResponse) c.
Proof.
  intros r c' H. unfold parseCapabilities in H. cbv zeta in H.
  unfold bind at 1, update at 1 in H. exact (silent_log _ _ _ _ _ H).
Qed.

Lemma silent_upgradeToTLS (W : World) (c : Client) : silent_on (upgradeToTLS W) c.
Proof.
  intros r c' H. unfold upgradeToTLS in H.
  destruct (socket c); [|inversion H; reflexivity].
  destruct (secureMode c); [inversion H; reflexivity|].
  assert (R : writes (trace (record StartTls c)) = writes (trace c))
    by (rewrite writes_record; apply app_nil_r).
  destruct (upgrading W _) as [m|authorized reason];
    unfold bind at 1, update at 1 in H;
    apply bind_inv in H; destruct H as [([] & c1 & H1 & H) | (e & H1 & _)];
    try (rewrite <- R; exact (silent_log _ _ _ _ _ H1));
    pose proof (silent_log _ _ _ _ _ H1) as L; rewrite R in L; rewrite <- L.
  - inversion H; reflexivity.
  - destruct authorized; inversion H; reflexivity.
Qed.

(** X17.  With [skipAuthentication] set, the hand-shake writes [EHLO], and
    [STARTTLS] and a second [EHLO] when it upgrades the connection, and
    nothing else: no [AUTH] command and no credentials, whatever the server
    advertises or answers. *)
Theorem smtpHandshake_skips_credentials (W : World) (c : Client) r c' :
  skipAuthentication (config c) = true ->
  smtpHandshake W c = (r, c') ->
  exists lines,
    writes (trace c') = writes (trace c) ++ lines
    /\ In lines
         [ [];
           [commandLine (lit "EHLO " ++ clientName (config c))];
           [commandLine (lit "EHLO " ++ clientName (config c));
            commandLine (lit "STARTTLS")];
           [commandLine (lit "EHLO " ++ clientName (config c));
            commandLine (lit "STARTTLS");
            commandLine (lit "EHLO " ++ clientName (config c))] ].
Proof.
  intros Hskip H. unfold smtpHandshake in H.
  set (ehlo := commandLine (lit "EHLO " ++ clientName (config c))).
  set (starttls := commandLine (lit "STARTTLS")).
  assert (Zero : forall x, writes (trace x) = writes (trace c) ->
                   exists lines, writes (trace x) = writes (trace c) ++ lines
                     /\ In lines [[]; [ehlo]; [ehlo; starttls]; [ehlo; starttls; ehlo]]).
  { intros x E. exists []. rewrite app_nil_r. split; [exact E | left; reflexivity]. }
  assert (One : forall x, writes (trace x) = writes (trace c) ++ [ehlo] ->
                  exists lines, writes (trace x) = writes (trace c) ++ lines
                    /\ In lines [[]; [ehlo]; [ehlo; starttls]; [ehlo; starttls; ehlo]]).
  { intros x E. exists [ehlo]. split; [exact E | right; left; reflexivity]. }
  assert (Two : forall x, writes (trace x) = (writes (trace c) ++ [ehlo]) ++ [starttls] ->
                  exists lines, writes (trace x) = writes (trace c) ++ lines
                    /\ In lines [[]; [ehlo]; [ehlo; starttls]; [ehlo; starttls; ehlo]]).
  { intros x E. exists [ehlo; starttls]. rewrite E, <- app_assoc.
    split; [reflexivity | right; right; left; reflexivity]. }
  assert (Three : forall x,
             writes (trace x) = ((writes (trace c) ++ [ehlo]) ++ [starttls]) ++ [ehlo] ->
             exists lines, writes (trace x) = writes (trace c) ++ lines
               /\ In lines [[]; [ehlo]; [ehlo; starttls]; [ehlo; starttls; ehlo]]).
  { intros x E. exists [ehlo; starttls; ehlo]. rewrite E, <- !app_assoc.
    split; [reflexivity | right; right; right; left; reflexivity]. }
  apply bind_inv in H. destruct H as [(response & c1 & H1 & H) | (e & H1 & _)].
  2:{ destruct (sendCommand_writes _ _ _ _ _ _ H1) as [E|[-> _]];
        [apply One; exact E | apply Zero; reflexivity]. }
  pose proof (sendCommand_resolved_writes _ _ _ _ _ _ H1) as W1.
  destruct (steady_sendCommand _ _ _ _ _ _ H1) as (G1 & _).
  apply bind_inv in H. destruct H as [([] & c2 & H2 & H) | (e & H2 & _)].
  2:{ apply One. rewrite (silent_parseCapabilities _ _ _ _ _ H2). exact W1. }
  pose proof (silent_parseCapabilities _ _ _ _ _ H2) as W2. rewrite W1 in W2.
  destruct (steady_parseCapabilities _ _ _ _ _ H2) as (G2 & _). rewrite G1 in G2.
  clear H1 H2 W1 G1 c1.
  assert (Last : forall c3 r3 c3',
             config c3 = config c ->
             (if negb (skipAuthentication (config c3)) then authenticate W c3
              else log (lit "Authentication skipped (testing mode)") false c3)
             = (r3, c3') ->
             writes (trace c3') = writes (trace c3)).
  { intros c3 r3 c3' G3 H3. rewrite G3, Hskip in H3. cbn [negb] in H3.
    exact (silent_log _ _ _ _ _ H3). }
  apply bind_inv in H. destruct H as [([] & c3 & H3 & H) | (e & H3 & _)].
  - assert (G3 : config c3 = config c).
    { rewrite <- G2. revert H3.
      destruct (negb (secureMode c2) && arrayIncludes (serverCapabilities c2) (lit "STARTTLS"));
        intros H3; [|inversion H3; reflexivity].
      assert (St : steady (sendCommand W (lit "STARTTLS") 220 ;;
                           upgradeToTLS W ;;
                           secureEhloResponse <-
                             sendCommand W (lit "EHLO " ++ clientName (config c2)) 250 ;;
                           parseCapabilities W secureEhloResponse)%client).
      { apply steady_bind; [apply steady_sendCommand | intros _].
        apply steady_bind; [apply steady_upgradeToTLS | intros _].
        apply steady_bind; [apply steady_sendCommand | intros ?].
        apply steady_parseCapabilities. }
      exact (proj1 (St _ _ _ H3)). }
    pose proof (Last _ _ _ G3 H) as W4. clear H Last.
    destruct (negb (secureMode c2) && arrayIncludes (serverCapabilities c2) (lit "STARTTLS")).
    2:{ inversion H3; subst. apply One. rewrite W4. exact W2. }
    apply bind_inv in H3. destruct H3 as [(x & c4 & H4 & H3) | (e & _ & E)];
      [|discriminate E].
    pose proof (sendCommand_resolved_writes _ _ _ _ _ _ H4) as W5.
    apply bind_inv in H3. destruct H3 as [([] & c5 & H5 & H3) | (e & _ & E)];
      [|discriminate E].
    pose proof (silent_upgradeToTLS _ _ _ _ H5) as W6.
    apply bind_inv in H3. destruct H3 as [(y & c6 & H6 & H3) | (e & _ & E)];
      [|discriminate E].
    pose proof (sendCommand_resolved_writes _ _ _ _ _ _ H6) as W7.
    pose proof (silent_parseCapabilities _ _ _ _ _ H3) as W8.
    apply Three. rewrite W4, W8, W7, W6, W5, W2, G2. reflexivity.
  - clear Last.
    destruct (negb (secureMode c2) && arrayIncludes (serverCapabilities c2) (lit "STARTTLS")).
    2:{ inversion H3. }
    apply bind_inv in H3. destruct H3 as [(x & c4 & H4 & H3) | (e' & H4 & _)].
    2:{ destruct (sendCommand_writes _ _ _ _ _ _ H4) as [E|[-> _]];
          [apply Two; rewrite E, W2; reflexivity | apply One; exact W2]. }
    pose proof (sendCommand_resolved_writes _ _ _ _ _ _ H4) as W5.
    apply bind_inv in H3. destruct H3 as [([] & c5 & H5 & H3) | (e' & H5 & _)].
    2:{ apply Two. rewrite (silent_upgradeToTLS _ _ _ _ H5), W5, W2. reflexivity. }
    pose proof (silent_upgradeToTLS _ _ _ _ H5) as W6.
    apply bind_inv in H3. destruct H3 as [(y & c6 & H6 & H3) | (e' & H6 & _)].
    2:{ destruct (sendCommand_writes _ _ _ _ _ _ H6) as [E|[-> _]].
        - apply Three. rewrite E, W6, W5, W2, G2. reflexivity.
        - apply Two. rewrite W6, W5, W2. reflexivity. }
    pose proof (sendCommand_resolved_writes _ _ _ _ _ _ H6) as W7.
    pose proof (silent_parseCapabilities _ _ _ _ _ H3) as W8.
    apply Three. rewrite W8, W7, W6, W5, W2, G2. reflexivity.
Qed.

Lemma smtpHandshake_skips_credentials_witness :
  exists lines,
    writes (trace (snd (smtpHandshake accepting unauthenticated)))
    = writes (trace unauthenticated) ++ lines
    /\ In lines
         [ [];
           [commandLine (lit "EHLO " ++ clientName (config unauthenticated))];
           [commandLine (lit "EHLO " ++ clientName (config unauthenticated));
            commandLine (lit "STARTTLS")];
           [commandLine (lit "EHLO " ++ clientName (config unauthenticated));
            commandLine (lit "STARTTLS");
            commandLine (lit "EHLO " ++ clientName (config unauthenticated))] ].
Proof.
  apply (smtpHandshake_skips_credentials accepting unauthenticated
           (fst (smtpHandshake accepting unauthenticated))).
  - reflexivity.
  - apply surjective_pairing.
Defined.

(** ** What [sendEmail] returns *)

Lemma retryLoop_result (W : World) (options : EmailOptions) (from to : jsstring)
  (fuel : nat) (c : Client) :
  match success (fst (retryLoop W fuel options from to c)) with
  | true =>
      message (fst (retryLoop W fuel options from to c))
      = Some (lit "Email sent successfully")
      /\ error (fst (retryLoop W fuel options from to c)) = None
  | false =>
      messageId (fst (retryLoop W fuel options from to c)) = None
      /\ message (fst (retryLoop W fuel options from to c)) = None
      /\ error (fst (retryLoop W fuel options from to c)) <> None
  end.
Proof.
  revert c. induction fuel as [|fuel IH]; intros c;
    [cbn; repeat split; discriminate|].
  cbn [retryLoop].
  destruct (retryCount c <=? maxRetries (config c));
    [|cbn; repeat split; discriminate].
  destruct (attempt W options from to c) as [[result|errorMessage] c1] eqn:E.
  - destruct (attempt_resolved _ _ _ _ _ _ _ E) as (ca & cb & _ & _ & Hc).
    unfold sendContent in Hc.
    destruct (len (createMultipartEmail W cb options) >? maxEmailSize).
    + inversion Hc; subst. cbn. repeat split; discriminate.
    + apply bind_inv in Hc. destruct Hc as [(x & cd & _ & Hc) | (e & _ & F)];
        [|discriminate F].
      inversion Hc; subst. cbn. split; reflexivity.
  - destruct (isPermanentError errorMessage || _);
      [cbn; repeat split; discriminate | apply IH].
Qed.

(** X18.  What [sendEmail] returns is one of two shapes: a success, with the
    message [Email sent successfully] and no error, or a failure, with an
    error and neither a message nor a message id. *)
Theorem sendEmail_result_shape (W : World) (options : EmailOptions) (c : Client) :
  match success (fst (sendEmail W options c)) with
  | true =>
      message (fst (sendEmail W options c)) = Some (lit "Email sent successfully")
      /\ error (fst (sendEmail W options c)) = None
  | false =>
      messageId (fst (sendEmail W options c)) = None
      /\ message (fst (sendEmail W options c)) = None
      /\ error (fst (sendEmail W options c)) <> None
  end.
Proof.
  unfold sendEmail.
  destruct (_ || _ || _ || _); [cbn; repeat split; discriminate|].
  destruct (negb (validateEmail _) || negb (validateEmailValue _));
    [cbn; repeat split; discriminate|].
  apply retryLoop_result.
Qed.

(** ** Configuration *)

Lemma parseFrom_invariant (Q : Configuration.Settings -> Prop) :
  (forall v s, Q s -> Q (Configuration.set_host v s)) ->
  (forall v s, Q s -> Q (Configuration.set_user v s)) ->
  (forall v s, Q s -> Q (Configuration.set_password v s)) ->
  (forall v s, Q s -> Q (Configuration.set_port v s)) ->
  (forall s, Q s -> Q (Configuration.set_secure true s)) ->
  (forall s, Q s -> Q (Configuration.set_debug true s)) ->
  (forall v s, Q s -> Q (Configuration.set_maxRetries v s)) ->
  forall args s, Q s -> Q (Configuration.parseFrom args s).
Proof.
  intros Hh Hu Hp Ho Hs Hd Hr args.
  assert (G : forall n args, (List.length args <= n)%nat ->
                forall s, Q s -> Q (Configuration.parseFrom args s)).
  { clear args. induction n as [|n IH]; intros [|arg rest] Hn s Hq;
      try exact Hq; [cbn in Hn; lia|].
    cbn [List.length] in Hn. cbn [Configuration.parseFrom].
    assert (IH1 : forall s', Q s' -> Q (Configuration.parseFrom rest s'))
      by (intros s'; apply IH; lia).
    assert (IH2 : forall v rest' s', rest = v :: rest' -> Q s' ->
                    Q (Configuration.parseFrom rest' s')).
    { intros v rest' s' ->. apply IH. cbn [List.length] in Hn. lia. }
    destruct (streq arg (lit "--host"));
      [destruct rest as [|v rest']; [exact Hq | apply (IH2 v _ _ eq_refl); auto]|].
    destruct (streq arg (lit "--user"));
      [destruct rest as [|v rest']; [exact Hq | apply (IH2 v _ _ eq_refl); auto]|].
    destruct (streq arg (lit "--password"));
      [destruct rest as [|v rest']; [exact Hq | apply (IH2 v _ _ eq_refl); auto]|].
    destruct (streq arg (lit "--port")).
    { destruct rest as [|v rest']; [exact Hq|].
      destruct (Configuration.parseInt v); apply (IH2 v _ _ eq_refl); auto. }
    destruct (streq arg (lit "--secure")); [apply IH1; auto|].
    destruct (streq arg (lit "--debug")); [apply IH1; auto|].
    destruct (streq arg (lit "--retries")).
    { destruct rest as [|v rest']; [exact Hq|].
      destruct (Configuration.parseInt v); apply (IH2 v _ _ eq_refl); auto. }
    apply IH1. exact Hq. }
  exact (G (List.length args) args (Nat.le_refl _)).
Qed.

Lemma parseFrom_keeps {K : Type} (key : Configuration.Settings -> K)
  (flag : jsstring) :
  (flag = lit "--host" \/ forall v s, key (Configuration.set_host v s) = key s) ->
  (flag = lit "--user" \/ forall v s, key (Configuration.set_user v s) = key s) ->
  (flag = lit "--password"
   \/ forall v s, key (Configuration.set_password v s) = key s) ->
  (flag = lit "--port" \/ forall v s, key (Configuration.set_port v s) = key s) ->
  (flag = lit "--secure" \/ forall s, key (Configuration.set_secure true s) = key s) ->
  (flag = lit "--debug" \/ forall s, key (Configuration.set_debug true s) = key s) ->
  (flag = lit "--retries"
   \/ forall v s, key (Configuration.set_maxRetries v s) = key s) ->
  forall args s,
    existsb (fun a => streq a flag) args = false ->
    key (Configuration.parseFrom args s) = key s.
Proof.
  intros Hh Hu Hp Ho Hs Hd Hr args.
  assert (G : forall n args, (List.length args <= n)%nat ->
                forall s, existsb (fun a => streq a flag) args = false ->
                          key (Configuration.parseFrom args s) = key s).
  { clear args. induction n as [|n IH]; intros [|arg rest] Hn s E;
      try reflexivity; [cbn in Hn; lia|].
    cbn [List.length] in Hn. cbn [existsb] in E.
    apply orb_false_elim in E. destruct E as [E1 E].
    assert (IH1 : forall s', key (Configuration.parseFrom rest s') = key s')
      by (intros s'; apply IH; [lia | exact E]).
    assert (IH2 : forall v rest' s', rest = v :: rest' ->
                    key (Configuration.parseFrom rest' s') = key s').
    { intros v rest' s' R. subst rest. cbn [existsb] in E.
      apply orb_false_elim in E. destruct E as [_ E].
      apply IH; [cbn [List.length] in Hn; lia | exact E]. }
    assert (Not : forall name, streq arg name = true -> flag = name -> False).
    { intros name T F. subst flag. rewrite T in E1. discriminate E1. }
    cbn [Configuration.parseFrom].
    destruct (streq arg (lit "--host")) eqn:F1.
    { destruct rest as [|v rest']; [reflexivity|].
      rewrite (IH2 v rest' _ eq_refl).
      destruct Hh as [Hh|Hh]; [exfalso; exact (Not _ F1 Hh) | apply Hh]. }
    destruct (streq arg (lit "--user")) eqn:F2.
    { destruct rest as [|v rest']; [reflexivity|].
      rewrite (IH2 v rest' _ eq_refl).
      destruct Hu as [Hu|Hu]; [exfalso; exact (Not _ F2 Hu) | apply Hu]. }
    destruct (streq arg (lit "--password")) eqn:F3.
    { destruct rest as [|v rest']; [reflexivity|].
      rewrite (IH2 v rest' _ eq_refl).
      destruct Hp as [Hp|Hp]; [exfalso; exact (Not _ F3 Hp) | apply Hp]. }
    destruct (streq arg (lit "--port")) eqn:F4.
    { destruct rest as [|v rest']; [reflexivity|].
      destruct (Configuration.parseInt v) as [value|];
        rewrite (IH2 v rest' _ eq_refl); [|reflexivity].
      destruct Ho as [Ho|Ho]; [exfalso; exact (Not _ F4 Ho) | apply Ho]. }
    destruct (streq arg (lit "--secure")) eqn:F5.
    { rewrite IH1.
      destruct Hs as [Hs|Hs]; [exfalso; exact (Not _ F5 Hs) | apply Hs]. }
    destruct (streq arg (lit "--debug")) eqn:F6.
    { rewrite IH1.
      destruct Hd as [Hd|Hd]; [exfalso; exact (Not _ F6 Hd) | apply Hd]. }
    destruct (streq arg (lit "--retries")) eqn:F7.
    { destruct rest as [|v rest']; [reflexivity|].
      destruct (Configuration.parseInt v) as [value|];
        rewrite (IH2 v rest' _ eq_refl); [|reflexivity].
      destruct Hr as [Hr|Hr]; [exfalso; exact (Not _ F7 Hr) | apply Hr]. }
    apply IH1. }
  exact (G (List.length args) args (Nat.le_refl _)).
Qed.

Lemma parseFrom_skips (pre rest : list jsstring) (s : Configuration.Settings) :
  forallb (fun arg => negb (isCliFlag arg)) pre = true ->
  Configuration.parseFrom (pre ++ rest) s = Configuration.parseFrom rest s.
Proof.
  induction pre as [|arg pre IH]; intros H; [reflexivity|].
  cbn [forallb] in H. apply andb_prop in H. destruct H as [Ha H].
  apply negb_true_iff in Ha. unfold isCliFlag in Ha. cbn [existsb] in Ha.
  repeat (apply orb_false_elim in Ha;
          let F := fresh "F" in destruct Ha as [F Ha]).
  cbn [app Configuration.parseFrom].
  rewrite F, F0, F1, F2, F3, F4, F5. exact (IH H).
Qed.

(** X19.  What the command line sets.  After its first two entries and any
    number of arguments that are no flags, [--host], [--user] and
    [--password] set their key to the argument that follows, whatever it
    is, [--port] and [--retries] set theirs to the number that follows, and
    [--secure] and [--debug] set theirs to true; the key keeps that value
    when the flag does not occur again.  The command line cannot switch
    [secure] or [debug] off, sets no other key, and sets no key to
    [undefined]. *)
Theorem parseCliArgs_sets_only_flags (args pre rest : list jsstring)
  (node script value : jsstring) (number : Z) :
  (Configuration.timeout (Configuration.parseCliArgs args) = Configuration.Absent
   /\ Configuration.clientName (Configuration.parseCliArgs args)
      = Configuration.Absent
   /\ Configuration.retryDelay (Configuration.parseCliArgs args)
      = Configuration.Absent
   /\ Configuration.skipAuthentication (Configuration.parseCliArgs args)
      = Configuration.Absent
   /\ (Configuration.secure (Configuration.parseCliArgs args) = Configuration.Absent
       \/ Configuration.secure (Configuration.parseCliArgs args)
          = Configuration.Given (Some true))
   /\ (Configuration.debug (Configuration.parseCliArgs args) = Configuration.Absent
       \/ Configuration.debug (Configuration.parseCliArgs args)
          = Configuration.Given (Some true))
   /\ Configuration.host (Configuration.parseCliArgs args)
      <> Configuration.Given None
   /\ Configuration.user (Configuration.parseCliArgs args)
      <> Configuration.Given None
   /\ Configuration.password (Configuration.parseCliArgs args)
      <> Configuration.Given None
   /\ Configuration.port (Configuration.parseCliArgs args)
      <> Configuration.Given None
   /\ Configuration.maxRetries (Configuration.parseCliArgs args)
      <> Configuration.Given None)
  /\ (forallb (fun arg => negb (isCliFlag arg)) pre = true ->
      (existsb (fun a => streq a (lit "--host")) rest = false ->
       Configuration.host
         (Configuration.parseCliArgs
            (node :: script :: pre ++ lit "--host" :: value :: rest))
       = Configuration.Given (Some value))
      /\ (existsb (fun a => streq a (lit "--user")) rest = false ->
          Configuration.user
            (Configuration.parseCliArgs
               (node :: script :: pre ++ lit "--user" :: value :: rest))
          = Configuration.Given (Some value))
      /\ (existsb (fun a => streq a (lit "--password")) rest = false ->
          Configuration.password
            (Configuration.parseCliArgs
               (node :: script :: pre ++ lit "--password" :: value :: rest))
          = Configuration.Given (Some value))
      /\ (Configuration.parseInt value = Some number ->
          existsb (fun a => streq a (lit "--port")) rest = false ->
          Configuration.port
            (Configuration.parseCliArgs
               (node :: script :: pre ++ lit "--port" :: value :: rest))
          = Configuration.Given (Some number))
      /\ (Configuration.parseInt value = Some number ->
          existsb (fun a => streq a (lit "--retries")) rest = false ->
          Configuration.maxRetries
            (Configuration.parseCliArgs
               (node :: script :: pre ++ lit "--retries" :: value :: rest))
          = Configuration.Given (Some number))
      /\ (existsb (fun a => streq a (lit "--secure")) rest = false ->
          Configuration.secure
            (Configuration.parseCliArgs
               (node :: script :: pre ++ lit "--secure" :: rest))
          = Configuration.Given (Some true))
      /\ (existsb (fun a => streq a (lit "--debug")) rest = false ->
          Configuration.debug
            (Configuration.parseCliArgs
               (node :: script :: pre ++ lit "--debug" :: rest))
          = Configuration.Given (Some true))).
Proof.
  split.
  {
    unfold Configuration.parseCliArgs.
    apply (parseFrom_invariant
             (fun s =>
                Configuration.timeout s = Configuration.Absent
                /\ Configuration.clientName s = Configuration.Absent
                /\ Configuration.retryDelay s = Configuration.Absent
                /\ Configuration.skipAuthentication s = Configuration.Absent
                /\ (Configuration.secure s = Configuration.Absent
                    \/ Configuration.secure s = Configuration.Given (Some true))
                /\ (Configuration.debug s = Configuration.Absent
                    \/ Configuration.debug s = Configuration.Given (Some true))
                /\ Configuration.host s <> Configuration.Given None
                /\ Configuration.user s <> Configuration.Given None
                /\ Configuration.password s <> Configuration.Given None
                /\ Configuration.port s <> Configuration.Given None
                /\ Configuration.maxRetries s <> Configuration.Given None));
      try (intros v s (H1 & H2 & H3 & H4 & H5 & H6 & H7 & H8 & H9 & H10 & H11);
           cbn; repeat split; auto; discriminate);
      try (intros s (H1 & H2 & H3 & H4 & H5 & H6 & H7 & H8 & H9 & H10 & H11);
           cbn; repeat split; auto; discriminate).
    cbn. repeat split; auto; discriminate.
  }
  intros Hpre. unfold Configuration.parseCliArgs. cbn [skipn].
  rewrite !(parseFrom_skips pre) by exact Hpre.
  cbn [Configuration.parseFrom].
  change (streq (lit "--host") (lit "--host")) with true.
  change (streq (lit "--user") (lit "--host")) with false.
  change (streq (lit "--user") (lit "--user")) with true.
  change (streq (lit "--password") (lit "--host")) with false.
  change (streq (lit "--password") (lit "--user")) with false.
  change (streq (lit "--password") (lit "--password")) with true.
  change (streq (lit "--port") (lit "--host")) with false.
  change (streq (lit "--port") (lit "--user")) with false.
  change (streq (lit "--port") (lit "--password")) with false.
  change (streq (lit "--port") (lit "--port")) with true.
  change (streq (lit "--retries") (lit "--host")) with false.
  change (streq (lit "--retries") (lit "--user")) with false.
  change (streq (lit "--retries") (lit "--password")) with false.
  change (streq (lit "--retries") (lit "--port")) with false.
  change (streq (lit "--retries") (lit "--secure")) with false.
  change (streq (lit "--retries") (lit "--debug")) with false.
  change (streq (lit "--retries") (lit "--retries")) with true.
  change (streq (lit "--secure") (lit "--host")) with false.
  change (streq (lit "--secure") (lit "--user")) with false.
  change (streq (lit "--secure") (lit "--password")) with false.
  change (streq (lit "--secure") (lit "--port")) with false.
  change (streq (lit "--secure") (lit "--secure")) with true.
  change (streq (lit "--debug") (lit "--host")) with false.
  change (streq (lit "--debug") (lit "--user")) with false.
  change (streq (lit "--debug") (lit "--password")) with false.
  change (streq (lit "--debug") (lit "--port")) with false.
  change (streq (lit "--debug") (lit "--secure")) with false.
  change (streq (lit "--debug") (lit "--debug")) with true.
  cbv iota.
  split; [|split; [|split; [|split; [|split; [|split]]]]].
  - intros E.
    rewrite (parseFrom_keeps Configuration.host (lit "--host")); auto.
  - intros E.
    rewrite (parseFrom_keeps Configuration.user (lit "--user")); auto.
  - intros E.
    rewrite (parseFrom_keeps Configuration.password (lit "--password")); auto.
  - intros N E. rewrite N.
    rewrite (parseFrom_keeps Configuration.port (lit "--port")); auto.
  - intros N E. rewrite N.
    rewrite (parseFrom_keeps Configuration.maxRetries (lit "--retries")); auto.
  - intros E.
    rewrite (parseFrom_keeps Configuration.secure (lit "--secure")); auto.
  - intros E.
    rewrite (parseFrom_keeps Configuration.debug (lit "--debug")); auto.
Qed.

Lemma parseCliArgs_sets_only_flags_witness :
  Configuration.host
    (Configuration.parseCliArgs
       [lit "node"; lit "send.js"; lit "--verbose";
        lit "--host"; lit "smtp.example"; lit "--debug"])
  = Configuration.Given (Some (lit "smtp.example"))
  /\ Configuration.port
       (Configuration.parseCliArgs
          [lit "node"; lit "send.js"; lit "--verbose";
           lit "--port"; lit "587"; lit "--secure"])
     = Configuration.Given (Some 587)
  /\ Configuration.secure
       (Configuration.parseCliArgs
          [lit "node"; lit "send.js"; lit "--verbose";
           lit "--secure"; lit "--port"; lit "587"])
     = Configuration.Given (Some true).
Proof.
  split; [|split].
  - destruct (parseCliArgs_sets_only_flags [] [lit "--verbose"] [lit "--debug"]
                (lit "node") (lit "send.js") (lit "smtp.example") 0)
      as (_ & H).
    destruct (H eq_refl) as (A & _). apply A. reflexivity.
  - destruct (parseCliArgs_sets_only_flags [] [lit "--verbose"] [lit "--secure"]
                (lit "node") (lit "send.js") (lit "587") 587)
      as (_ & H).
    destruct (H eq_refl) as (_ & _ & _ & A & _). apply A; reflexivity.
  - destruct (parseCliArgs_sets_only_flags [] [lit "--verbose"]
                [lit "--port"; lit "587"]
                (lit "node") (lit "send.js") [] 0)
      as (_ & H).
    destruct (H eq_refl) as (_ & _ & _ & _ & _ & A & _). apply A. reflexivity.
Defined.

(** A command line with every flag. *)
Example parseCliArgs_every_flag :
  Configuration.parseCliArgs fullStart
  = {| Configuration.user := Configuration.Given (Some (lit "me@example.com"));
       Configuration.password := Configuration.Given (Some (lit "secret"));
       Configuration.host := Configuration.Given (Some (lit "smtp.example"));
       Configuration.port := Configuration.Given (Some 587);
       Configuration.secure := Configuration.Given (Some true);
       Configuration.timeout := Configuration.Absent;
       Configuration.debug := Configuration.Given (Some true);
       Configuration.clientName := Configuration.Absent;
       Configuration.maxRetries := Configuration.Given (Some 5);
       Configuration.retryDelay := Configuration.Absent;
       Configuration.skipAuthentication := Configuration.Absent |}.
Proof. vm_compute. reflexivity. Qed.

Lemma parseFrom_without_flags (n : nat) :
  forall args, (List.length args <= n)%nat ->
  forall s,
    (existsb (fun a => streq a (lit "--host")) args = false ->
     Configuration.host (Configuration.parseFrom args s) = Configuration.host s)
    /\ (existsb (fun a => streq a (lit "--port")) args = false ->
        Configuration.port (Configuration.parseFrom args s) = Configuration.port s)
    /\ (existsb (fun a => streq a (lit "--retries")) args = false ->
        Configuration.maxRetries (Configuration.parseFrom args s)
        = Configuration.maxRetries s).
Proof.
  induction n as [|n IH]; intros [|arg rest] Hn s;
    try (repeat split; reflexivity); [cbn in Hn; lia|].
  cbn [List.length] in Hn. cbn [Configuration.parseFrom].
  assert (IH1 : forall s',
             (existsb (fun a => streq a (lit "--host")) rest = false ->
              Configuration.host (Configuration.parseFrom rest s')
              = Configuration.host s')
             /\ (existsb (fun a => streq a (lit "--port")) rest = false ->
                 Configuration.port (Configuration.parseFrom rest s')
                 = Configuration.port s')
             /\ (existsb (fun a => streq a (lit "--retries")) rest = false ->
                 Configuration.maxRetries (Configuration.parseFrom rest s')
                 = Configuration.maxRetries s'))
    by (intros s'; apply IH; lia).
  assert (IH2 : forall v rest' s', rest = v :: rest' ->
             (existsb (fun a => streq a (lit "--host")) rest' = false ->
              Configuration.host (Configuration.parseFrom rest' s')
              = Configuration.host s')
             /\ (existsb (fun a => streq a (lit "--port")) rest' = false ->
                 Configuration.port (Configuration.parseFrom rest' s')
                 = Configuration.port s')
             /\ (existsb (fun a => streq a (lit "--retries")) rest' = false ->
                 Configuration.maxRetries (Configuration.parseFrom rest' s')
                 = Configuration.maxRetries s')).
  { intros v rest' s' ->. apply IH. cbn [List.length] in Hn. lia. }
  assert (Value : forall s' : Configuration.Settings,
             match rest with
             | [] => True
             | v :: rest' =>
                 (existsb (fun a => streq a (lit "--host")) (arg :: rest) = false ->
                  Configuration.host s' = Configuration.host s ->
                  Configuration.host (Configuration.parseFrom rest' s')
                  = Configuration.host s)
                 /\ (existsb (fun a => streq a (lit "--port")) (arg :: rest) = false ->
                     Configuration.port s' = Configuration.port s ->
                     Configuration.port (Configuration.parseFrom rest' s')
                     = Configuration.port s)
                 /\ (existsb (fun a => streq a (lit "--retries")) (arg :: rest) = false ->
                     Configuration.maxRetries s' = Configuration.maxRetries s ->
                     Configuration.maxRetries (Configuration.parseFrom rest' s')
                     = Configuration.maxRetries s)
             end).
  { intros s'. destruct rest as [|v rest']; [exact I|].
    destruct (IH2 v rest' s' eq_refl) as (A & B & C).
    repeat split; intros E <-; cbn [existsb] in E;
      apply orb_false_elim in E; destruct E as [_ E];
      apply orb_false_elim in E; destruct E as [_ E]; auto. }
  assert (Flag : forall s' : Configuration.Settings,
             (existsb (fun a => streq a (lit "--host")) (arg :: rest) = false ->
              Configuration.host s' = Configuration.host s ->
              Configuration.host (Configuration.parseFrom rest s')
              = Configuration.host s)
             /\ (existsb (fun a => streq a (lit "--port")) (arg :: rest) = false ->
                 Configuration.port s' = Configuration.port s ->
                 Configuration.port (Configuration.parseFrom rest s')
                 = Configuration.port s)
             /\ (existsb (fun a => streq a (lit "--retries")) (arg :: rest) = false ->
                 Configuration.maxRetries s' = Configuration.maxRetries s ->
                 Configuration.maxRetries (Configuration.parseFrom rest s')
                 = Configuration.maxRetries s)).
  { intros s'. destruct (IH1 s') as (A & B & C).
    repeat split; intros E <-; cbn [existsb] in E;
      apply orb_false_elim in E; destruct E as [_ E]; auto. }
  destruct (streq arg (lit "--host")) eqn:F1.
  { destruct rest as [|v rest']; [repeat split; reflexivity|].
    destruct (Value (Configuration.set_host v s)) as (A & B & C).
    split; [|split]; intros E; [|apply B|apply C]; auto.
    cbn [existsb] in E. rewrite F1 in E. discriminate E. }
  destruct (streq arg (lit "--user")).
  { destruct rest as [|v rest']; [repeat split; reflexivity|].
    destruct (Value (Configuration.set_user v s)) as (A & B & C).
    split; [|split]; intros E; [apply A|apply B|apply C]; auto. }
  destruct (streq arg (lit "--password")).
  { destruct rest as [|v rest']; [repeat split; reflexivity|].
    destruct (Value (Configuration.set_password v s)) as (A & B & C).
    split; [|split]; intros E; [apply A|apply B|apply C]; auto. }
  destruct (streq arg (lit "--port")) eqn:F4.
  { destruct rest as [|v rest']; [repeat split; reflexivity|].
    destruct (Configuration.parseInt v) as [value|].
    - destruct (Value (Configuration.set_port value s)) as (A & B & C).
      split; [|split]; intros E; [apply A| |apply C]; auto.
      cbn [existsb] in E. rewrite F4 in E. discriminate E.
    - destruct (Value s) as (A & B & C).
      split; [|split]; intros E; [apply A|apply B|apply C]; auto. }
  destruct (streq arg (lit "--secure")).
  { destruct (Flag (Configuration.set_secure true s)) as (A & B & C).
    split; [|split]; intros E; [apply A|apply B|apply C]; auto. }
  destruct (streq arg (lit "--debug")).
  { destruct (Flag (Configuration.set_debug true s)) as (A & B & C).
    split; [|split]; intros E; [apply A|apply B|apply C]; auto. }
  destruct (streq arg (lit "--retries")) eqn:F7.
  { destruct rest as [|v rest']; [repeat split; reflexivity|].
    destruct (Configuration.parseInt v) as [value|].
    - destruct (Value (Configuration.set_maxRetries value s)) as (A & B & C).
      split; [|split]; intros E; [apply A|apply B|]; auto.
      cbn [existsb] in E. rewrite F7 in E. discriminate E.
    - destruct (Value s) as (A & B & C).
      split; [|split]; intros E; [apply A|apply B|apply C]; auto. }
  destruct (Flag s) as (A & B & C).
  split; [|split]; intros E; [apply A|apply B|apply C]; auto.
Qed.

Lemma parseCliArgs_without_flags (args : list jsstring) :
  (existsb (fun a => streq a (lit "--host")) (skipn 2 args) = false ->
   Configuration.host (Configuration.parseCliArgs args) = Configuration.Absent)
  /\ (existsb (fun a => streq a (lit "--port")) (skipn 2 args) = false ->
      Configuration.port (Configuration.parseCliArgs args) = Configuration.Absent)
  /\ (existsb (fun a => streq a (lit "--retries")) (skipn 2 args) = false ->
      Configuration.maxRetries (Configuration.parseCliArgs args)
      = Configuration.Absent).
Proof.
  unfold Configuration.parseCliArgs.
  exact (parseFrom_without_flags _ _ (Nat.le_refl _) Configuration.empty).
Qed.

Lemma get_without_host (fs : jsstring -> Configuration.ConfigFile)
  (path : jsstring) (args : list jsstring)
  (configuration : Configuration.Settings) :
  Configuration.falsyKey (Configuration.host configuration) = true ->
  (forall settings,
      fs path = Configuration.Parsed settings ->
      Configuration.falsyKey (Configuration.host settings) = true) ->
  existsb (fun a => streq a (lit "--host")) (skipn 2 args) = false ->
  Configuration.get (fst (Configuration.create fs path args configuration))
  = inr {| Configuration.name := lit "ValidationError";
           Configuration.message := lit "Host value not found";
           Configuration.statusCode := 400 |}.
Proof.
  intros Hc Hf Ha.
  destruct (parseCliArgs_without_flags args) as (Hcli & _ & _).
  specialize (Hcli Ha).
  unfold Configuration.get, Configuration.create.
  destruct (fs path) as [|m|settings] eqn:F; cbn [fst Configuration.spread Configuration.host];
    rewrite Hcli; cbn [Configuration.over Configuration.empty Configuration.host].
  - destruct (Configuration.host configuration) as [|[x|]]; cbn in Hc |- *;
      try rewrite Hc; reflexivity.
  - destruct (Configuration.host configuration) as [|[x|]]; cbn in Hc |- *;
      try rewrite Hc; reflexivity.
  - specialize (Hf settings eq_refl).
    destruct (Configuration.host settings) as [|[y|]]; cbn in Hf |- *;
      try rewrite Hf; try reflexivity.
    destruct (Configuration.host configuration) as [|[x|]]; cbn in Hc |- *;
      try rewrite Hc; reflexivity.
Qed.

(** X20.  A host is required: when the object handed in has no host, or an
    empty or undefined one, the configuration file, if there is one, has
    none either, and the command line has no [--host], [new MikroMail]
    throws the [ValidationError] [Host value not found] with status code
    400, and makes no client. *)
Theorem construct_requires_host (W : World)
  (fs : jsstring -> Configuration.ConfigFile)
  (path : jsstring) (args : list jsstring)
  (configuration : Configuration.Settings) :
  falsy path = false ->
  Configuration.falsyKey (Configuration.host configuration) = true ->
  (forall settings,
      fs path = Configuration.Parsed settings ->
      Configuration.falsyKey (Configuration.host settings) = true) ->
  existsb (fun a => streq a (lit "--host")) (skipn 2 args) = false ->
  MikroMail.construct fs W
    (Some {| Configuration.config := Some configuration;
             Configuration.configFilePath := Some path;
             Configuration.args := Some args |})
  = Some (inr {| Configuration.name := lit "ValidationError";
                 Configuration.message := lit "Host value not found";
                 Configuration.statusCode := 400 |}).
Proof.
  intros Hp Hc Hf Ha. unfold MikroMail.construct, Configuration.new.
  cbn [Configuration.config Configuration.configFilePath Configuration.args orElse].
  rewrite Hp, (get_without_host fs path args configuration Hc Hf Ha).
  reflexivity.
Qed.

Lemma construct_requires_host_witness :
  MikroMail.construct noFiles accepting
    (Some {| Configuration.config := Some Configuration.empty;
             Configuration.configFilePath := Some (lit "mikromail.config.json");
             Configuration.args := Some plainStart |})
  = Some (inr {| Configuration.name := lit "ValidationError";
                 Configuration.message := lit "Host value not found";
                 Configuration.statusCode := 400 |}).
Proof.
  apply construct_requires_host.
  - reflexivity.
  - reflexivity.
  - intros settings H. discriminate H.
  - reflexivity.
Defined.




(** ** MikroMail *)

Lemma close_ends_closed (W : World) (c : Client) :
  consistent c ->
  exists c',
    close W c = (Resolved tt, c') /\ socket c' = None /\ connected c' = false.
Proof.
  intros Hc. unfold consistent in Hc.
  unfold close, tryFinally, tryCatch.
  destruct (connected c) eqn:Conn.
  - specialize (Hc eq_refl).
    destruct (socket c) as [s|] eqn:S; [clear Hc|exfalso; apply Hc; reflexivity].
    unfold bind.
    destruct (sendCommand W (lit "QUIT") 221 c) as [[x|e] c1] eqn:Q.
    + pose proof (keepsSocket_sendCommand _ _ _ _ _ _ Q) as K. rewrite S in K.
      cbn [ret]. rewrite K.
      eexists. split; [reflexivity|]. split; reflexivity.
    + pose proof (keepsSocket_sendCommand _ _ _ _ _ _ Q) as K. rewrite S in K.
      destruct (log (lit "Error during QUIT: " ++ e) true c1) as [r2 c2] eqn:L.
      pose proof (keepsSocket_log _ _ _ _ _ L) as K2. rewrite K in K2.
      pose proof (log_resolves (lit "Error during QUIT: " ++ e) true c1) as R2.
      rewrite L in R2. cbn [fst] in R2. subst r2.
      rewrite K2.
      eexists. split; [reflexivity|]. split; reflexivity.
  - cbn [ret]. destruct (socket c) as [s|] eqn:S.
    + eexists. split; [reflexivity|]. split; reflexivity.
    + exists c. auto.
Qed.

(** X22.  What [send] leaves when it returns: the connection is closed,
    the socket field null and [connected] false, whether the message was
    sent or not.  The MX look-up only decides whether a warning is printed:
    it changes nothing of what the client does.  [send] has then printed
    the warning, if any, and one line, the message id or the failure, and
    no error of its own.  A run in which a connection attempt never settles
    does not return, and nothing is said of it. *)
Theorem send_returns_closed (dns : Lookup.Resolver) (W : World)
  (emailOptions : EmailOptions) (smtpClient : Client) :
  consistent smtpClient ->
  socket (fst (MikroMail.send dns W emailOptions smtpClient)) = None
  /\ connected (fst (MikroMail.send dns W emailOptions smtpClient)) = false
  /\ (forall dns',
        fst (MikroMail.send dns' W emailOptions smtpClient)
        = fst (MikroMail.send dns W emailOptions smtpClient))
  /\ snd (MikroMail.send dns W emailOptions smtpClient)
     = (if Lookup.verifyEmailDomain dns (to emailOptions) then []
        else [Configuration.StdErr
                (lit "Warning: No MX records found for recipient domain")])
       ++ [if success (fst (sendEmail W emailOptions smtpClient))
           then Configuration.StdOut
                  (lit "Message ID: "
                   ++ MikroMail.shown
                        (messageId (fst (sendEmail W emailOptions smtpClient))))
           else Configuration.StdErr
                  (lit "Failed to send email: "
                   ++ MikroMail.shown
                        (error (fst (sendEmail W emailOptions smtpClient))))].
Proof.
  intros Hc. unfold MikroMail.send.
  pose proof (sendEmail_consistent W emailOptions smtpClient Hc) as Hc1.
  destruct (sendEmail W emailOptions smtpClient) as [result c1].
  cbn [fst snd] in *.
  destruct (close_ends_closed W c1 Hc1) as (c2 & E & S & Cn).
  rewrite E. cbn [fst snd]. repeat split; try assumption.
  destruct (success result); reflexivity.
Qed.

Lemma send_returns_closed_witness :
  socket (fst (MikroMail.send noRecords accepting bccLetter (client0 accepting)))
  = None
  /\ connected (fst (MikroMail.send noRecords accepting bccLetter (client0 accepting)))
     = false.
Proof.
  destruct (send_returns_closed noRecords accepting bccLetter (client0 accepting))
    as (A & B & _).
  - intros H. discriminate H.
  - split; [exact A | exact B].
Defined.

(** ** The reply to a command *)

Lemma onData_complete (expectedCode : Z) (chunks : list jsstring) :
  forall acc data matches,
    onData expectedCode acc chunks = Some (data, matches) ->
    exists n,
      (0 < n <= List.length chunks)%nat
      /\ data = acc ++ List.concat (firstn n chunks)
      /\ last (split CRLF data) [] = []
      /\ exists code sep,
           execReplyLine
             (lineOrEmpty (split CRLF data)
                (Z.of_nat (List.length (split CRLF data)) - 2))
           = Some (code, sep)
           /\ sep <> lit "-"
           /\ matches = streq code (numberToString expectedCode).
Proof.
  induction chunks as [|chunk later IH]; intros acc data matches H;
    [discriminate H|].
  cbn [onData] in H. cbv zeta in H.
  assert (Later : onData expectedCode (acc ++ chunk) later = Some (data, matches) ->
                  exists n,
                    (0 < n <= List.length (chunk :: later))%nat
                    /\ data = acc ++ List.concat (firstn n (chunk :: later))
                    /\ last (split CRLF data) [] = []
                    /\ exists code sep,
                         execReplyLine
                           (lineOrEmpty (split CRLF data)
                              (Z.of_nat (List.length (split CRLF data)) - 2))
                         = Some (code, sep)
                         /\ sep <> lit "-"
                         /\ matches = streq code (numberToString expectedCode)).
  { intros H'. destruct (IH _ _ _ H') as (n & Hn & D & rest). exists (S n).
    split; [cbn [List.length]; lia|].
    split; [cbn [firstn List.concat]; rewrite D, app_assoc; reflexivity | exact rest]. }
  destruct ((0 <? List.length (split CRLF (acc ++ chunk)))%nat
            && streq (last (split CRLF (acc ++ chunk)) []) []) eqn:C;
    [|exact (Later H)].
  destruct (execReplyLine _) as [[code sep]|] eqn:X; [|exact (Later H)].
  destruct (negb (streq sep (lit "-"))) eqn:S; [|exact (Later H)].
  inversion H; subst. exists 1%nat.
  split; [cbn [List.length]; lia|].
  split; [cbn [firstn List.concat]; rewrite app_nil_r; reflexivity|].
  apply andb_prop in C. destruct C as [_ C]. apply streq_eq in C.
  split; [exact C|]. exists code, sep. split; [exact X|].
  split; [|reflexivity]. intros ->. vm_compute in S. discriminate S.
Qed.

(** X23.  [sendCommand] resolves only with a complete reply of the expected
    code: what arrived after the command was written ends with CR LF, its
    last line starts with the three digits of the expected code and is not
    a continuation line, and the value is that reply, trimmed. *)
Theorem sendCommand_resolves_on_expected_code (W : World) (command : jsstring)
  (expectedCode : Z) (c : Client) (response : jsstring) (c' : Client) :
  sendCommand W command expectedCode c = (Resolved response, c') ->
  exists sent n data,
    writes sent = writes (trace c) ++ [commandLine command]
    /\ (0 < n <= List.length (serverData W sent))%nat
    /\ data = List.concat (firstn n (serverData W sent))
    /\ response = trim data
    /\ last (split CRLF data) [] = []
    /\ exists sep,
         execReplyLine
           (lineOrEmpty (split CRLF data)
              (Z.of_nat (List.length (split CRLF data)) - 2))
         = Some (numberToString expectedCode, sep)
         /\ sep <> lit "-".
Proof.
  intros H. unfold sendCommand in H.
  destruct (socket c); [|discriminate H].
  destruct (negb (connected c)); [discriminate H|].
  apply bind_inv in H. destruct H as [([] & c1 & H1 & H) | (e & _ & E)];
    [|discriminate E].
  assert (W1 : writes (trace c1) = writes (trace c)).
  { destruct (_ || _) in H1; exact (silent_log _ _ _ _ _ H1). }
  unfold bind at 1, update at 1 in H.
  unfold bind at 1, update at 1 in H.
  set (c2 := record (Write (command ++ CRLF)) (set_lastCommand command c1)) in H.
  assert (W2 : writes (trace c2) = writes (trace c) ++ [commandLine command]).
  { subst c2. rewrite writes_record. cbn [set_lastCommand trace]. rewrite W1.
    reflexivity. }
  destruct (onData expectedCode [] (serverData W (trace c2)))
    as [[responseData matches]|] eqn:D.
  2:{ apply bind_inv in H. destruct H as [([] & c3 & _ & H) | (e & _ & E)];
        [discriminate H | discriminate E]. }
  apply bind_inv in H. destruct H as [([] & c3 & _ & H) | (e & _ & E)];
    [|discriminate E].
  apply bind_inv in H. destruct H as [([] & c4 & _ & H) | (e & _ & E)];
    [|discriminate E].
  destruct matches eqn:Hm; [|discriminate H]. inversion H; subst.
  destruct (onData_complete _ _ _ _ _ D) as (n & Hn & Hd & Hl & code & sep & X & S & M).
  cbn [app] in Hd. symmetry in M. apply streq_eq in M. subst code.
  exists (trace c2), n, responseData.
  split; [exact W2|]. split; [exact Hn|]. split; [exact Hd|].
  split; [reflexivity|]. split; [exact Hl|]. exists sep. split; [exact X | exact S].
Qed.

Lemma sendCommand_resolves_on_expected_code_witness :
  exists sent n data,
    writes sent = writes (trace connectedState) ++ [commandLine (lit "NOOP")]
    /\ (0 < n <= List.length (serverData accepting sent))%nat
    /\ data = List.concat (firstn n (serverData accepting sent))
    /\ lit "250 OK" = trim data
    /\ last (split CRLF data) [] = []
    /\ exists sep,
         execReplyLine
           (lineOrEmpty (split CRLF data)
              (Z.of_nat (List.length (split CRLF data)) - 2))
         = Some (numberToString 250, sep)
         /\ sep <> lit "-".
Proof.
  apply (sendCommand_resolves_on_expected_code accepting (lit "NOOP") 250
           connectedState (lit "250 OK")
           (snd (sendCommand accepting (lit "NOOP") 250 connectedState))).
  vm_compute. reflexivity.
Defined.
